(** * Task lifecycle and queue scheduling of the video download backend

    A shallow embedding of [src/main.py] (FastAPI) and of the parts of
    [src/app.py] (Quart) that differ from it: the task store, the queue,
    the single-flight scheduler built on asyncio, the status, download,
    queue and cancel handlers, the options handed to yt-dlp, the hourly
    cleanup and the two formatters.

    Conventions of the embedding.
    - [int] is [Z]; [//] and [%] are [Z.div] and [Z.modulo] (floor
      semantics, as in Python for a positive divisor); [len] is [length].
    - [str] values are [string]s of bytes.  URLs are ASCII; on ASCII
      [str.lower] maps 'A'..'Z' to 'a'..'z' and leaves every other byte.
    - [dict] is an association list in insertion order, which is the order
      in which Python iterates a dict.
    - [datetime] values are integers counting microseconds.
    - [uuid.uuid4()] is a supply of identifiers that never repeats; an
      identifier is a natural number.
    - The module level globals [tasks], [queue] and [processing_task_id]
      are fields of an explicit [state], which also holds what asyncio and
      the file system remember: the coroutines made by
      [asyncio.create_task] that have not run yet, the coroutines
      suspended at [await loop.run_in_executor(...)], and the set of
      existing task directories.
    - Statements that can raise live in a small monad of state and
      exceptions; a mutation made before a [raise] stays made. *)

From Stdlib Require Import ZArith List String Ascii Bool Lia.
From Stdlib Require Import QArith Qround DecimalString.
From Stdlib Require Import Morphisms Permutation Sorting.Sorted.
Import ListNotations.
Close Scope Q_scope.
Local Open Scope string_scope.
Local Open Scope list_scope.

(* ================================================================== *)
(** * Python dictionaries keyed by task identifiers *)
(* ================================================================== *)

Definition task_id := nat.

Module PyDict.
Section Dict.
Context {V : Type}.

Definition dict := list (task_id * V).

(** [d.get(k)] *)
Fixpoint get (k : task_id) (d : dict) : option V :=
  match d with
  | [] => None
  | (k', v) :: d' => if Nat.eqb k' k then Some v else get k d'
  end.

(** [d[k] = v]: an existing key keeps its place, a new key goes last. *)
Fixpoint set (k : task_id) (v : V) (d : dict) : dict :=
  match d with
  | [] => [(k, v)]
  | (k', v') :: d' =>
      if Nat.eqb k' k then (k, v) :: d' else (k', v') :: set k v d'
  end.

(** [d[k][field] = x] for a key that is present: the value stored under
    [k] is changed in place by [f]. *)
Definition update (k : task_id) (f : V -> V) (d : dict) : dict :=
  map (fun kv => if Nat.eqb (fst kv) k then (fst kv, f (snd kv)) else kv) d.

(** [del d[k]] *)
Definition del (k : task_id) (d : dict) : dict :=
  filter (fun kv => negb (Nat.eqb (fst kv) k)) d.

(** [list(d.keys())] *)
Definition keys (d : dict) : list task_id := map fst d.

(** [d.values()] *)
Definition values (d : dict) : list V := map snd d.
End Dict.
Arguments dict : clear implicits.
End PyDict.

(* ================================================================== *)
(** * Strings: decimal printing, lower-casing, substring test *)
(* ================================================================== *)

(** [str(z)], also the format code [d]. *)
Definition str (z : Z) : string := NilZero.string_of_int (Z.to_int z).

(** The format code [02d]: zero padding up to width two. *)
Definition format_02d (z : Z) : string :=
  let s := str z in
  if Nat.ltb (String.length s) 2 then "0" ++ s else s.

Definition is_upper (c : ascii) : bool :=
  Nat.leb 65 (nat_of_ascii c) && Nat.leb (nat_of_ascii c) 90.

Definition lower_ascii (c : ascii) : ascii :=
  if is_upper c then ascii_of_nat (nat_of_ascii c + 32) else c.

(** [s.lower()] *)
Fixpoint lower (s : string) : string :=
  match s with
  | EmptyString => EmptyString
  | String c s' => String (lower_ascii c) (lower s')
  end.

(** [needle in hay] *)
Fixpoint contains (needle hay : string) : bool :=
  prefix needle hay ||
  match hay with
  | EmptyString => false
  | String _ hay' => contains needle hay'
  end.

(* ================================================================== *)
(** * Configuration *)
(* ================================================================== *)

Definition MAX_QUEUE_SIZE : nat := 5.
Definition CLEANUP_AFTER_HOURS : Z := 2.
Definition MAX_QUALITY : Z := 720.

(** [timedelta(hours=h)] in microseconds. *)
Definition timedelta_hours (h : Z) : Z := (h * 3600 * 1000000)%Z.

(* ================================================================== *)
(** * detect_platform *)
(* ================================================================== *)

Inductive platform := youtube | vk | instagram | unknown.

Definition platform_eqb (p q : platform) : bool :=
  match p, q with
  | youtube, youtube | vk, vk | instagram, instagram | unknown, unknown => true
  | _, _ => false
  end.

Definition detect_platform (url : string) : platform :=
  let url_lower := lower url in
  if contains "youtube.com" url_lower || contains "youtu.be" url_lower then youtube
  else if contains "vk.com" url_lower || contains "vkvideo.ru" url_lower then vk
  else if contains "instagram.com" url_lower then instagram
  else unknown.

(* ================================================================== *)
(** * format_duration and format_size *)
(* ================================================================== *)

Definition format_duration (seconds : Z) : string :=
  if Z.eqb seconds 0 then "Неизвестно"
  else
    let hours := (seconds / 3600)%Z in
    let minutes := ((seconds mod 3600) / 60)%Z in
    let secs := (seconds mod 60)%Z in
    if Z.ltb 0 hours
    then str hours ++ ":" ++ format_02d minutes ++ ":" ++ format_02d secs
    else str minutes ++ ":" ++ format_02d secs.

(** Rounding to the nearest integer, ties to the even one: the rounding
    of Python's float formatting. *)
Definition round_half_even (x : Q) : Z :=
  let f := Qfloor x in
  match Qcompare (x - inject_Z f) (1 # 2) with
  | Lt => f
  | Gt => (f + 1)%Z
  | Eq => if Z.even f then f else (f + 1)%Z
  end.

(** The format code [.1f] on a non-negative value. *)
Definition format_1f (x : Q) : string :=
  let tenths := round_half_even (x * inject_Z 10) in
  str (tenths / 10) ++ "." ++ str (tenths mod 10).

(** The loop of [format_size].  [bytes_size] starts as the integer file
    size and becomes a float at the first division.  A size below 2^53 is
    a float exactly, and a division by 1024.0 only lowers the exponent,
    so each value of the loop is the rational computed here. *)
Fixpoint format_size_loop (units : list string) (bytes_size : Q) : string :=
  match units with
  | [] => format_1f bytes_size ++ " ТБ"
  | unit :: units' =>
      match Qcompare bytes_size 1024 with
      | Lt => format_1f bytes_size ++ " " ++ unit
      | _ => format_size_loop units' (bytes_size / 1024)
      end
  end.

Definition format_size (bytes_size : Z) : string :=
  format_size_loop ["Б"; "КБ"; "МБ"; "ГБ"] (inject_Z bytes_size).

(* ================================================================== *)
(** * Task records and the global state *)
(* ================================================================== *)

Inductive status := Queued | Processing | Completed | Error.

Definition status_eqb (a b : status) : bool :=
  match a, b with
  | Queued, Queued | Processing, Processing
  | Completed, Completed | Error, Error => true
  | _, _ => false
  end.

(** The [video_info] dict of a finished download. *)
Record video_info := {
  vi_title : string;
  vi_duration : string;
  vi_quality : string;
  vi_size : string
}.

(** A task dict.  The keys that a fresh task lacks are [option]s. *)
Record task := {
  t_task_id : task_id;
  t_url : string;
  t_quality : Z;
  t_status : status;
  t_created_at : Z;
  t_progress : Z;
  t_platform : option platform;
  t_file_path : option string;
  t_video_info : option video_info;
  t_completed_at : option Z;
  t_error : option string
}.

Definition set_status (v : status) (t : task) : task :=
  {| t_task_id := t_task_id t; t_url := t_url t; t_quality := t_quality t;
     t_status := v; t_created_at := t_created_at t;
     t_progress := t_progress t; t_platform := t_platform t;
     t_file_path := t_file_path t; t_video_info := t_video_info t;
     t_completed_at := t_completed_at t; t_error := t_error t |}.

Definition set_progress (v : Z) (t : task) : task :=
  {| t_task_id := t_task_id t; t_url := t_url t; t_quality := t_quality t;
     t_status := t_status t; t_created_at := t_created_at t;
     t_progress := v; t_platform := t_platform t;
     t_file_path := t_file_path t; t_video_info := t_video_info t;
     t_completed_at := t_completed_at t; t_error := t_error t |}.

Definition set_platform (v : platform) (t : task) : task :=
  {| t_task_id := t_task_id t; t_url := t_url t; t_quality := t_quality t;
     t_status := t_status t; t_created_at := t_created_at t;
     t_progress := t_progress t; t_platform := Some v;
     t_file_path := t_file_path t; t_video_info := t_video_info t;
     t_completed_at := t_completed_at t; t_error := t_error t |}.

Definition set_file_path (v : string) (t : task) : task :=
  {| t_task_id := t_task_id t; t_url := t_url t; t_quality := t_quality t;
     t_status := t_status t; t_created_at := t_created_at t;
     t_progress := t_progress t; t_platform := t_platform t;
     t_file_path := Some v; t_video_info := t_video_info t;
     t_completed_at := t_completed_at t; t_error := t_error t |}.

Definition set_video_info (v : video_info) (t : task) : task :=
  {| t_task_id := t_task_id t; t_url := t_url t; t_quality := t_quality t;
     t_status := t_status t; t_created_at := t_created_at t;
     t_progress := t_progress t; t_platform := t_platform t;
     t_file_path := t_file_path t; t_video_info := Some v;
     t_completed_at := t_completed_at t; t_error := t_error t |}.

Definition set_completed_at (v : Z) (t : task) : task :=
  {| t_task_id := t_task_id t; t_url := t_url t; t_quality := t_quality t;
     t_status := t_status t; t_created_at := t_created_at t;
     t_progress := t_progress t; t_platform := t_platform t;
     t_file_path := t_file_path t; t_video_info := t_video_info t;
     t_completed_at := Some v; t_error := t_error t |}.

Definition set_error (v : string) (t : task) : task :=
  {| t_task_id := t_task_id t; t_url := t_url t; t_quality := t_quality t;
     t_status := t_status t; t_created_at := t_created_at t;
     t_progress := t_progress t; t_platform := t_platform t;
     t_file_path := t_file_path t; t_video_info := t_video_info t;
     t_completed_at := t_completed_at t; t_error := Some v |}.

(** The arguments of one call [download_video(task_id, url, quality)]. *)
Record coroutine := {
  co_task_id : task_id;
  co_url : string;
  co_quality : Z
}.

Record state := {
  tasks : PyDict.dict task;
  queue : list task_id;
  processing_task_id : option task_id;
  (** made by [asyncio.create_task], first step not run yet, oldest first *)
  created_tasks : list coroutine;
  (** suspended at [await loop.run_in_executor(None, extract_info)] *)
  awaiting_executor : list coroutine;
  (** the task directories that exist under [DOWNLOAD_DIR] *)
  download_dir : list task_id;
  (** the next value of [uuid.uuid4()] *)
  uuid_supply : nat
}.

Definition with_tasks (v : PyDict.dict task) (s : state) : state :=
  {| tasks := v; queue := queue s;
     processing_task_id := processing_task_id s;
     created_tasks := created_tasks s;
     awaiting_executor := awaiting_executor s;
     download_dir := download_dir s; uuid_supply := uuid_supply s |}.

Definition with_queue (v : list task_id) (s : state) : state :=
  {| tasks := tasks s; queue := v;
     processing_task_id := processing_task_id s;
     created_tasks := created_tasks s;
     awaiting_executor := awaiting_executor s;
     download_dir := download_dir s; uuid_supply := uuid_supply s |}.

Definition with_processing_task_id (v : option task_id) (s : state) : state :=
  {| tasks := tasks s; queue := queue s;
     processing_task_id := v;
     created_tasks := created_tasks s;
     awaiting_executor := awaiting_executor s;
     download_dir := download_dir s; uuid_supply := uuid_supply s |}.

Definition with_created_tasks (v : list coroutine) (s : state) : state :=
  {| tasks := tasks s; queue := queue s;
     processing_task_id := processing_task_id s;
     created_tasks := v;
     awaiting_executor := awaiting_executor s;
     download_dir := download_dir s; uuid_supply := uuid_supply s |}.

Definition with_awaiting_executor (v : list coroutine) (s : state) : state :=
  {| tasks := tasks s; queue := queue s;
     processing_task_id := processing_task_id s;
     created_tasks := created_tasks s;
     awaiting_executor := v;
     download_dir := download_dir s; uuid_supply := uuid_supply s |}.

Definition with_download_dir (v : list task_id) (s : state) : state :=
  {| tasks := tasks s; queue := queue s;
     processing_task_id := processing_task_id s;
     created_tasks := created_tasks s;
     awaiting_executor := awaiting_executor s;
     download_dir := v; uuid_supply := uuid_supply s |}.

Definition with_uuid_supply (v : nat) (s : state) : state :=
  {| tasks := tasks s; queue := queue s;
     processing_task_id := processing_task_id s;
     created_tasks := created_tasks s;
     awaiting_executor := awaiting_executor s;
     download_dir := download_dir s; uuid_supply := v |}.

(** The state when the module has just been imported. *)
Definition initial_state : state :=
  {| tasks := []; queue := []; processing_task_id := None;
     created_tasks := []; awaiting_executor := [];
     download_dir := []; uuid_supply := 0 |}.

(* ================================================================== *)
(** * Statements: state and exceptions *)
(* ================================================================== *)

Inductive exn :=
| Exception (message : string)
| KeyError (key : task_id)
| HTTPException (status_code : nat) (detail : string).

(** [str(e)] *)
Definition str_exn (e : exn) : string :=
  match e with
  | Exception message => message
  | KeyError key => "'" ++ str (Z.of_nat key) ++ "'"
  | HTTPException status_code detail =>
      str (Z.of_nat status_code) ++ ": " ++ detail
  end.

Inductive outcome (A : Type) : Type :=
| Returns (a : A)
| Raises (e : exn).
Arguments Returns {A} a.
Arguments Raises {A} e.

Definition M (A : Type) : Type := state -> outcome A * state.

Definition ret {A} (a : A) : M A := fun s => (Returns a, s).

Definition raise {A} (e : exn) : M A := fun s => (Raises e, s).

Definition bind {A B} (m : M A) (k : A -> M B) : M B :=
  fun s =>
    match m s with
    | (Returns a, s') => k a s'
    | (Raises e, s') => (Raises e, s')
    end.

Definition gets {A} (f : state -> A) : M A := fun s => (Returns (f s), s).

Definition modify (f : state -> state) : M unit := fun s => (Returns tt, f s).

(** [try: body except Exception as e: handler(e)] *)
Definition try_except {A} (body : M A) (handler : exn -> M A) : M A :=
  fun s =>
    match body s with
    | (Returns a, s') => (Returns a, s')
    | (Raises e, s') => handler e s'
    end.

(** [try: body finally: final] *)
Definition try_finally {A} (body : M A) (final : M unit) : M A :=
  fun s =>
    match body s with
    | (r, s') =>
        match final s' with
        | (Returns _, s'') => (r, s'')
        | (Raises e, s'') => (Raises e, s'')
        end
    end.

(** The state that a statement leaves. *)
Definition exec {A} (m : M A) (s : state) : state := snd (m s).

Declare Scope py_scope.
Delimit Scope py_scope with py.
Notation "x <- c1 ;; c2" := (bind c1 (fun x => c2))
  (at level 61, c1 at next level, right associativity) : py_scope.
Notation "c1 ;; c2" := (bind c1 (fun _ => c2))
  (at level 61, right associativity) : py_scope.
Local Open Scope py_scope.

(** [tasks[task_id][key] = value]: [KeyError] when the task is gone. *)
Definition task_setitem (id : task_id) (f : task -> task) : M unit :=
  fun s =>
    match PyDict.get id (tasks s) with
    | None => (Raises (KeyError id), s)
    | Some _ => (Returns tt, with_tasks (PyDict.update id f (tasks s)) s)
    end.

(** [x in l] *)
Definition mem (x : task_id) (l : list task_id) : bool :=
  existsb (Nat.eqb x) l.

(** [l.index(x)], called only under [x in l]. *)
Fixpoint index (x : task_id) (l : list task_id) : nat :=
  match l with
  | [] => 0
  | y :: l' => if Nat.eqb y x then 0 else S (index x l')
  end.

(** [l.remove(x)]: the first occurrence goes. *)
Fixpoint remove_first (x : task_id) (l : list task_id) : list task_id :=
  match l with
  | [] => []
  | y :: l' => if Nat.eqb y x then l' else y :: remove_first x l'
  end.

(** [task_dir.mkdir(exist_ok=True)]; [failure] is what the file system
    raises, if it does. *)
Definition mkdir (id : task_id) (failure : option string) : M unit :=
  match failure with
  | Some message => raise (Exception message)
  | None =>
      modify (fun s =>
        if mem id (download_dir s) then s
        else with_download_dir (download_dir s ++ [id]) s)
  end.

(** [if task_dir.exists(): shutil.rmtree(task_dir)]; [raises] says whether
    the file system refuses the removal, in which case the directory
    stays. *)
Definition rmtree_if_exists (id : task_id) (raises : bool) : M unit :=
  fun s =>
    if mem id (download_dir s) then
      if raises then (Raises (Exception "rmtree"), s)
      else (Returns tt,
            with_download_dir
              (filter (fun d => negb (Nat.eqb d id)) (download_dir s)) s)
    else (Returns tt, s).

(* ================================================================== *)
(** * The scheduler *)
(* ================================================================== *)

(** [asyncio.create_task(download_video(...))]: the coroutine is handed to
    the event loop and its body does not run before the caller gives the
    loop control back. *)
Definition create_task (c : coroutine) : M unit :=
  modify (fun s => with_created_tasks (created_tasks s ++ [c]) s).

Definition process_next_in_queue : M unit :=
  fun s =>
    match processing_task_id s, queue s with
    | None, next_task_id :: rest =>
        let s1 := with_queue rest s in
        match PyDict.get next_task_id (tasks s1) with
        | Some task =>
            if status_eqb (t_status task) Queued
            then create_task {| co_task_id := next_task_id;
                                co_url := t_url task;
                                co_quality := t_quality task |} s1
            else (Returns tt, s1)
        | None => (Returns tt, s1)
        end
    | _, _ => (Returns tt, s)
    end.

(** The keys of yt-dlp's [info] dict that [download_video] reads; [None]
    is a key that is missing (or, for the duration, also one that holds
    [None]: both make [format_duration] take its first branch). *)
Record info := {
  info_title : option string;
  info_duration : option Z
}.

(** How the call in the executor ends: [extract_info] returns [info] and
    [task_dir.glob('*')] then lists [files], each with its [st_size]; or
    the call raises.  An [extract_info] that returns [None], a duration
    that is not an integer and a [stat] that fails are left out: each
    would take the [except] path like [FetchFailed]. *)
Inductive fetch_result :=
| Fetched (i : info) (files : list (string * Z))
| FetchFailed (message : string).

Definition unsupported_platform : string :=
  "Неподдерживаемая платформа. Поддерживаются: YouTube, VK, Instagram".

(** [download_video] from the top of its [try] to the [await]. *)
Definition download_video_before_await (c : coroutine)
    (mkdir_failure : option string) : M unit :=
  let task_id := co_task_id c in
  task_setitem task_id (set_status Processing) ;;
  task_setitem task_id (set_progress 10) ;;
  modify (with_processing_task_id (Some task_id)) ;;
  let platform := detect_platform (co_url c) in
  (if platform_eqb platform unknown
   then raise (Exception unsupported_platform) else ret tt) ;;
  task_setitem task_id (set_platform platform) ;;
  task_setitem task_id (set_progress 20) ;;
  mkdir task_id mkdir_failure ;;
  task_setitem task_id (set_progress 30).

(** [download_video] from the [await] to the end of its [try]. *)
Definition download_video_after_await (c : coroutine)
    (result : fetch_result) (now : Z) : M unit :=
  let task_id := co_task_id c in
  match result with
  | FetchFailed message => raise (Exception message)
  | Fetched i files =>
      task_setitem task_id (set_progress 90) ;;
      let title :=
        match info_title i with Some t => t | None => "Видео" end in
      let duration :=
        match info_duration i with Some d => d | None => 0%Z end in
      let quality := (str (Z.min (co_quality c) MAX_QUALITY) ++ "p")%string in
      size <-
        match files with
        | (video_file, file_size) :: _ =>
            task_setitem task_id (set_file_path video_file) ;;
            ret (format_size file_size)
        | [] => ret "Уточняется"
        end ;;
      let video_info :=
        {| vi_title := title; vi_duration := format_duration duration;
           vi_quality := quality; vi_size := size |} in
      task_setitem task_id (set_video_info video_info) ;;
      task_setitem task_id (set_status Completed) ;;
      task_setitem task_id (set_progress 100) ;;
      task_setitem task_id (set_completed_at now)
  end.

(** The [except Exception as e] clause of [download_video]. *)
Definition download_video_except (task_id : task_id) (e : exn) : M unit :=
  task_setitem task_id (set_status Error) ;;
  task_setitem task_id (set_error (str_exn e)).

(** The [finally] clause of [download_video]. *)
Definition download_video_finally : M unit :=
  modify (with_processing_task_id None) ;;
  process_next_in_queue.

(** The event loop runs the first step of a created coroutine.  The [try]
    is left, and its [finally] run, only when something raised; otherwise
    the coroutine is parked at the [await]. *)
Definition download_video_first_step (c : coroutine)
    (mkdir_failure : option string) (s : state) : state :=
  match download_video_before_await c mkdir_failure s with
  | (Returns _, s1) =>
      with_awaiting_executor (awaiting_executor s1 ++ [c]) s1
  | (Raises e, s1) =>
      exec (try_finally (download_video_except (co_task_id c) e)
                        download_video_finally) s1
  end.

(** The executor is done and the event loop resumes the coroutine. *)
Definition download_video_resume (c : coroutine)
    (result : fetch_result) (now : Z) (s : state) : state :=
  exec (try_finally
          (try_except (download_video_after_await c result now)
                      (download_video_except (co_task_id c)))
          download_video_finally) s.

(* ================================================================== *)
(** * The HTTP handlers *)
(* ================================================================== *)

Record download_response := {
  dr_task_id : task_id;
  dr_status : status;
  dr_queue_position : nat;
  dr_message : string
}.

Definition uuid4 : M task_id :=
  fun s => (Returns (uuid_supply s), with_uuid_supply (S (uuid_supply s)) s).

(** [create_download_task] from the new identifier to [queue.append]. *)
Definition enqueue_new_task (url : string) (quality : Z) (now : Z)
    : M task_id :=
  task_id <- uuid4 ;;
  let task :=
    {| t_task_id := task_id; t_url := url; t_quality := quality;
       t_status := Queued; t_created_at := now; t_progress := 0;
       t_platform := None; t_file_path := None; t_video_info := None;
       t_completed_at := None; t_error := None |} in
  modify (fun s => with_tasks (PyDict.set task_id task (tasks s)) s) ;;
  modify (fun s => with_queue (queue s ++ [task_id]) s) ;;
  ret task_id.

(** [main.py]: POST /api/download *)
Definition create_download_task (url : string) (quality : Z) (now : Z)
    : M download_response :=
  queue_length <- gets (fun s => List.length (queue s)) ;;
  if Nat.leb MAX_QUEUE_SIZE queue_length
  then raise (HTTPException 429
                "Очередь заполнена. Пожалуйста, попробуйте позже.")
  else
    task_id <- enqueue_new_task url quality now ;;
    queue_position <- gets (fun s => List.length (queue s)) ;;
    current <- gets processing_task_id ;;
    match current with
    | None => process_next_in_queue
    | Some _ => ret tt
    end ;;
    ret {| dr_task_id := task_id; dr_status := Queued;
           dr_queue_position := queue_position;
           dr_message := "Задача добавлена в очередь" |}.


(** The body of GET /api/status/{task_id}; a key that the handler leaves
    out of the response is [None]. *)
Record status_response := {
  sr_task_id : task_id;
  sr_status : status;
  sr_progress : Z;
  sr_queue_position : option nat;
  sr_video_info : option (option video_info);
  sr_error : option string
}.

Definition get_task_status (task_id : task_id) : M status_response :=
  fun s =>
    match PyDict.get task_id (tasks s) with
    | None => (Raises (HTTPException 404 "Задача не найдена"), s)
    | Some task =>
        (Returns
           {| sr_task_id := task_id;
              sr_status := t_status task;
              sr_progress := t_progress task;
              sr_queue_position :=
                if status_eqb (t_status task) Queued && mem task_id (queue s)
                then Some (index task_id (queue s) + 1)
                else None;
              sr_video_info :=
                if status_eqb (t_status task) Completed
                then Some (t_video_info task) else None;
              sr_error :=
                if status_eqb (t_status task) Error
                then Some (match t_error task with
                           | Some message => message
                           | None => "Неизвестная ошибка"
                           end)
                else None |}, s)
    end.

(** [main.py]: DELETE /api/task/{task_id} *)
Definition cancel_task (task_id : task_id) (rmtree_raises : bool) : M string :=
  task <- gets (fun s => PyDict.get task_id (tasks s)) ;;
  match task with
  | None => raise (HTTPException 404 "Задача не найдена")
  | Some _ =>
      modify (fun s =>
        if mem task_id (queue s)
        then with_queue (remove_first task_id (queue s)) s else s) ;;
      rmtree_if_exists task_id rmtree_raises ;;
      modify (fun s => with_tasks (PyDict.del task_id (tasks s)) s) ;;
      ret "Задача отменена"
  end.

(* ================================================================== *)
(** * The cleanup *)
(* ================================================================== *)

(** The first [for] loop of [cleanup_old_files] over [tasks.items()];
    [rmtree_raises] names the directories whose removal the file system
    refuses. *)
Fixpoint cleanup_scan (current_time : Z) (rmtree_raises : task_id -> bool)
    (items : list (task_id * task)) (tasks_to_remove : list task_id)
    : M (list task_id) :=
  match items with
  | [] => ret tasks_to_remove
  | (task_id, task) :: items' =>
      match t_completed_at task with
      | Some completed_at =>
          let age := (current_time - completed_at)%Z in
          if Z.ltb (timedelta_hours CLEANUP_AFTER_HOURS) age
          then
            rmtree_if_exists task_id (rmtree_raises task_id) ;;
            cleanup_scan current_time rmtree_raises items'
                         (tasks_to_remove ++ [task_id])
          else cleanup_scan current_time rmtree_raises items' tasks_to_remove
      | None => cleanup_scan current_time rmtree_raises items' tasks_to_remove
      end
  end.

(** The second [for] loop: [del tasks[task_id]]. *)
Fixpoint delete_tasks (tasks_to_remove : list task_id) : M unit :=
  match tasks_to_remove with
  | [] => ret tt
  | task_id :: rest =>
      modify (fun s => with_tasks (PyDict.del task_id (tasks s)) s) ;;
      delete_tasks rest
  end.

(** One turn of the [while True] of [cleanup_old_files], up to the
    [asyncio.sleep]. *)
Definition cleanup_cycle (now : Z) (rmtree_raises : task_id -> bool) : M unit :=
  try_except
    (items <- gets tasks ;;
     tasks_to_remove <- cleanup_scan now rmtree_raises items [] ;;
     delete_tasks tasks_to_remove)
    (fun _ => ret tt).

(* ================================================================== *)
(** * The event loop *)
(* ================================================================== *)

(** What the event loop can run next.  Each event is one stretch of code
    between two points where control returns to the loop. *)
Inductive event :=
| Submit (url : string) (quality : Z) (now : Z)
| Start (id : task_id) (mkdir_failure : option string)
| Finish (id : task_id) (result : fetch_result) (now : Z)
| Cancel (id : task_id) (rmtree_raises : bool)
| Cleanup (now : Z) (rmtree_raises : task_id -> bool).

(** The first coroutine of [l] for task [id], and the rest of [l]. *)
Fixpoint take (id : task_id) (l : list coroutine)
    : option (coroutine * list coroutine) :=
  match l with
  | [] => None
  | c :: l' =>
      if Nat.eqb (co_task_id c) id then Some (c, l')
      else match take id l' with
           | Some (c', rest) => Some (c', c :: rest)
           | None => None
           end
  end.

Definition step (e : event) (s : state) : state :=
  match e with
  | Submit url quality now => exec (create_download_task url quality now) s
  | Start id mkdir_failure =>
      match take id (created_tasks s) with
      | Some (c, rest) =>
          download_video_first_step c mkdir_failure (with_created_tasks rest s)
      | None => s
      end
  | Finish id result now =>
      match take id (awaiting_executor s) with
      | Some (c, rest) =>
          download_video_resume c result now (with_awaiting_executor rest s)
      | None => s
      end
  | Cancel id rmtree_raises => exec (cancel_task id rmtree_raises) s
  | Cleanup now rmtree_raises => exec (cleanup_cycle now rmtree_raises) s
  end.

Definition run (trace : list event) (s : state) : state :=
  fold_left (fun s e => step e s) trace s.

Definition reachable (s : state) : Prop :=
  exists trace, s = run trace initial_state.

(** The number of tasks with [status == 'processing']. *)
Definition count_processing (s : state) : nat :=
  List.length
    (filter (fun t => status_eqb (t_status t) Processing)
            (PyDict.values (tasks s))).

(** The [queue_position] that GET /api/status/{task_id} reports, if any. *)
Definition queue_position (id : task_id) (s : state) : option nat :=
  match get_task_status id s with
  | (Returns r, _) => sr_queue_position r
  | (Raises _, _) => None
  end.

(** The test of the cleanup on one task: [completed_at] is there and is
    older than the retention window. *)
Definition expired (now : Z) (t : task) : bool :=
  match t_completed_at t with
  | Some completed_at =>
      Z.ltb (timedelta_hours CLEANUP_AFTER_HOURS) (now - completed_at)
  | None => false
  end.

(* ================================================================== *)
(** * Notions of the specification *)
(* ================================================================== *)







(** What every task record of a reachable state satisfies. *)
Definition record_ok (t : task) : Prop :=
  (t_completed_at t <> None <-> t_status t = Completed) /\
  (t_status t = Completed ->
   exists v, t_video_info t = Some v /\
     vi_quality v = (str (Z.min (t_quality t) MAX_QUALITY) ++ "p")%string).

(** The identifiers that the scheduler still has to deal with. *)
Definition pending_ids (s : state) : list task_id :=
  queue s ++ map co_task_id (created_tasks s)
          ++ map co_task_id (awaiting_executor s).

(** The invariant of the reachable states. *)
Record consistent (s : state) : Prop := {
  inv_keys : NoDup (PyDict.keys (tasks s));
  inv_store_fresh : forall id,
    In id (PyDict.keys (tasks s)) -> id < uuid_supply s;
  inv_ids : NoDup (pending_ids s);
  inv_fresh : forall id, In id (pending_ids s) -> id < uuid_supply s;
  inv_queue : forall id, In id (queue s) ->
    exists t, PyDict.get id (tasks s) = Some t /\ t_status t = Queued;
  inv_created : forall c t, In c (created_tasks s) ->
    PyDict.get (co_task_id c) (tasks s) = Some t ->
    t_status t = Queued /\ t_quality t = co_quality c /\ t_url t = co_url c;
  inv_awaiting : forall c t, In c (awaiting_executor s) ->
    PyDict.get (co_task_id c) (tasks s) = Some t ->
    t_status t = Processing /\ t_quality t = co_quality c;
  inv_records : forall id t,
    PyDict.get id (tasks s) = Some t -> record_ok t
}.

(* ================================================================== *)
(** * Auxiliary notions of the proofs *)
(* ================================================================== *)

(** The record changes that [download_video] makes along each of its
    paths, from the first to the last. *)
Definition mark_failed (message : string) (t : task) : task :=
  set_error message (set_status Error t).

Definition mark_started (t : task) : task :=
  set_progress 10 (set_status Processing t).

Definition mark_resolved (p : platform) (t : task) : task :=
  set_progress 20 (set_platform p (mark_started t)).

Definition mark_parked (p : platform) (t : task) : task :=
  set_progress 30 (mark_resolved p t).

Definition mark_completed (v : video_info) (path : option string) (now : Z)
    (t : task) : task :=
  set_completed_at now
    (set_progress 100
      (set_status Completed
        (set_video_info v
          (match path with
           | Some p => set_file_path p (set_progress 90 t)
           | None => set_progress 90 t
           end)))).


(** The identifiers that one cleanup cycle selects from [items]. *)
Definition expired_ids (now : Z) (items : list (task_id * task))
    : list task_id :=
  map fst (filter (fun kv => expired now (snd kv)) items).

(** Two states that differ at most in the directories. *)
Definition same_but_dirs (s s' : state) : Prop :=
  tasks s' = tasks s /\ queue s' = queue s /\
  processing_task_id s' = processing_task_id s /\
  created_tasks s' = created_tasks s /\
  awaiting_executor s' = awaiting_executor s /\
  uuid_supply s' = uuid_supply s.

(* ================================================================== *)
(** * Concrete states and traces used below *)
(* ================================================================== *)

Definition new_task (id : task_id) (url : string) (quality : Z) (now : Z)
    : task :=
  {| t_task_id := id; t_url := url; t_quality := quality;
     t_status := Queued; t_created_at := now; t_progress := 0;
     t_platform := None; t_file_path := None; t_video_info := None;
     t_completed_at := None; t_error := None |}.

Definition sample_url : string := "https://youtube.com/x".

(** Two requests are served back to back, and only then does the event
    loop get to the two coroutines it was handed. *)
Definition two_submits_then_starts : list event :=
  [Submit sample_url 720 0; Submit sample_url 720 1;
   Start 0 None; Start 1 None].


Definition finished_task (id : task_id) (completed_at : Z) : task :=
  set_completed_at completed_at
    (set_progress 100
      (set_status Completed
        (set_video_info
           {| vi_title := "Видео"; vi_duration := "1:00";
              vi_quality := "720p"; vi_size := "1.0 КБ" |}
           (new_task id sample_url 720 0)))).

(** Two finished tasks, both past the retention window at time
    [3 * 3600 * 1000000], both with a directory. *)
Definition two_expired_state : state :=
  {| tasks := [(0, finished_task 0 0); (1, finished_task 1 0)];
     queue := []; processing_task_id := None;
     created_tasks := []; awaiting_executor := [];
     download_dir := [0; 1]; uuid_supply := 2 |}.

Definition three_hours : Z := (3 * 3600 * 1000000)%Z.

(* ================================================================== *)
(** * The remaining handlers and get_ydl_opts *)
(* ================================================================== *)

(** The body of GET /api/queue. *)
Record queue_status := {
  qs_queue_size : nat;
  qs_max_queue_size : nat;
  qs_processing_task : option task_id;
  qs_total_tasks : nat;
  qs_queue : list task_id
}.

Definition get_queue_status : M queue_status :=
  fun s =>
    (Returns {| qs_queue_size := List.length (queue s);
                qs_max_queue_size := MAX_QUEUE_SIZE;
                qs_processing_task := processing_task_id s;
                qs_total_tasks := List.length (tasks s);
                qs_queue := queue s |}, s).

(** The status strings as the task dict stores them. *)
Definition status_name (st : status) : string :=
  match st with
  | Queued => "queued"
  | Processing => "processing"
  | Completed => "completed"
  | Error => "error"
  end.

Definition is_slash (c : ascii) : bool := Ascii.eqb c "/"%char.

(** [os.path.basename(path)] on a POSIX path: what follows the last
    slash, the whole path when there is none. *)
Fixpoint basename (path : string) : string :=
  match path with
  | EmptyString => EmptyString
  | String c rest =>
      if contains "/" rest then basename rest
      else if is_slash c then rest else path
  end.

(** The [FileResponse] of GET /api/download/{task_id}. *)
Record file_response := {
  fr_path : string;
  fr_filename : string;
  fr_media_type : string
}.

(** [main.py]: GET /api/download/{task_id}; [path_exists] is
    [os.path.exists] at the time of the call. *)
Definition download_file (task_id : task_id) (path_exists : string -> bool)
    : M file_response :=
  fun s =>
    match PyDict.get task_id (tasks s) with
    | None => (Raises (HTTPException 404 "Задача не найдена"), s)
    | Some task =>
        if negb (status_eqb (t_status task) Completed)
        then (Raises (HTTPException 400
                        ("Видео еще не готово. Статус: "
                           ++ status_name (t_status task))), s)
        else
          match t_file_path task with
          | Some file_path =>
              if String.eqb file_path "" || negb (path_exists file_path)
              then (Raises (HTTPException 404 "Файл не найден"), s)
              else (Returns {| fr_path := file_path;
                               fr_filename := basename file_path;
                               fr_media_type := "application/octet-stream" |},
                    s)
          | None => (Raises (HTTPException 404 "Файл не найден"), s)
          end
    end.

(** The values of the option dict that [get_ydl_opts] builds. *)
#[warnings="-register-all"] Inductive pyval :=
| PStr (s : string)
| PInt (z : Z)
| PBool (b : bool)
| PNone
| PList (l : list pyval)
| PDict (d : list (string * pyval)).

(** [d.get(k)] on a dict with string keys. *)
Fixpoint opt_get (k : string) (d : list (string * pyval)) : option pyval :=
  match d with
  | [] => None
  | (k', v) :: d' => if String.eqb k' k then Some v else opt_get k d'
  end.

(** [d[k] = v] *)
Fixpoint opt_set (k : string) (v : pyval) (d : list (string * pyval))
    : list (string * pyval) :=
  match d with
  | [] => [(k, v)]
  | (k', v') :: d' =>
      if String.eqb k' k then (k, v) :: d' else (k', v') :: opt_set k v d'
  end.

(** [d.update(other)] *)
Definition opt_update (d other : list (string * pyval))
    : list (string * pyval) :=
  fold_left (fun acc kv => opt_set (fst kv) (snd kv) acc) other d.

Definition chrome_user_agent : string :=
  "Mozilla/5.0 (Windows NT 10.0; Win64; x64) AppleWebKit/537.36 (KHTML, like Gecko) Chrome/120.0.0.0 Safari/537.36".

Definition short_user_agent : string :=
  "Mozilla/5.0 (Windows NT 10.0; Win64; x64) AppleWebKit/537.36".

(** The format selector for a height limit. *)
Definition format_selector (actual_quality : Z) : string :=
  "bestvideo[height<=" ++ str actual_quality ++ "]+bestaudio/best[height<="
    ++ str actual_quality ++ "]/best".

(** [main.py]: get_ydl_opts; [platform] is the string that
    [detect_platform] returned. *)
Definition get_ydl_opts (quality : Z) (output_path : string)
    (p : platform) : list (string * pyval) :=
  let actual_quality := Z.min quality MAX_QUALITY in
  let base_opts :=
    [("format", PStr (format_selector actual_quality));
     ("outtmpl", PStr output_path);
     ("quiet", PBool false);
     ("no_warnings", PBool false);
     ("extract_flat", PBool false);
     ("nocheckcertificate", PBool true)] in
  match p with
  | youtube =>
      opt_update base_opts
        [("cookiefile", PNone);
         ("user_agent", PStr chrome_user_agent);
         ("referer", PStr "https://www.youtube.com/");
         ("extractor_args",
          PDict [("youtube",
                  PDict [("player_client", PList [PStr "android"; PStr "web"]);
                         ("player_skip",
                          PList [PStr "webpage"; PStr "configs"])])]);
         ("sleep_interval", PInt 1);
         ("max_sleep_interval", PInt 3);
         ("sleep_interval_requests", PInt 1);
         ("age_limit", PNone)]
  | vk =>
      opt_update base_opts
        [("user_agent", PStr short_user_agent);
         ("http_headers",
          PDict [("Accept",
                  PStr "text/html,application/xhtml+xml,application/xml;q=0.9,*/*;q=0.8");
                 ("Accept-Language", PStr "ru-RU,ru;q=0.9,en;q=0.8")])]
  | instagram =>
      opt_update base_opts
        [("user_agent", PStr short_user_agent);
         ("http_headers",
          PDict [("Accept", PStr "*/*");
                 ("Accept-Language", PStr "en-US,en;q=0.9")])]
  | unknown => base_opts
  end.

(* ================================================================== *)
(** * Further invariants of the reachable states *)
(* ================================================================== *)

(** What a status poll can see of a task, by status. *)
Definition record_shape (id : task_id) (t : task) : Prop :=
  t_task_id t = id /\
  match t_status t with
  | Queued =>
      t_progress t = 0%Z /\ t_platform t = None /\ t_file_path t = None /\
      t_video_info t = None /\ t_error t = None
  | Processing =>
      t_progress t = 30%Z /\
      t_platform t = Some (detect_platform (t_url t)) /\
      detect_platform (t_url t) <> unknown /\
      t_file_path t = None /\ t_video_info t = None /\ t_error t = None
  | Completed =>
      t_progress t = 100%Z /\
      t_platform t = Some (detect_platform (t_url t)) /\
      detect_platform (t_url t) <> unknown /\
      t_error t = None /\
      exists v, t_video_info t = Some v /\
        ((t_file_path t = None /\ vi_size v = "Уточняется") \/
         (exists path size, t_file_path t = Some path /\
                            vi_size v = format_size size))
  | Error =>
      (t_progress t = 10%Z \/ t_progress t = 20%Z \/ t_progress t = 30%Z) /\
      t_file_path t = None /\ t_video_info t = None /\
      exists message, t_error t = Some message
  end.

(** The store and the directories. *)
Record store_ok (s : state) : Prop := {
  so_records : forall id t,
    PyDict.get id (tasks s) = Some t -> record_shape id t;
  so_dirs : forall d, In d (download_dir s) ->
    d < uuid_supply s /\
    exists t, PyDict.get d (tasks s) = Some t /\ t_status t <> Queued
}.

(** The queue, the flag and the coroutines. *)
Record flow_ok (s : state) : Prop := {
  fo_bound : List.length (queue s) <= MAX_QUEUE_SIZE;
  fo_order :
    StronglySorted lt (map co_task_id (created_tasks s) ++ queue s);
  fo_flag : forall id, processing_task_id s = Some id ->
    In id (map co_task_id (awaiting_executor s));
  fo_live : queue s <> [] ->
    created_tasks s <> [] \/ awaiting_executor s <> []
}.

(** How far a task has come: queued, processing, or finished either
    way. *)
Definition status_rank (st : status) : nat :=
  match st with
  | Queued => 0
  | Processing => 1
  | Completed | Error => 2
  end.

(** [t'] is a later record of the task that [t] is a record of. *)
Definition evolves (t t' : task) : Prop :=
  t_task_id t' = t_task_id t /\ t_url t' = t_url t /\
  t_quality t' = t_quality t /\ t_created_at t' = t_created_at t /\
  status_rank (t_status t) <= status_rank (t_status t') /\
  (t_progress t <= t_progress t')%Z /\
  (status_rank (t_status t) = 2 -> t' = t).

(** What one event does to the record stored under one identifier. *)
Definition record_change (s s' : state) (id : task_id) : Prop :=
  PyDict.get id (tasks s') = PyDict.get id (tasks s) \/
  (id = uuid_supply s /\ PyDict.get id (tasks s) = None) \/
  (exists t t', PyDict.get id (tasks s) = Some t /\
                PyDict.get id (tasks s') = Some t' /\ evolves t t') \/
  PyDict.get id (tasks s') = None.

(** Who holds a task that is not finished: a queued task is in the queue
    or has a created coroutine, a processing task has a coroutine in the
    executor. *)
Definition held (s : state) (id : task_id) (t : task) : Prop :=
  match t_status t with
  | Queued => In id (queue s) \/ In id (map co_task_id (created_tasks s))
  | Processing => In id (map co_task_id (awaiting_executor s))
  | Completed | Error => True
  end.

Definition tracked (s : state) : Prop :=
  forall id t, PyDict.get id (tasks s) = Some t -> held s id t.

(** The same for every task but one. *)
Definition tracked_but (k : task_id) (s : state) : Prop :=
  forall id t, id <> k -> PyDict.get id (tasks s) = Some t -> held s id t.

(** The work that the scheduler still has before it: a queued identifier
    has to be popped, started and finished, a created coroutine to be
    started and finished, a suspended one to be finished. *)
Definition backlog (s : state) : nat :=
  3 * List.length (queue s) + 2 * List.length (created_tasks s)
  + List.length (awaiting_executor s).

(** Nothing is queued, created, suspended or marked as processed, and
    every task of the store is completed or failed. *)
Definition idle (s : state) : Prop :=
  queue s = [] /\ created_tasks s = [] /\ awaiting_executor s = [] /\
  processing_task_id s = None /\
  forall id t, PyDict.get id (tasks s) = Some t ->
               t_status t = Completed \/ t_status t = Error.

(** The event loop with no request coming in: it runs the first step of
    the oldest created coroutine, if there is one, and otherwise resumes
    the oldest suspended coroutine; [mkdir_failure], [result] and [now]
    say how the file system, the fetch and the clock answer for a
    task. *)
Definition loop_event (mkdir_failure : task_id -> option string)
    (result : task_id -> fetch_result) (now : task_id -> Z) (s : state)
    : option event :=
  match created_tasks s with
  | c :: _ => Some (Start (co_task_id c) (mkdir_failure (co_task_id c)))
  | [] =>
      match awaiting_executor s with
      | c :: _ =>
          Some (Finish (co_task_id c) (result (co_task_id c))
                  (now (co_task_id c)))
      | [] => None
      end
  end.

Fixpoint drain (fuel : nat) (mkdir_failure : task_id -> option string)
    (result : task_id -> fetch_result) (now : task_id -> Z) (s : state)
    : state :=
  match fuel with
  | 0 => s
  | S fuel' =>
      match loop_event mkdir_failure result now s with
      | Some e => drain fuel' mkdir_failure result now (step e s)
      | None => s
      end
  end.


(* ================================================================== *)
(** * Facts about dictionaries *)
(* ================================================================== *)

Section DictFacts.
Context {V : Type}.
Implicit Types (d : PyDict.dict V) (k : task_id) (v : V).

Lemma get_set k k' v d :
  PyDict.get k' (PyDict.set k v d) =
  if Nat.eqb k k' then Some v else PyDict.get k' d.
Proof.
  induction d as [|[a b] d IH]; simpl.
  - destruct (Nat.eqb_spec k k'); reflexivity.
  - destruct (Nat.eqb_spec a k) as [->|Hak]; simpl.
    + destruct (Nat.eqb_spec k k'); reflexivity.
    + rewrite IH. destruct (Nat.eqb_spec a k') as [->|Hak'].
      * destruct (Nat.eqb_spec k k'); [congruence | reflexivity].
      * reflexivity.
Qed.

Lemma get_update k k' (f : V -> V) d :
  PyDict.get k' (PyDict.update k f d) =
  if Nat.eqb k k' then option_map f (PyDict.get k' d) else PyDict.get k' d.
Proof.
  induction d as [|[a b] d IH]; simpl.
  - destruct (Nat.eqb k k'); reflexivity.
  - destruct (Nat.eqb_spec a k) as [->|Hak]; simpl.
    + destruct (Nat.eqb_spec k k'); [reflexivity | exact IH].
    + destruct (Nat.eqb_spec a k') as [->|Hak'].
      * destruct (Nat.eqb_spec k k'); [congruence | reflexivity].
      * exact IH.
Qed.

Lemma get_del k k' d :
  PyDict.get k' (PyDict.del k d) =
  if Nat.eqb k k' then None else PyDict.get k' d.
Proof.
  induction d as [|[a b] d IH]; simpl.
  - destruct (Nat.eqb k k'); reflexivity.
  - destruct (Nat.eqb_spec a k) as [->|Hak]; simpl.
    + rewrite IH. destruct (Nat.eqb_spec k k'); reflexivity.
    + rewrite IH. destruct (Nat.eqb_spec a k') as [->|Hak'].
      * destruct (Nat.eqb_spec k k'); [congruence | reflexivity].
      * reflexivity.
Qed.

Lemma keys_update k (f : V -> V) d :
  PyDict.keys (PyDict.update k f d) = PyDict.keys d.
Proof.
  unfold PyDict.keys, PyDict.update. rewrite map_map.
  apply map_ext. intros [a b]; simpl. destruct (Nat.eqb a k); reflexivity.
Qed.

Lemma update_update k (f g : V -> V) d :
  PyDict.update k g (PyDict.update k f d) =
  PyDict.update k (fun v => g (f v)) d.
Proof.
  unfold PyDict.update. rewrite map_map. apply map_ext.
  intros [a b]; simpl. destruct (Nat.eqb a k) eqn:E; simpl; rewrite E; reflexivity.
Qed.

Lemma get_In k v d : PyDict.get k d = Some v -> In (k, v) d.
Proof.
  induction d as [|[a b] d IH]; simpl; [discriminate|].
  destruct (Nat.eqb_spec a k) as [->|Hak]; intros H.
  - left. congruence.
  - right. auto.
Qed.

Lemma get_None_keys k d : PyDict.get k d = None <-> ~ In k (PyDict.keys d).
Proof.
  induction d as [|[a b] d IH]; simpl; [tauto|].
  destruct (Nat.eqb_spec a k) as [->|Hak].
  - split; [discriminate | tauto].
  - rewrite IH. tauto.
Qed.

Lemma In_get k v d :
  NoDup (PyDict.keys d) -> In (k, v) d -> PyDict.get k d = Some v.
Proof.
  induction d as [|[a b] d IH]; simpl; [tauto|].
  intros Hnd [Heq|Hin]; inversion Hnd as [|? ? Hna Hnd']; subst.
  - inversion Heq; subst. rewrite Nat.eqb_refl. reflexivity.
  - destruct (Nat.eqb_spec a k) as [->|Hak]; [|auto].
    exfalso. apply Hna. change (In (fst (k, v)) (map fst d)). apply in_map, Hin.
Qed.

Lemma keys_set_In k k' v d :
  In k' (PyDict.keys (PyDict.set k v d)) <-> k' = k \/ In k' (PyDict.keys d).
Proof.
  induction d as [|[a b] d IH]; simpl.
  - intuition.
  - destruct (Nat.eqb_spec a k) as [->|Hak]; simpl.
    + intuition.
    + rewrite IH. intuition.
Qed.

Lemma NoDup_keys_set k v d :
  NoDup (PyDict.keys d) -> NoDup (PyDict.keys (PyDict.set k v d)).
Proof.
  induction d as [|[a b] d IH]; simpl; intros Hnd.
  - constructor; [simpl; tauto | constructor].
  - inversion Hnd as [|? ? Hna Hnd']; subst.
    destruct (Nat.eqb_spec a k) as [->|Hak]; simpl.
    + constructor; assumption.
    + constructor; [|auto].
      change (~ In a (PyDict.keys (PyDict.set k v d))).
      rewrite keys_set_In. intros [->|H]; [congruence | exact (Hna H)].
Qed.

Lemma NoDup_keys_del k d :
  NoDup (PyDict.keys d) -> NoDup (PyDict.keys (PyDict.del k d)).
Proof.
  induction d as [|[a b] d IH]; simpl; intros Hnd; [constructor|].
  inversion Hnd as [|? ? Hna Hnd']; subst.
  destruct (Nat.eqb a k); simpl; [auto|].
  constructor; [|auto].
  intros Hin. apply Hna.
  unfold PyDict.keys, PyDict.del in Hin. apply in_map_iff in Hin.
  destruct Hin as [[a' b'] [Hfst Hin]]. apply filter_In in Hin.
  simpl in Hfst; subst. change (In (fst (a, b')) (map fst d)).
  apply in_map, Hin.
Qed.
End DictFacts.

(* ================================================================== *)
(** * Facts about strings *)
(* ================================================================== *)

Lemma prefix_app (a b : string) :
  prefix a b = true <-> exists c, b = (a ++ c)%string.
Proof.
  revert b. induction a as [|x a IH]; intros b; simpl.
  - destruct b; split; eauto.
  - destruct b as [|y b].
    + split; [discriminate | intros [c Hc]; discriminate].
    + simpl. destruct (ascii_dec x y) as [->|Hxy].
      * specialize (IH b). split.
        -- intros H. apply IH in H. destruct H as [c Hc]. exists c. congruence.
        -- intros [c Hc]. apply IH. exists c. congruence.
      * split; [discriminate | intros [c Hc]; congruence].
Qed.

Lemma contains_app (needle hay : string) :
  contains needle hay = true <->
  exists before after, hay = (before ++ needle ++ after)%string.
Proof.
  induction hay as [|y hay IH]; cbn [contains].
  - rewrite orb_false_r, prefix_app. split.
    + intros [c Hc]. exists EmptyString, c. exact Hc.
    + intros [[|x before] [after H]]; [eauto | discriminate].
  - rewrite orb_true_iff, prefix_app, IH. split.
    + intros [[c Hc]|[before [after H]]].
      * exists EmptyString, c. exact Hc.
      * exists (String y before), after. simpl. congruence.
    + intros [[|x before] [after H]].
      * left. eauto.
      * right. simpl in H. inversion H; subst. eauto.
Qed.




(* ================================================================== *)
(** * The steps of download_video in closed form *)
(* ================================================================== *)

Lemma get_update_same {V} (k : task_id) (f : V -> V) (d : PyDict.dict V) v :
  PyDict.get k d = Some v -> PyDict.get k (PyDict.update k f d) = Some (f v).
Proof. intros H. rewrite get_update, Nat.eqb_refl, H. reflexivity. Qed.

Lemma get_update_other {V} (k k' : task_id) (f : V -> V) (d : PyDict.dict V) :
  k <> k' -> PyDict.get k' (PyDict.update k f d) = PyDict.get k' d.
Proof.
  intros H. rewrite get_update. destruct (Nat.eqb_spec k k'); [contradiction | reflexivity].
Qed.

#[global] Arguments PyDict.update : simpl never.
#[global] Arguments PyDict.get : simpl never.
#[global] Arguments PyDict.set : simpl never.
#[global] Arguments PyDict.del : simpl never.
#[global] Arguments mem : simpl never.
#[global] Arguments PyDict.keys : simpl never.

Lemma exec_try_finally {A} (body : M A) (final : M unit) s :
  exec (try_finally body final) s = exec final (exec body s).
Proof.
  unfold exec, try_finally. destruct (body s) as [r s1]. cbn.
  destruct (final s1) as [[u|e] s2]; reflexivity.
Qed.

Lemma task_setitem_present id (f : task -> task) s t :
  PyDict.get id (tasks s) = Some t ->
  task_setitem id f s =
  (Returns tt, with_tasks (PyDict.update id f (tasks s)) s).
Proof. intros H. unfold task_setitem. rewrite H. reflexivity. Qed.

Lemma task_setitem_gone id (f : task -> task) s :
  PyDict.get id (tasks s) = None ->
  task_setitem id f s = (Raises (KeyError id), s).
Proof. intros H. unfold task_setitem. rewrite H. reflexivity. Qed.

Ltac setitem H :=
  erewrite task_setitem_present
    by (cbn; first [exact H | apply get_update_same; exact H]);
  cbn; rewrite ?update_update.

Section Steps.
#[local] Arguments process_next_in_queue : simpl never.
Variable c : coroutine.
Let id := co_task_id c.

Lemma except_gone e s :
  PyDict.get id (tasks s) = None ->
  download_video_except id e s = (Raises (KeyError id), s).
Proof.
  intros H. unfold download_video_except, bind.
  rewrite (task_setitem_gone _ _ _ H). reflexivity.
Qed.

Lemma except_present e s t :
  PyDict.get id (tasks s) = Some t ->
  download_video_except id e s =
  (Returns tt,
   with_tasks (PyDict.update id (mark_failed (str_exn e)) (tasks s)) s).
Proof.
  intros H. unfold download_video_except, bind.
  setitem H. setitem H. reflexivity.
Qed.

Lemma before_await_gone mkdir_failure s :
  PyDict.get id (tasks s) = None ->
  download_video_before_await c mkdir_failure s = (Raises (KeyError id), s).
Proof.
  intros H. unfold download_video_before_await, bind.
  fold id. rewrite (task_setitem_gone _ _ _ H). reflexivity.
Qed.

Lemma before_await_present mkdir_failure s t :
  PyDict.get id (tasks s) = Some t ->
  download_video_before_await c mkdir_failure s =
  let p := detect_platform (co_url c) in
  if platform_eqb p unknown then
    (Raises (Exception unsupported_platform),
     with_processing_task_id (Some id)
       (with_tasks (PyDict.update id mark_started (tasks s)) s))
  else
    match mkdir_failure with
    | Some message =>
        (Raises (Exception message),
         with_processing_task_id (Some id)
           (with_tasks (PyDict.update id (mark_resolved p) (tasks s)) s))
    | None =>
        (Returns tt,
         with_download_dir
           (if mem id (download_dir s) then download_dir s
            else download_dir s ++ [id])
           (with_processing_task_id (Some id)
              (with_tasks (PyDict.update id (mark_parked p) (tasks s)) s)))
    end.
Proof.
  intros H. unfold download_video_before_await, bind. fold id.
  setitem H. setitem H.
  destruct (platform_eqb (detect_platform (co_url c)) unknown); cbn.
  - reflexivity.
  - setitem H. setitem H.
    destruct mkdir_failure as [message|]; cbn.
    + reflexivity.
    + destruct (mem id (download_dir s)); cbn.
      * setitem H. reflexivity.
      * setitem H; reflexivity.
Qed.

Lemma after_await_gone result now s :
  PyDict.get id (tasks s) = None ->
  exists e, download_video_after_await c result now s = (Raises e, s).
Proof.
  intros H. unfold download_video_after_await, bind. fold id.
  destruct result as [i files|message].
  - rewrite (task_setitem_gone _ _ _ H). eexists. reflexivity.
  - eexists. reflexivity.
Qed.

Lemma after_await_failed message now s :
  download_video_after_await c (FetchFailed message) now s =
  (Raises (Exception message), s).
Proof. reflexivity. Qed.

Lemma after_await_fetched i files now s t :
  PyDict.get id (tasks s) = Some t ->
  download_video_after_await c (Fetched i files) now s =
  let v :=
    {| vi_title := match info_title i with Some x => x | None => "Видео" end;
       vi_duration :=
         format_duration
           (match info_duration i with Some d => d | None => 0%Z end);
       vi_quality := (str (Z.min (co_quality c) MAX_QUALITY) ++ "p")%string;
       vi_size := match files with
                  | (_, file_size) :: _ => format_size file_size
                  | [] => "Уточняется"
                  end |} in
  (Returns tt,
   with_tasks
     (PyDict.update id
        (mark_completed v
           (match files with (f, _) :: _ => Some f | [] => None end) now)
        (tasks s)) s).
Proof.
  intros H. unfold download_video_after_await, bind. fold id.
  setitem H.
  destruct files as [|[f sz] files]; cbn.
  - setitem H. setitem H. setitem H. setitem H. reflexivity.
  - setitem H. setitem H. setitem H. setitem H. setitem H. reflexivity.
Qed.
End Steps.

(* ================================================================== *)
(** * process_next_in_queue *)
(* ================================================================== *)

Lemma status_eqb_eq a b : status_eqb a b = true <-> a = b.
Proof. destruct a, b; simpl; split; congruence. Qed.


Lemma next_busy s x :
  processing_task_id s = Some x -> process_next_in_queue s = (Returns tt, s).
Proof. intros H. unfold process_next_in_queue. rewrite H. reflexivity. Qed.

Lemma next_empty s :
  queue s = [] -> process_next_in_queue s = (Returns tt, s).
Proof.
  intros H. unfold process_next_in_queue. rewrite H.
  destruct (processing_task_id s); reflexivity.
Qed.

Lemma next_starts s head rest t :
  processing_task_id s = None -> queue s = head :: rest ->
  PyDict.get head (tasks s) = Some t -> t_status t = Queued ->
  process_next_in_queue s =
  (Returns tt,
   with_created_tasks
     (created_tasks s ++
        [{| co_task_id := head; co_url := t_url t; co_quality := t_quality t |}])
     (with_queue rest s)).
Proof.
  intros Hp Hq Hg Hs. unfold process_next_in_queue. rewrite Hp, Hq. cbn.
  rewrite Hg, Hs. reflexivity.
Qed.

Lemma next_drops s head rest :
  processing_task_id s = None -> queue s = head :: rest ->
  (forall t, PyDict.get head (tasks s) = Some t -> t_status t <> Queued) ->
  process_next_in_queue s = (Returns tt, with_queue rest s).
Proof.
  intros Hp Hq Hg. unfold process_next_in_queue. rewrite Hp, Hq. cbn.
  destruct (PyDict.get head (tasks s)) as [t|] eqn:E; [|reflexivity].
  destruct (status_eqb (t_status t) Queued) eqn:Es; [|reflexivity].
  apply status_eqb_eq in Es. exfalso. exact (Hg t eq_refl Es).
Qed.

(** What [process_next_in_queue] never touches. *)
Lemma next_frame s :
  let s' := exec process_next_in_queue s in
  tasks s' = tasks s /\ processing_task_id s' = processing_task_id s /\
  awaiting_executor s' = awaiting_executor s /\
  download_dir s' = download_dir s /\ uuid_supply s' = uuid_supply s.
Proof.
  unfold exec, process_next_in_queue.
  destruct (processing_task_id s) eqn:Hp; [cbn; auto|].
  destruct (queue s) as [|head rest]; [cbn; auto|]. cbn.
  destruct (PyDict.get head (tasks s)) as [t|]; [|cbn; auto].
  destruct (status_eqb (t_status t) Queued); cbn; auto.
Qed.

Lemma finally_frame s :
  let s' := exec download_video_finally s in
  tasks s' = tasks s /\ awaiting_executor s' = awaiting_executor s /\
  download_dir s' = download_dir s /\ uuid_supply s' = uuid_supply s.
Proof.
  unfold download_video_finally, exec, bind, modify. cbn.
  destruct (next_frame (with_processing_task_id None s)) as (H1 & _ & H3 & H4 & H5).
  unfold exec in *. cbn in *. auto.
Qed.

(* ================================================================== *)
(** * C3 *)
(* ================================================================== *)




(* ================================================================== *)
(** * Lists of identifiers *)
(* ================================================================== *)

Lemma mem_In x l : mem x l = true <-> In x l.
Proof.
  unfold mem. rewrite existsb_exists. split.
  - intros [y [Hy He]]. apply Nat.eqb_eq in He. subst. exact Hy.
  - intros H. exists x. split; [exact H | apply Nat.eqb_refl].
Qed.

Lemma mem_not_In x l : mem x l = false <-> ~ In x l.
Proof.
  rewrite <- mem_In. destruct (mem x l); split; congruence.
Qed.

Lemma remove_first_absent x l : ~ In x l -> remove_first x l = l.
Proof.
  induction l as [|y l IH]; simpl; [reflexivity|]. intros H.
  destruct (Nat.eqb_spec y x) as [->|Hyx]; [tauto|].
  rewrite IH; tauto.
Qed.

Lemma remove_first_In x y l : In y (remove_first x l) -> In y l.
Proof.
  induction l as [|z l IH]; simpl; [tauto|].
  destruct (Nat.eqb_spec z x) as [->|Hzx]; simpl; tauto.
Qed.

Lemma remove_first_In_other x y l :
  y <> x -> In y l -> In y (remove_first x l).
Proof.
  intros Hyx. induction l as [|z l IH]; simpl; [tauto|].
  destruct (Nat.eqb_spec z x) as [->|Hzx]; simpl; intuition congruence.
Qed.

Lemma remove_first_NoDup x l :
  NoDup l -> NoDup (remove_first x l) /\ ~ In x (remove_first x l).
Proof.
  induction l as [|y l IH]; simpl; intros Hnd.
  - split; [constructor | tauto].
  - inversion Hnd as [|? ? Hny Hnd']; subst.
    destruct (Nat.eqb_spec y x) as [->|Hyx].
    + split; assumption.
    + destruct (IH Hnd') as [H1 H2]. split.
      * constructor; [|exact H1]. intros H. apply Hny.
        exact (remove_first_In _ _ _ H).
      * simpl. intros [H|H]; [congruence | tauto].
Qed.


Lemma index_lt_In x l : index x l < List.length l <-> In x l.
Proof.
  induction l as [|y l IH]; simpl; [split; [lia | tauto]|].
  destruct (Nat.eqb_spec y x) as [->|Hyx].
  - split; [auto | lia].
  - split.
    + intros H. right. apply IH. lia.
    + intros [H|H]; [congruence|]. apply IH in H. lia.
Qed.

Lemma index_le_length x l : index x l <= List.length l.
Proof.
  induction l as [|y l IH]; simpl; [lia|].
  destruct (Nat.eqb y x); lia.
Qed.


(* ================================================================== *)
(** * The handlers in closed form *)
(* ================================================================== *)

Lemma enqueue_new_task_eq url quality now s :
  enqueue_new_task url quality now s =
  (Returns (uuid_supply s),
   with_queue (queue s ++ [uuid_supply s])
     (with_tasks
        (PyDict.set (uuid_supply s)
           (new_task (uuid_supply s) url quality now) (tasks s))
        (with_uuid_supply (S (uuid_supply s)) s))).
Proof. reflexivity. Qed.

Lemma cancel_task_gone id raises s :
  PyDict.get id (tasks s) = None ->
  cancel_task id raises s = (Raises (HTTPException 404 "Задача не найдена"), s).
Proof.
  intros H. unfold cancel_task, bind, gets. rewrite H. reflexivity.
Qed.

Lemma cancel_task_done id raises s t :
  PyDict.get id (tasks s) = Some t ->
  (raises = true -> ~ In id (download_dir s)) ->
  cancel_task id raises s =
  (Returns "Задача отменена",
   with_tasks (PyDict.del id (tasks s))
     (with_download_dir
        (filter (fun d => negb (Nat.eqb d id)) (download_dir s))
        (with_queue (remove_first id (queue s)) s))).
Proof.
  intros H Hr. unfold cancel_task, bind, gets, modify, rmtree_if_exists, ret.
  rewrite H.
  assert (Hq : (if mem id (queue s)
                then with_queue (remove_first id (queue s)) s else s) =
               with_queue (remove_first id (queue s)) s).
  { destruct (mem id (queue s)) eqn:E; [reflexivity|].
    apply mem_not_In in E. rewrite (remove_first_absent _ _ E).
    destruct s; reflexivity. }
  rewrite Hq. cbn.
  destruct (mem id (download_dir s)) eqn:Ed.
  - destruct raises.
    + apply mem_In in Ed. exfalso. exact (Hr eq_refl Ed).
    + reflexivity.
  - cbn. apply mem_not_In in Ed.
    assert (Hf : filter (fun d => negb (Nat.eqb d id)) (download_dir s) =
                 download_dir s).
    { apply forallb_filter_id. apply forallb_forall. intros d Hd.
      destruct (Nat.eqb_spec d id); [subst; contradiction | reflexivity]. }
    rewrite Hf. reflexivity.
Qed.

Section StepCases.
#[local] Arguments process_next_in_queue : simpl never.
#[local] Arguments download_video_finally : simpl never.
Variable c : coroutine.
Local Abbreviation id := (co_task_id c).

Lemma first_step_gone mkdir_failure s :
  PyDict.get id (tasks s) = None ->
  download_video_first_step c mkdir_failure s =
  exec download_video_finally s.
Proof.
  intros H. unfold download_video_first_step.
  rewrite (before_await_gone c _ _ H), exec_try_finally.
  unfold exec at 2. rewrite (except_gone c _ _ H). reflexivity.
Qed.

Lemma first_step_unknown mkdir_failure s t :
  PyDict.get id (tasks s) = Some t ->
  detect_platform (co_url c) = unknown ->
  download_video_first_step c mkdir_failure s =
  exec download_video_finally
    (with_processing_task_id (Some id)
       (with_tasks
          (PyDict.update id
             (fun t => mark_failed unsupported_platform (mark_started t))
             (tasks s)) s)).
Proof.
  intros H Hu. unfold download_video_first_step.
  rewrite (before_await_present c _ _ _ H). cbn zeta. rewrite Hu. cbn [platform_eqb].
  rewrite exec_try_finally. unfold exec at 2.
  erewrite except_present by (cbn; apply get_update_same; exact H).
  cbn. rewrite update_update. reflexivity.
Qed.

Lemma first_step_mkdir_failed message s t :
  PyDict.get id (tasks s) = Some t ->
  detect_platform (co_url c) <> unknown ->
  download_video_first_step c (Some message) s =
  exec download_video_finally
    (with_processing_task_id (Some id)
       (with_tasks
          (PyDict.update id
             (fun t => mark_failed message
                         (mark_resolved (detect_platform (co_url c)) t))
             (tasks s)) s)).
Proof.
  intros H Hu. unfold download_video_first_step.
  rewrite (before_await_present c _ _ _ H). cbn zeta.
  destruct (platform_eqb (detect_platform (co_url c)) unknown) eqn:E.
  { destruct (detect_platform (co_url c)); try discriminate E. congruence. }
  rewrite exec_try_finally. unfold exec at 2.
  erewrite except_present by (cbn; apply get_update_same; exact H).
  cbn. rewrite update_update. reflexivity.
Qed.

Lemma first_step_parked s t :
  PyDict.get id (tasks s) = Some t ->
  detect_platform (co_url c) <> unknown ->
  download_video_first_step c None s =
  with_awaiting_executor (awaiting_executor s ++ [c])
    (with_download_dir
       (if mem id (download_dir s) then download_dir s
        else download_dir s ++ [id])
       (with_processing_task_id (Some id)
          (with_tasks
             (PyDict.update id (mark_parked (detect_platform (co_url c)))
                (tasks s)) s))).
Proof.
  intros H Hu. unfold download_video_first_step.
  rewrite (before_await_present c _ _ _ H). cbn zeta.
  destruct (platform_eqb (detect_platform (co_url c)) unknown) eqn:E.
  { destruct (detect_platform (co_url c)); try discriminate E. congruence. }
  reflexivity.
Qed.

Lemma resume_gone result now s :
  PyDict.get id (tasks s) = None ->
  download_video_resume c result now s = exec download_video_finally s.
Proof.
  intros H. unfold download_video_resume. rewrite exec_try_finally.
  f_equal. unfold exec, try_except.
  destruct (after_await_gone c result now s H) as [e He]. rewrite He.
  rewrite (except_gone c _ _ H). reflexivity.
Qed.

Lemma resume_failed message now s t :
  PyDict.get id (tasks s) = Some t ->
  download_video_resume c (FetchFailed message) now s =
  exec download_video_finally
    (with_tasks (PyDict.update id (mark_failed message) (tasks s)) s).
Proof.
  intros H. unfold download_video_resume. rewrite exec_try_finally.
  f_equal. unfold exec, try_except. rewrite after_await_failed.
  rewrite (except_present c _ _ _ H). reflexivity.
Qed.

Lemma resume_fetched i files now s t :
  PyDict.get id (tasks s) = Some t ->
  download_video_resume c (Fetched i files) now s =
  exec download_video_finally
    (with_tasks
       (PyDict.update id
          (mark_completed
             {| vi_title :=
                  match info_title i with Some x => x | None => "Видео" end;
                vi_duration :=
                  format_duration
                    (match info_duration i with
                     | Some d => d | None => 0%Z end);
                vi_quality :=
                  (str (Z.min (co_quality c) MAX_QUALITY) ++ "p")%string;
                vi_size := match files with
                           | (_, file_size) :: _ => format_size file_size
                           | [] => "Уточняется"
                           end |}
             (match files with (f, _) :: _ => Some f | [] => None end) now)
          (tasks s)) s).
Proof.
  intros H. unfold download_video_resume. rewrite exec_try_finally.
  f_equal. unfold exec, try_except.
  rewrite (after_await_fetched c _ _ _ _ _ H). reflexivity.
Qed.
End StepCases.

(* ================================================================== *)
(** * C9 *)
(* ================================================================== *)





(* ================================================================== *)
(** * C10 *)
(* ================================================================== *)



(* ================================================================== *)
(** * C8 *)
(* ================================================================== *)

Lemma queue_position_queued s id t :
  PyDict.get id (tasks s) = Some t -> t_status t = Queued ->
  In id (queue s) ->
  queue_position id s = Some (index id (queue s) + 1).
Proof.
  intros Hg Hs Hin. unfold queue_position, get_task_status.
  rewrite Hg. cbn. rewrite Hs. cbn.
  apply mem_In in Hin. rewrite Hin. reflexivity.
Qed.

(** C8, counterexample.  Task 1 waits in the queue while task 0 is being
    fetched, and the status handler reports position 1 for it.  When the
    fetch of task 0 ends, [process_next_in_queue] pops task 1 and hands
    its coroutine to the event loop.  Until that coroutine runs its first
    statement the task still has status 'queued', its identifier is not in
    the queue any more, and the status handler reports no
    [queue_position]. *)
Lemma queued_task_without_position :
  let before := run [Submit sample_url 720 0; Start 0 None;
                     Submit sample_url 720 1] initial_state in
  let s := run [Submit sample_url 720 0; Start 0 None;
                Submit sample_url 720 1;
                Finish 0 (FetchFailed "network") 5] initial_state in
  reachable s /\
  queue_position 1 before = Some 1 /\
  (exists t, PyDict.get 1 (tasks s) = Some t /\ t_status t = Queued) /\
  queue s = [] /\
  queue_position 1 s = None.
Proof.
  cbv zeta.
  split; [eexists; reflexivity|].
  split; [vm_compute; reflexivity|].
  split; [vm_compute; eexists; split; reflexivity|].
  split; vm_compute; reflexivity.
Qed.



(* ================================================================== *)
(** * The formatters *)
(* ================================================================== *)




#[local] Instance round_half_even_comp : Proper (Qeq ==> eq) round_half_even.
Proof.
  intros x y H. unfold round_half_even.
  rewrite (Qfloor_comp x y H).
  assert (E : (x - inject_Z (Qfloor y) == y - inject_Z (Qfloor y))%Q)
    by (rewrite H; reflexivity).
  rewrite E. reflexivity.
Qed.

#[local] Instance format_1f_comp : Proper (Qeq ==> eq) format_1f.
Proof.
  intros x y H. unfold format_1f.
  assert (E : (x * inject_Z 10 == y * inject_Z 10)%Q) by (rewrite H; reflexivity).
  rewrite E. reflexivity.
Qed.








(* ================================================================== *)
(** * The cleanup *)
(* ================================================================== *)

Lemma same_but_dirs_refl s : same_but_dirs s s.
Proof. unfold same_but_dirs. auto 10. Qed.

Lemma same_but_dirs_trans s1 s2 s3 :
  same_but_dirs s1 s2 -> same_but_dirs s2 s3 -> same_but_dirs s1 s3.
Proof.
  unfold same_but_dirs. intros (A1 & A2 & A3 & A4 & A5 & A6) (B1 & B2 & B3 & B4 & B5 & B6).
  repeat split; congruence.
Qed.

Lemma expired_ids_In now items id :
  In id (expired_ids now items) <->
  exists t, In (id, t) items /\ expired now t = true.
Proof.
  unfold expired_ids. rewrite in_map_iff. split.
  - intros [[k t] [Hk Hin]]. apply filter_In in Hin. simpl in *. subst.
    exists t. tauto.
  - intros [t [Hin He]]. exists (id, t). split; [reflexivity|].
    apply filter_In. auto.
Qed.

Lemma rmtree_removes id s :
  let s' := exec (rmtree_if_exists id false) s in
  same_but_dirs s s' /\
  (forall d, In d (download_dir s') <-> In d (download_dir s) /\ d <> id).
Proof.
  unfold exec, rmtree_if_exists.
  destruct (mem id (download_dir s)) eqn:E; cbn.
  - split; [unfold same_but_dirs; cbn; auto 10|].
    intros d. rewrite filter_In.
    destruct (Nat.eqb_spec d id); cbn; intuition congruence.
  - split; [apply same_but_dirs_refl|].
    apply mem_not_In in E. intros d. split; [|tauto].
    intros H. split; [exact H | congruence].
Qed.

Lemma rmtree_outcome id raises s :
  rmtree_if_exists id raises s =
  if mem id (download_dir s) && raises
  then (Raises (Exception "rmtree"), s)
  else (Returns tt, exec (rmtree_if_exists id false) s).
Proof.
  unfold exec, rmtree_if_exists.
  destruct (mem id (download_dir s)), raises; reflexivity.
Qed.

Lemma expired_ids_cons now id t items :
  expired_ids now ((id, t) :: items) =
  if expired now t then id :: expired_ids now items
  else expired_ids now items.
Proof.
  unfold expired_ids. cbn [filter snd]. destruct (expired now t); reflexivity.
Qed.

Lemma cleanup_scan_cons now raises id t items acc :
  cleanup_scan now raises ((id, t) :: items) acc =
  if expired now t
  then rmtree_if_exists id (raises id) ;;
       cleanup_scan now raises items (acc ++ [id])
  else cleanup_scan now raises items acc.
Proof.
  cbn [cleanup_scan]. unfold expired.
  destruct (t_completed_at t) as [completed_at|]; [|reflexivity].
  destruct (Z.ltb (timedelta_hours CLEANUP_AFTER_HOURS) (now - completed_at));
    reflexivity.
Qed.

(** The scan when no removal is refused. *)
Lemma cleanup_scan_completes now raises items :
  forall acc s,
    (forall id t, In (id, t) items -> expired now t = true ->
                  In id (download_dir s) -> raises id = false) ->
    exists s',
      cleanup_scan now raises items acc s =
        (Returns (acc ++ expired_ids now items), s') /\
      same_but_dirs s s' /\
      (forall d, In d (download_dir s') <->
                 In d (download_dir s) /\ ~ In d (expired_ids now items)).
Proof.
  induction items as [|[id t] items IH]; intros acc s Hok.
  - exists s. cbn. rewrite app_nil_r. split; [reflexivity|].
    split; [apply same_but_dirs_refl | tauto].
  - assert (Hok' : forall s1,
              (forall d, In d (download_dir s1) -> In d (download_dir s)) ->
              forall id' t', In (id', t') items -> expired now t' = true ->
                In id' (download_dir s1) -> raises id' = false).
    { intros s1 Hsub id' t' Hin He Hd.
      apply (Hok id' t'); [right; exact Hin | exact He | auto]. }
    rewrite cleanup_scan_cons, expired_ids_cons.
    destruct (expired now t) eqn:Ee.
    2:{ apply IH. apply Hok'. auto. }
    unfold bind. rewrite rmtree_outcome.
    assert (Hr : mem id (download_dir s) && raises id = false).
    { destruct (mem id (download_dir s)) eqn:Em; [|reflexivity].
      apply mem_In in Em. cbn.
      apply (Hok id t); [left; reflexivity | exact Ee | exact Em]. }
    rewrite Hr.
    destruct (rmtree_removes id s) as [Hf Hd].
    set (s1 := exec (rmtree_if_exists id false) s) in *.
    destruct (IH (acc ++ [id]) s1) as (s' & Hs' & Hf' & Hd').
    { apply Hok'. intros d H. apply Hd in H. tauto. }
    exists s'. rewrite <- app_assoc in Hs'. split; [exact Hs'|].
    split; [exact (same_but_dirs_trans _ _ _ Hf Hf')|].
    intros d. rewrite Hd', Hd. cbn [In].
    intuition congruence.
Qed.


Lemma delete_tasks_spec ids :
  forall s,
    fst (delete_tasks ids s) = Returns tt /\
    download_dir (exec (delete_tasks ids) s) = download_dir s /\
    forall k, PyDict.get k (tasks (exec (delete_tasks ids) s)) =
              if mem k ids then None else PyDict.get k (tasks s).
Proof.
  induction ids as [|id ids IH]; intros s.
  - cbn. auto.
  - cbn [delete_tasks]. unfold exec, bind, modify. cbn.
    destruct (IH (with_tasks (PyDict.del id (tasks s)) s)) as (H1 & H2 & H3).
    unfold exec in *. split; [exact H1|]. split; [exact H2|].
    intros k. rewrite H3. cbn. rewrite get_del.
    unfold mem. cbn [existsb]. fold (mem k ids).
    rewrite (Nat.eqb_sym k id).
    destruct (mem k ids), (Nat.eqb id k); reflexivity.
Qed.

Lemma cleanup_cycle_after_scan now raises s ids s1 :
  cleanup_scan now raises (tasks s) [] s = (Returns ids, s1) ->
  exec (cleanup_cycle now raises) s = exec (delete_tasks ids) s1.
Proof.
  intros H. unfold cleanup_cycle, exec, try_except, bind, gets.
  rewrite H.
  destruct (delete_tasks_spec ids s1) as (Hr & _).
  destruct (delete_tasks ids s1) as [[u|e] s2]; [reflexivity|].
  cbn in Hr. discriminate Hr.
Qed.

Lemma cleanup_cycle_after_raise now raises s e s1 :
  cleanup_scan now raises (tasks s) [] s = (Raises e, s1) ->
  exec (cleanup_cycle now raises) s = s1.
Proof.
  intros H. unfold cleanup_cycle, exec, try_except, bind, gets.
  rewrite H. reflexivity.
Qed.

(* ================================================================== *)
(** * C5 *)
(* ================================================================== *)




(* ================================================================== *)
(** * The invariant is kept *)
(* ================================================================== *)

Lemma In_keys_get {V} (k : task_id) (d : PyDict.dict V) :
  In k (PyDict.keys d) <-> exists v, PyDict.get k d = Some v.
Proof.
  destruct (PyDict.get k d) as [v|] eqn:E.
  - split; [eauto|]. intros _.
    change (In (fst (k, v)) (map fst d)). apply in_map, get_In, E.
  - split; [|intros [v Hv]; discriminate].
    intros H. apply get_None_keys in E. contradiction.
Qed.

Lemma record_ok_new id url quality now : record_ok (new_task id url quality now).
Proof.
  unfold record_ok. cbn. split; [split; [congruence | discriminate] | discriminate].
Qed.

Lemma consistent_initial : consistent initial_state.
Proof.
  constructor; cbn; intros; try contradiction; try discriminate;
    try constructor.
Qed.

(** The invariant does not read [processing_task_id] nor the
    directories. *)
Lemma consistent_ext s s' :
  tasks s' = tasks s -> queue s' = queue s ->
  created_tasks s' = created_tasks s ->
  awaiting_executor s' = awaiting_executor s ->
  uuid_supply s' = uuid_supply s ->
  consistent s -> consistent s'.
Proof.
  intros Ht Hq Hc Ha Hu [H1 H2 H3 H4 H5 H6 H7 H8].
  constructor; unfold pending_ids in *; rewrite ?Ht, ?Hq, ?Hc, ?Ha, ?Hu;
    assumption.
Qed.

(** Changing the record of a task that the scheduler is done with. *)
Lemma consistent_update s id (f : task -> task) :
  consistent s -> ~ In id (pending_ids s) ->
  (forall t, PyDict.get id (tasks s) = Some t -> record_ok (f t)) ->
  consistent (with_tasks (PyDict.update id f (tasks s)) s).
Proof.
  intros [H1 H2 H3 H4 H5 H6 H7 H8] Hid Hf.
  assert (Hother : forall k, In k (pending_ids s) ->
            PyDict.get k (PyDict.update id f (tasks s)) = PyDict.get k (tasks s)).
  { intros k Hk. apply get_update_other. intros ->. contradiction. }
  constructor; cbn; unfold pending_ids in *; cbn.
  - rewrite keys_update. exact H1.
  - rewrite keys_update. exact H2.
  - exact H3.
  - exact H4.
  - intros k Hk. rewrite Hother by (apply in_or_app; auto). auto.
  - intros c t Hc. rewrite Hother.
    + apply H6, Hc.
    + apply in_or_app. right. apply in_or_app. left. apply in_map, Hc.
  - intros c t Hc. rewrite Hother.
    + apply H7, Hc.
    + apply in_or_app. right. apply in_or_app. right. apply in_map, Hc.
  - intros k t. rewrite get_update.
    destruct (Nat.eqb_spec id k) as [->|Hne]; [|apply H8].
    destruct (PyDict.get k (tasks s)) as [t0|] eqn:E; cbn; [|discriminate].
    intros Ht. inversion Ht; subst. apply Hf. reflexivity.
Qed.

(** Records disappear, none of them a record of a queued identifier. *)
Lemma consistent_remove_records s (d : PyDict.dict task) :
  consistent s -> NoDup (PyDict.keys d) ->
  (forall k, PyDict.get k d = PyDict.get k (tasks s) \/
             (PyDict.get k d = None /\ ~ In k (queue s))) ->
  consistent (with_tasks d s).
Proof.
  intros [H1 H2 H3 H4 H5 H6 H7 H8] Hnd Hd.
  constructor; cbn; unfold pending_ids in *; cbn; auto.
  - intros k Hk. apply H2. apply In_keys_get in Hk. destruct Hk as [v Hv].
    apply In_keys_get. destruct (Hd k) as [E|[E _]]; [|congruence].
    rewrite <- E. eauto.
  - intros k Hk. destruct (Hd k) as [E|[_ E]]; [|contradiction].
    rewrite E. auto.
  - intros c t Hc Hg. destruct (Hd (co_task_id c)) as [E|[E _]]; [|congruence].
    rewrite E in Hg. eauto.
  - intros c t Hc Hg. destruct (Hd (co_task_id c)) as [E|[E _]]; [|congruence].
    rewrite E in Hg. eauto.
  - intros k t Hg. destruct (Hd k) as [E|[E _]]; [|congruence].
    rewrite E in Hg. eauto.
Qed.

Lemma take_split id l c rest :
  take id l = Some (c, rest) ->
  co_task_id c = id /\
  exists l1 l2, l = l1 ++ c :: l2 /\ rest = l1 ++ l2.
Proof.
  revert c rest. induction l as [|x l IH]; intros c rest H; cbn in H.
  - discriminate.
  - destruct (Nat.eqb_spec (co_task_id x) id) as [E|E].
    + injection H as <- <-. split; [exact E|].
      exists [], l. split; reflexivity.
    + destruct (take id l) as [[c' rest']|]; [|discriminate].
      injection H as <- <-.
      destruct (IH c' rest' eq_refl) as [Hc [l1 [l2 [-> ->]]]].
      split; [exact Hc|]. exists (x :: l1), l2. split; reflexivity.
Qed.

Lemma NoDup_snoc {A} (l : list A) (x : A) :
  NoDup l -> ~ In x l -> NoDup (l ++ [x]).
Proof.
  intros Hl Hx. apply NoDup_app; [exact Hl | repeat constructor; tauto|].
  intros y Hy [<-|[]]. contradiction.
Qed.

Lemma NoDup_middle {A} (a b c : list A) (x : A) :
  NoDup (a ++ (b ++ x :: c)) ->
  NoDup (a ++ (b ++ c)) /\ ~ In x (a ++ (b ++ c)).
Proof.
  rewrite !app_assoc. intros H. split.
  - exact (NoDup_remove_1 _ _ _ H).
  - exact (NoDup_remove_2 _ _ _ H).
Qed.

Lemma NoDup_head_to_middle {A} (h : A) (q c a : list A) :
  NoDup ((h :: q) ++ c ++ a) -> NoDup (q ++ (c ++ [h]) ++ a).
Proof.
  intros H. rewrite <- app_assoc. cbn [app]. rewrite app_assoc.
  apply (Permutation.Permutation_NoDup (l := h :: (q ++ c) ++ a)).
  - apply Permutation.Permutation_middle.
  - rewrite <- app_assoc. exact H.
Qed.

(** A coroutine leaves the list of the created ones. *)
Lemma consistent_take_created s id c rest :
  take id (created_tasks s) = Some (c, rest) -> consistent s ->
  co_task_id c = id /\
  consistent (with_created_tasks rest s) /\
  ~ In id (pending_ids (with_created_tasks rest s)) /\
  id < uuid_supply s /\
  (forall t, PyDict.get id (tasks s) = Some t ->
     t_status t = Queued /\ t_quality t = co_quality c /\ t_url t = co_url c).
Proof.
  intros Htake [H1 H2 H3 H4 H5 H6 H7 H8].
  destruct (take_split _ _ _ _ Htake) as [Hid [l1 [l2 [Hl Hrest]]]].
  unfold pending_ids in *. rewrite Hl in *. subst rest.
  rewrite !map_app in *. cbn [map] in *. subst id.
  assert (Hnd : NoDup (queue s ++
                       ((map co_task_id l1 ++ map co_task_id l2) ++
                        map co_task_id (awaiting_executor s))) /\
                ~ In (co_task_id c) (queue s ++
                         ((map co_task_id l1 ++ map co_task_id l2) ++
                          map co_task_id (awaiting_executor s)))).
  { rewrite <- !app_assoc. rewrite <- !app_assoc in H3. cbn [app] in H3.
    apply NoDup_middle. exact H3. }
  destruct Hnd as [Hnd Hnot].
  assert (Hsub : forall k,
            In k (queue s ++ ((map co_task_id l1 ++ map co_task_id l2) ++
                              map co_task_id (awaiting_executor s))) ->
            In k (queue s ++ ((map co_task_id l1 ++ co_task_id c :: map co_task_id l2) ++
                              map co_task_id (awaiting_executor s)))).
  { intros k. rewrite !in_app_iff. cbn [In]. tauto. }
  split; [reflexivity|]. split; [|split; [|split]].
  - constructor; cbn; unfold pending_ids; cbn; rewrite ?map_app; auto.
    intros c' t Hc'. apply H6. apply in_app_iff in Hc'. apply in_app_iff.
    cbn [In]. tauto.
  - cbn. rewrite map_app. exact Hnot.
  - apply H4. rewrite !in_app_iff. cbn [In]. tauto.
  - intros t Hg.
    apply (H6 c t); [|exact Hg]. apply in_app_iff. cbn [In]. tauto.
Qed.

(** A coroutine leaves the list of the suspended ones. *)
Lemma consistent_take_awaiting s id c rest :
  take id (awaiting_executor s) = Some (c, rest) -> consistent s ->
  co_task_id c = id /\
  consistent (with_awaiting_executor rest s) /\
  ~ In id (pending_ids (with_awaiting_executor rest s)) /\
  (forall t, PyDict.get id (tasks s) = Some t ->
     t_status t = Processing /\ t_quality t = co_quality c).
Proof.
  intros Htake [H1 H2 H3 H4 H5 H6 H7 H8].
  destruct (take_split _ _ _ _ Htake) as [Hid [l1 [l2 [Hl Hrest]]]].
  unfold pending_ids in *. rewrite Hl in *. subst rest.
  rewrite !map_app in *. cbn [map] in *. subst id.
  assert (Hnd : NoDup (queue s ++ map co_task_id (created_tasks s) ++
                       (map co_task_id l1 ++ map co_task_id l2)) /\
                ~ In (co_task_id c) (queue s ++ map co_task_id (created_tasks s) ++
                         (map co_task_id l1 ++ map co_task_id l2))).
  { rewrite !app_assoc. rewrite !app_assoc in H3.
    split; [exact (NoDup_remove_1 _ _ _ H3) | exact (NoDup_remove_2 _ _ _ H3)]. }
  destruct Hnd as [Hnd Hnot].
  assert (Hsub : forall k,
            In k (queue s ++ map co_task_id (created_tasks s) ++
                  (map co_task_id l1 ++ map co_task_id l2)) ->
            In k (queue s ++ map co_task_id (created_tasks s) ++
                  (map co_task_id l1 ++ co_task_id c :: map co_task_id l2))).
  { intros k. rewrite !in_app_iff. cbn [In]. tauto. }
  split; [reflexivity|]. split; [|split].
  - constructor; cbn; unfold pending_ids; cbn; rewrite ?map_app; auto.
    intros c' t Hc'. apply H7. apply in_app_iff in Hc'. apply in_app_iff.
    cbn [In]. tauto.
  - cbn. rewrite map_app. exact Hnot.
  - intros t Hg.
    apply (H7 c t); [|exact Hg]. apply in_app_iff. cbn [In]. tauto.
Qed.

(** A coroutine is parked at the [await]. *)
Lemma consistent_park s c :
  consistent s -> ~ In (co_task_id c) (pending_ids s) ->
  co_task_id c < uuid_supply s ->
  (forall t, PyDict.get (co_task_id c) (tasks s) = Some t ->
     t_status t = Processing /\ t_quality t = co_quality c) ->
  consistent (with_awaiting_executor (awaiting_executor s ++ [c]) s).
Proof.
  intros [H1 H2 H3 H4 H5 H6 H7 H8] Hnot Hlt Hrec.
  unfold pending_ids in *.
  constructor; cbn; unfold pending_ids; cbn; rewrite ?map_app; cbn [map]; auto.
  - rewrite !app_assoc. apply NoDup_snoc.
    + rewrite <- !app_assoc. exact H3.
    + rewrite <- !app_assoc. exact Hnot.
  - intros k. rewrite !in_app_iff. cbn [In]. intros H.
    destruct H as [H|[H|[H|[H|[]]]]].
    + apply H4. rewrite !in_app_iff. tauto.
    + apply H4. rewrite !in_app_iff. tauto.
    + apply H4. rewrite !in_app_iff. tauto.
    + subst. exact Hlt.
  - intros c' t Hc'. apply in_app_iff in Hc'. destruct Hc' as [Hc'|[<-|[]]].
    + apply H7, Hc'.
    + apply Hrec.
Qed.

(** [process_next_in_queue] keeps the invariant. *)
Lemma consistent_next s :
  consistent s -> consistent (exec process_next_in_queue s).
Proof.
  intros Hs. unfold exec, process_next_in_queue.
  destruct (processing_task_id s) eqn:Hp; [exact Hs|].
  destruct (queue s) as [|head rest] eqn:Hq; [exact Hs|]. cbn [tasks with_queue].
  pose proof Hs as [H1 H2 H3 H4 H5 H6 H7 H8].
  unfold pending_ids in *. rewrite Hq in *.
  assert (Hdrop : consistent (with_queue rest s)).
  { constructor; cbn; unfold pending_ids; cbn; auto.
    - inversion H3; assumption.
    - intros k Hk. apply H4. right. exact Hk.
    - intros k Hk. apply H5. right. exact Hk. }
  destruct (PyDict.get head (tasks s)) as [t|] eqn:Hg; [|exact Hdrop].
  destruct (status_eqb (t_status t) Queued) eqn:Es; [|exact Hdrop].
  apply status_eqb_eq in Es. cbn.
  constructor; cbn; unfold pending_ids; cbn; rewrite ?map_app; cbn [map]; auto.
  - apply NoDup_head_to_middle. exact H3.
  - intros k. rewrite !in_app_iff. cbn [In]. intros H. apply H4.
    cbn [app In]. rewrite !in_app_iff.
    destruct H as [H|[[H|[H|[]]]|H]]; tauto.
  - intros k Hk. apply H5. right. exact Hk.
  - intros c t' Hc. apply in_app_iff in Hc. destruct Hc as [Hc|[<-|[]]].
    + apply H6, Hc.
    + cbn. rewrite Hg. intros E. inversion E; subst. auto.
Qed.

Lemma consistent_finally s :
  consistent s -> consistent (exec download_video_finally s).
Proof.
  intros Hs. unfold download_video_finally, exec, bind, modify.
  apply consistent_next.
  apply (consistent_ext s); auto.
Qed.

Lemma next_returns s : fst (process_next_in_queue s) = Returns tt.
Proof.
  unfold process_next_in_queue.
  destruct (processing_task_id s); [reflexivity|].
  destruct (queue s) as [|head rest]; [reflexivity|]. cbn.
  destruct (PyDict.get head (tasks s)) as [t|]; [|reflexivity].
  destruct (status_eqb (t_status t) Queued); reflexivity.
Qed.

Lemma bind_next {B} (k : unit -> M B) s :
  bind process_next_in_queue k s = k tt (exec process_next_in_queue s).
Proof.
  unfold bind, exec. pose proof (next_returns s) as Hr.
  destruct (process_next_in_queue s) as [[[]|e] s2];
    [reflexivity | discriminate Hr].
Qed.

Lemma bind_returns {A B} (m : M A) (k : A -> M B) s a s1 :
  m s = (Returns a, s1) -> bind m k s = k a s1.
Proof. intros H. unfold bind. rewrite H. reflexivity. Qed.

Lemma create_download_task_eq url quality now s :
  create_download_task url quality now s =
  if Nat.leb MAX_QUEUE_SIZE (List.length (queue s))
  then (Raises (HTTPException 429
                  "Очередь заполнена. Пожалуйста, попробуйте позже."), s)
  else
    let s1 := exec (enqueue_new_task url quality now) s in
    (Returns {| dr_task_id := uuid_supply s; dr_status := Queued;
                dr_queue_position := S (List.length (queue s));
                dr_message := "Задача добавлена в очередь" |},
     match processing_task_id s with
     | None => exec process_next_in_queue s1
     | Some _ => s1
     end).
Proof.
  unfold create_download_task.
  rewrite (bind_returns _ _ s (List.length (queue s)) s) by reflexivity.
  destruct (Nat.leb MAX_QUEUE_SIZE (List.length (queue s))); [reflexivity|].
  rewrite (bind_returns _ _ s _ _ (enqueue_new_task_eq url quality now s)).
  match goal with
  | |- bind _ _ ?x = _ =>
      rewrite (bind_returns _ _ x (List.length (queue x)) x) by reflexivity;
      rewrite (bind_returns _ _ x (processing_task_id x) x) by reflexivity
  end.
  cbv zeta. unfold exec at 2 3. rewrite enqueue_new_task_eq. cbn [snd].
  cbn [processing_task_id with_queue with_tasks with_uuid_supply queue].
  rewrite length_app, Nat.add_1_r.
  destruct (processing_task_id s).
  - reflexivity.
  - rewrite bind_next. reflexivity.
Qed.

Lemma record_ok_not_completed t :
  record_ok t -> t_status t <> Completed -> t_completed_at t = None.
Proof.
  intros [H _] Hs. destruct (t_completed_at t) as [z|]; [|reflexivity].
  exfalso. apply Hs, H. discriminate.
Qed.

Lemma record_ok_status t (f : task -> task) :
  t_completed_at t = None ->
  t_completed_at (f t) = t_completed_at t -> t_status (f t) <> Completed ->
  record_ok (f t).
Proof.
  intros Hc Hf Hs. unfold record_ok. rewrite Hf, Hc.
  split; [split; [congruence | intros H; contradiction] | intros H; contradiction].
Qed.

(** A new task is admitted. *)
Lemma consistent_enqueue url quality now s :
  consistent s -> consistent (exec (enqueue_new_task url quality now) s).
Proof.
  intros [H1 H2 H3 H4 H5 H6 H7 H8].
  unfold exec. rewrite enqueue_new_task_eq. cbn [snd].
  set (id := uuid_supply s) in *.
  assert (Hnew : ~ In id (pending_ids s)).
  { intros H. apply H4 in H. lia. }
  assert (Hother : forall k, In k (pending_ids s) ->
            PyDict.get k (PyDict.set id (new_task id url quality now) (tasks s)) =
            PyDict.get k (tasks s)).
  { intros k Hk. rewrite get_set.
    destruct (Nat.eqb_spec id k); [subst; contradiction | reflexivity]. }
  unfold pending_ids in *.
  constructor; cbn; unfold pending_ids; cbn.
  - apply NoDup_keys_set, H1.
  - intros k Hk. apply keys_set_In in Hk. destruct Hk as [->|Hk]; [lia|].
    apply H2 in Hk. lia.
  - rewrite <- app_assoc.
    apply (Permutation_NoDup
             (l := id :: queue s ++ map co_task_id (created_tasks s) ++
                         map co_task_id (awaiting_executor s))).
    + apply Permutation_middle.
    + constructor; assumption.
  - intros k Hk.
    assert (Hk' : k = id \/ In k (queue s ++ map co_task_id (created_tasks s) ++
                                  map co_task_id (awaiting_executor s))).
    { rewrite !in_app_iff in *. cbn [In] in Hk. intuition congruence. }
    destruct Hk' as [->|Hk']; [lia|]. apply H4 in Hk'. lia.
  - intros k Hk. apply in_app_iff in Hk. destruct Hk as [Hk|[<-|[]]].
    + rewrite Hother by (apply in_or_app; auto). auto.
    + rewrite get_set, Nat.eqb_refl. eexists. split; reflexivity.
  - intros c t Hc. rewrite Hother; [apply H6, Hc|].
    apply in_or_app. right. apply in_or_app. left. apply in_map, Hc.
  - intros c t Hc. rewrite Hother; [apply H7, Hc|].
    apply in_or_app. right. apply in_or_app. right. apply in_map, Hc.
  - intros k t. rewrite get_set. destruct (Nat.eqb_spec id k) as [->|Hne].
    + intros E. inversion E. apply record_ok_new.
    + apply H8.
Qed.

Lemma consistent_submit url quality now s :
  consistent s -> consistent (exec (create_download_task url quality now) s).
Proof.
  intros Hs. unfold exec at 1. rewrite create_download_task_eq.
  destruct (Nat.leb MAX_QUEUE_SIZE (List.length (queue s))); [exact Hs|].
  cbn [snd]. pose proof (consistent_enqueue url quality now s Hs) as H1.
  destruct (processing_task_id s); [exact H1|].
  apply consistent_next, H1.
Qed.

(** The first step of a coroutine that has left the created list. *)
Lemma consistent_first_step c mkdir_failure s :
  consistent s -> ~ In (co_task_id c) (pending_ids s) ->
  co_task_id c < uuid_supply s ->
  (forall t, PyDict.get (co_task_id c) (tasks s) = Some t ->
     t_status t = Queued /\ t_quality t = co_quality c /\ t_url t = co_url c) ->
  consistent (download_video_first_step c mkdir_failure s).
Proof.
  intros Hs Hnot Hlt Hrec.
  destruct (PyDict.get (co_task_id c) (tasks s)) as [t|] eqn:Hg.
  2:{ rewrite (first_step_gone c _ _ Hg). apply consistent_finally, Hs. }
  destruct (Hrec t eq_refl) as (Hq & Hqual & _).
  assert (Hnone : t_completed_at t = None).
  { apply record_ok_not_completed; [apply (inv_records s Hs _ _ Hg) | congruence]. }
  assert (Hupd : forall f,
            (forall t0, t_completed_at (f t0) = t_completed_at t0) ->
            (forall t0, t_status (f t0) <> Completed) ->
            consistent (with_tasks (PyDict.update (co_task_id c) f (tasks s)) s)).
  { intros f Hf1 Hf2. apply consistent_update; [exact Hs | exact Hnot|].
    intros t0 Ht0. rewrite Hg in Ht0. inversion Ht0; subst t0.
    apply record_ok_status; auto. }
  destruct (detect_platform (co_url c)) eqn:Hp.
  4:{ rewrite (first_step_unknown c _ _ _ Hg Hp).
      apply consistent_finally.
      eapply consistent_ext; [| | | | |apply (Hupd (fun t => mark_failed unsupported_platform (mark_started t)))];
        try reflexivity; intros; cbn; congruence. }
  all: assert (Hne : detect_platform (co_url c) <> unknown) by congruence.
  all: destruct mkdir_failure as [message|].
  all: try (rewrite (first_step_mkdir_failed c _ _ _ Hg Hne);
            apply consistent_finally;
            eapply consistent_ext;
            [| | | | |apply (Hupd (fun t => mark_failed message
                         (mark_resolved (detect_platform (co_url c)) t)))];
            try reflexivity; intros; cbn; congruence).
  all: rewrite (first_step_parked c _ _ Hg Hne).
  all: match goal with
       | |- consistent (with_awaiting_executor _ ?s1) =>
           apply (consistent_park s1 c)
       end.
  all: try (eapply consistent_ext;
            [| | | | |apply (Hupd (mark_parked (detect_platform (co_url c))))];
            try reflexivity; intros; cbn; congruence).
  all: try exact Hnot.
  all: try exact Hlt.
  all: cbn; intros t0 Ht0; rewrite (get_update_same _ _ _ _ Hg) in Ht0;
       inversion Ht0; subst t0; cbn; auto.
Qed.

(** A coroutine that has left the suspended list is resumed. *)
Lemma consistent_resume c result now s :
  consistent s -> ~ In (co_task_id c) (pending_ids s) ->
  (forall t, PyDict.get (co_task_id c) (tasks s) = Some t ->
     t_status t = Processing /\ t_quality t = co_quality c) ->
  consistent (download_video_resume c result now s).
Proof.
  intros Hs Hnot Hrec.
  destruct (PyDict.get (co_task_id c) (tasks s)) as [t|] eqn:Hg.
  2:{ rewrite (resume_gone c _ _ _ Hg). apply consistent_finally, Hs. }
  destruct (Hrec t eq_refl) as (Hq & Hqual).
  assert (Hnone : t_completed_at t = None).
  { apply record_ok_not_completed; [apply (inv_records s Hs _ _ Hg) | congruence]. }
  destruct result as [i files|message].
  - rewrite (resume_fetched c _ _ _ _ _ Hg). apply consistent_finally.
    apply consistent_update; [exact Hs | exact Hnot|].
    intros t0 Ht0. rewrite Hg in Ht0. inversion Ht0; subst t0.
    unfold record_ok. cbn. split.
    + split; [reflexivity | discriminate].
    + intros _. eexists. split; [reflexivity|]. cbn.
      destruct files as [|[f sz] files]; cbn; rewrite Hqual; reflexivity.
  - rewrite (resume_failed c _ _ _ _ Hg). apply consistent_finally.
    apply consistent_update; [exact Hs | exact Hnot|].
    intros t0 Ht0. rewrite Hg in Ht0. inversion Ht0; subst t0.
    apply record_ok_status; [exact Hnone | reflexivity | cbn; discriminate].
Qed.

Lemma cancel_task_refused id s t :
  PyDict.get id (tasks s) = Some t -> In id (download_dir s) ->
  cancel_task id true s =
  (Raises (Exception "rmtree"), with_queue (remove_first id (queue s)) s).
Proof.
  intros H Hd. unfold cancel_task, bind, gets, modify, rmtree_if_exists, ret.
  rewrite H.
  assert (Hq : (if mem id (queue s)
                then with_queue (remove_first id (queue s)) s else s) =
               with_queue (remove_first id (queue s)) s).
  { destruct (mem id (queue s)) eqn:E; [reflexivity|].
    apply mem_not_In in E. rewrite (remove_first_absent _ _ E).
    destruct s; reflexivity. }
  rewrite Hq. cbn. apply mem_In in Hd. rewrite Hd. reflexivity.
Qed.

Lemma consistent_unqueue id s :
  consistent s ->
  consistent (with_queue (remove_first id (queue s)) s) /\
  ~ In id (remove_first id (queue s)).
Proof.
  intros [H1 H2 H3 H4 H5 H6 H7 H8]. unfold pending_ids in *.
  pose proof (NoDup_app_remove_r _ _ H3) as Hq.
  destruct (remove_first_NoDup id _ Hq) as [Hq' Hnot].
  split; [|exact Hnot].
  constructor; cbn; unfold pending_ids; cbn; auto.
  - clear - H3. induction (queue s) as [|y q IH]; cbn in *; [exact H3|].
    inversion H3 as [|? ? Hy Hnd]; subst.
    destruct (Nat.eqb y id); [exact Hnd|]. cbn. constructor; [|auto].
    rewrite in_app_iff in *. intros [H|H]; [|tauto].
    apply remove_first_In in H. tauto.
  - intros k Hk. apply H4. rewrite in_app_iff in *.
    destruct Hk as [Hk|Hk]; [left; exact (remove_first_In _ _ _ Hk) | tauto].
  - intros k Hk. apply H5. exact (remove_first_In _ _ _ Hk).
Qed.

Lemma consistent_cancel id raises s :
  consistent s -> consistent (exec (cancel_task id raises) s).
Proof.
  intros Hs. unfold exec.
  destruct (PyDict.get id (tasks s)) as [t|] eqn:Hg.
  2:{ rewrite (cancel_task_gone _ _ _ Hg). exact Hs. }
  destruct (consistent_unqueue id s Hs) as [Hu Hnot].
  destruct (mem id (download_dir s) && raises) eqn:E.
  - apply andb_true_iff in E. destruct E as [Hd ->]. apply mem_In in Hd.
    rewrite (cancel_task_refused _ _ _ Hg Hd). exact Hu.
  - rewrite (cancel_task_done id raises s t Hg).
    2:{ intros ->. rewrite andb_true_r in E. apply mem_not_In, E. }
    cbn [snd].
    match goal with
    | |- consistent (with_tasks ?d (with_download_dir ?x ?s1)) =>
        apply (consistent_ext (with_tasks d s1)); try reflexivity
    end.
    apply (consistent_remove_records (with_queue (remove_first id (queue s)) s));
      [exact Hu | apply NoDup_keys_del, (inv_keys s Hs) |].
    intros k. cbn. rewrite get_del.
    destruct (Nat.eqb_spec id k) as [<-|Hne]; [right; auto | left; reflexivity].
Qed.

(** What the scan hands over when it does not assume a friendly file
    system. *)
Lemma cleanup_scan_any now raises items :
  forall acc s,
    match cleanup_scan now raises items acc s with
    | (Returns ids, s') =>
        same_but_dirs s s' /\
        (forall k, In k ids -> In k acc \/ In k (expired_ids now items))
    | (Raises _, s') => same_but_dirs s s'
    end.
Proof.
  induction items as [|[id t] items IH]; intros acc s.
  - cbn. split; [apply same_but_dirs_refl | auto].
  - rewrite cleanup_scan_cons, expired_ids_cons.
    destruct (expired now t).
    + unfold bind. rewrite rmtree_outcome.
      destruct (mem id (download_dir s) && raises id).
      * apply same_but_dirs_refl.
      * destruct (rmtree_removes id s) as [Hf _].
        specialize (IH (acc ++ [id]) (exec (rmtree_if_exists id false) s)).
        destruct (cleanup_scan now raises items (acc ++ [id])
                    (exec (rmtree_if_exists id false) s)) as [[ids|e] s'].
        -- destruct IH as [Hf' Hids].
           split; [exact (same_but_dirs_trans _ _ _ Hf Hf')|].
           intros k Hk. apply Hids in Hk. rewrite in_app_iff in Hk.
           cbn [In] in *. intuition congruence.
        -- exact (same_but_dirs_trans _ _ _ Hf IH).
    + apply IH.
Qed.

Lemma delete_tasks_keys ids :
  forall s, NoDup (PyDict.keys (tasks s)) ->
            NoDup (PyDict.keys (tasks (exec (delete_tasks ids) s))).
Proof.
  induction ids as [|id ids IH]; intros s H; [exact H|].
  cbn [delete_tasks]. unfold exec, bind, modify. cbn.
  apply (IH (with_tasks (PyDict.del id (tasks s)) s)).
  cbn. apply NoDup_keys_del, H.
Qed.

Lemma delete_tasks_frame ids :
  forall s,
    let s' := exec (delete_tasks ids) s in
    queue s' = queue s /\ created_tasks s' = created_tasks s /\
    awaiting_executor s' = awaiting_executor s /\
    uuid_supply s' = uuid_supply s /\
    processing_task_id s' = processing_task_id s.
Proof.
  induction ids as [|id ids IH]; intros s; [cbn; auto|].
  cbn [delete_tasks]. unfold exec, bind, modify. cbn.
  apply (IH (with_tasks (PyDict.del id (tasks s)) s)).
Qed.

Lemma consistent_same_but_dirs s s' :
  same_but_dirs s s' -> consistent s -> consistent s'.
Proof.
  intros (H1 & H2 & H3 & H4 & H5 & H6). apply consistent_ext; assumption.
Qed.

Lemma consistent_cleanup now raises s :
  consistent s -> consistent (exec (cleanup_cycle now raises) s).
Proof.
  intros Hs.
  pose proof (cleanup_scan_any now raises (tasks s) [] s) as Hscan.
  destruct (cleanup_scan now raises (tasks s) [] s) as [[ids|e] s1] eqn:E.
  2:{ rewrite (cleanup_cycle_after_raise _ _ _ _ _ E).
      exact (consistent_same_but_dirs _ _ Hscan Hs). }
  destruct Hscan as [Hf Hids].
  rewrite (cleanup_cycle_after_scan _ _ _ _ _ E).
  pose proof (consistent_same_but_dirs _ _ Hf Hs) as Hs1.
  destruct (delete_tasks_spec ids s1) as (_ & _ & Hget).
  destruct (delete_tasks_frame ids s1) as (F1 & F2 & F3 & F4 & _).
  apply (consistent_ext (with_tasks (tasks (exec (delete_tasks ids) s1)) s1));
    auto.
  apply consistent_remove_records;
    [exact Hs1 | apply delete_tasks_keys, (inv_keys s1 Hs1) |].
  intros k. rewrite Hget. destruct (mem k ids) eqn:Em; [|left; reflexivity].
  right. split; [reflexivity|]. apply mem_In in Em.
  destruct (Hids k Em) as [[]|Hk].
  apply expired_ids_In in Hk. destruct Hk as [t [Hin He]].
  destruct Hf as (Ht & Hq & _). rewrite Hq. intros Hqueue.
  destruct (inv_queue s Hs k Hqueue) as [t' [Hg' Hst]].
  rewrite (In_get _ _ _ (inv_keys s Hs) Hin) in Hg'. inversion Hg'; subst t'.
  pose proof (inv_records s Hs k t (In_get _ _ _ (inv_keys s Hs) Hin)) as [Hiff _].
  unfold expired in He. destruct (t_completed_at t) as [z|]; [|discriminate].
  assert (t_status t = Completed) by (apply Hiff; discriminate). congruence.
Qed.

Lemma consistent_step e s : consistent s -> consistent (step e s).
Proof.
  intros Hs. destruct e as [url quality now|id mkdir_failure|id result now
                            |id raises|now raises]; cbn [step].
  - apply consistent_submit, Hs.
  - destruct (take id (created_tasks s)) as [[c rest]|] eqn:E; [|exact Hs].
    destruct (consistent_take_created s id c rest E Hs)
      as (Hid & Hs0 & Hnot & Hlt & Hrec). subst id.
    apply consistent_first_step; assumption.
  - destruct (take id (awaiting_executor s)) as [[c rest]|] eqn:E; [|exact Hs].
    destruct (consistent_take_awaiting s id c rest E Hs)
      as (Hid & Hs0 & Hnot & Hrec). subst id.
    apply consistent_resume; assumption.
  - apply consistent_cancel, Hs.
  - apply consistent_cleanup, Hs.
Qed.

Lemma consistent_run trace : forall s, consistent s -> consistent (run trace s).
Proof.
  induction trace as [|e trace IH]; intros s Hs; [exact Hs|].
  cbn. apply IH, consistent_step, Hs.
Qed.

Lemma reachable_consistent s : reachable s -> consistent s.
Proof.
  intros [trace ->]. apply consistent_run, consistent_initial.
Qed.

(* ================================================================== *)
(** * C1 *)
(* ================================================================== *)

(** C1, the code at the failing schedule.  Two requests are served one
    after the other before the event loop runs the coroutine that the
    first request created.  [processing_task_id] is set only inside
    [download_video], so it is still [None] when the second request
    looks at it, and a second coroutine is created.  Once both have run
    their first step, two tasks have status 'processing'. *)
Theorem two_tasks_processing_at_once :
  let s1 := run [Submit sample_url 720 0] initial_state in
  let s := run two_submits_then_starts initial_state in
  reachable s /\
  processing_task_id s1 = None /\
  List.length (created_tasks s1) = 1 /\
  count_processing s = 2 /\
  List.length (awaiting_executor s) = 2 /\
  ~ (count_processing s <= 1).
Proof.
  cbv zeta.
  assert (Hc : count_processing (run two_submits_then_starts initial_state) = 2)
    by (vm_compute; reflexivity).
  split; [eexists; reflexivity|].
  split; [vm_compute; reflexivity|].
  split; [vm_compute; reflexivity|].
  split; [exact Hc|].
  split; [vm_compute; reflexivity|].
  rewrite Hc. lia.
Qed.

(* ================================================================== *)
(** * C2 *)
(* ================================================================== *)

(** C2, counterexample.  A task whose fetch raised, and a task whose URL
    is not supported, both end in status 'error' with no
    [completed_at]. *)
Lemma failed_task_has_no_completed_at :
  let s := run [Submit sample_url 720 0; Start 0 None;
                Finish 0 (FetchFailed "network") 5] initial_state in
  let s' := run [Submit "ftp://example.org/a" 720 0; Start 0 None]
                initial_state in
  reachable s /\ reachable s' /\
  (exists t, PyDict.get 0 (tasks s) = Some t /\
             t_status t = Error /\ t_completed_at t = None) /\
  (exists t, PyDict.get 0 (tasks s') = Some t /\
             t_status t = Error /\ t_completed_at t = None).
Proof.
  cbv zeta.
  split; [eexists; reflexivity|]. split; [eexists; reflexivity|].
  split; vm_compute; eexists; repeat split.
Qed.

(** C2, as amended.  In every reachable state [completed_at] is set
    exactly for the tasks whose status is 'completed': a task in status
    'queued', 'processing' or 'error' has none.  The resumed
    [download_video] sets [completed_at] to the current time when it
    moves the task to 'completed', and leaves it as it was when it moves
    the task to 'error'. *)
Theorem completed_at_iff_completed (trace : list event) (id : task_id)
    (t : task) (c : coroutine) (s0 : state) (t0 : task) (now : Z) :
  PyDict.get id (tasks (run trace initial_state)) = Some t ->
  PyDict.get (co_task_id c) (tasks s0) = Some t0 ->
  ((t_completed_at t <> None <-> t_status t = Completed) /\
   (t_status t <> Completed -> t_completed_at t = None)) /\
  (forall i files,
     exists t', PyDict.get (co_task_id c)
                  (tasks (download_video_resume c (Fetched i files) now s0)) =
                Some t' /\
                t_status t' = Completed /\ t_completed_at t' = Some now) /\
  (forall message,
     exists t', PyDict.get (co_task_id c)
                  (tasks (download_video_resume c (FetchFailed message) now s0)) =
                Some t' /\
                t_status t' = Error /\
                t_completed_at t' = t_completed_at t0).
Proof.
  intros Hg Hg0. split; [|split].
  - pose proof (consistent_run trace _ consistent_initial) as Hs.
    pose proof (inv_records _ Hs id t Hg) as Hok.
    split; [exact (proj1 Hok) | apply record_ok_not_completed, Hok].
  - intros i files. rewrite (resume_fetched c _ _ _ _ _ Hg0).
    match goal with
    | |- context [exec download_video_finally ?x] =>
        destruct (finally_frame x) as (Ht & _)
    end.
    rewrite Ht. cbn [tasks with_tasks].
    eexists. split; [apply get_update_same, Hg0|]. split; reflexivity.
  - intros message. rewrite (resume_failed c _ _ _ _ Hg0).
    match goal with
    | |- context [exec download_video_finally ?x] =>
        destruct (finally_frame x) as (Ht & _)
    end.
    rewrite Ht. cbn [tasks with_tasks].
    eexists. split; [apply get_update_same, Hg0|]. split; reflexivity.
Qed.

Lemma completed_at_iff_completed_witness :
  let trace := [Submit sample_url 720 0; Start 0 None;
                Finish 0 (FetchFailed "network") 5] in
  exists t, PyDict.get 0 (tasks (run trace initial_state)) = Some t /\
            t_status t = Error /\ t_completed_at t = None.
Proof.
  cbv zeta.
  assert (E : exists t,
            PyDict.get 0
              (tasks (run [Submit sample_url 720 0; Start 0 None;
                           Finish 0 (FetchFailed "network") 5]
                          initial_state)) = Some t /\
            t_status t = Error)
    by (vm_compute; eexists; split; reflexivity).
  destruct E as (t & Hg & Hs).
  exists t. split; [exact Hg|]. split; [exact Hs|].
  destruct (completed_at_iff_completed _ 0 t
              {| co_task_id := 0; co_url := sample_url; co_quality := 720 |}
              _ t 5%Z Hg Hg) as [[_ H] _].
  apply H. rewrite Hs. discriminate.
Defined.

(* ================================================================== *)
(** * C6 *)
(* ================================================================== *)

(** C6.  [MAX_QUALITY] is 720.  In every reachable state a task in
    status 'completed' carries a [video_info] whose quality label is the
    decimal of [min(quality, 720)] followed by 'p', where [quality] is
    the quality that was requested and stored with the task; so the label
    is '720p' for every request of 720 or more, 1080 among them.
    [create_download_task] never looks at the quality: with room in the
    queue the request is accepted whatever quality it asks for, and the
    requested value is what the record holds. *)
Theorem quality_label_is_capped (trace : list event) (id : task_id)
    (t : task) :
  PyDict.get id (tasks (run trace initial_state)) = Some t ->
  t_status t = Completed ->
  MAX_QUALITY = 720%Z /\
  (exists v,
     t_video_info t = Some v /\
     vi_quality v = (str (Z.min (t_quality t) MAX_QUALITY) ++ "p")%string /\
     ((720 <= t_quality t)%Z -> vi_quality v = "720p") /\
     (t_quality t = 1080%Z -> vi_quality v = "720p")) /\
  (forall url quality now s,
     List.length (queue s) < MAX_QUEUE_SIZE ->
     exists r,
       fst (create_download_task url quality now s) = Returns r /\
       exists t',
         PyDict.get (dr_task_id r)
           (tasks (exec (create_download_task url quality now) s)) = Some t' /\
         t_quality t' = quality).
Proof.
  intros Hg Hs. split; [reflexivity|]. split.
  - pose proof (consistent_run trace _ consistent_initial) as Hc.
    destruct (inv_records _ Hc id t Hg) as [_ Hv].
    destruct (Hv Hs) as (v & Hvi & Hq).
    exists v. split; [exact Hvi|]. split; [exact Hq|].
    assert (H720 : (720 <= t_quality t)%Z -> vi_quality v = "720p").
    { intros Hle. rewrite Hq. unfold MAX_QUALITY.
      rewrite Z.min_r by lia. reflexivity. }
    split; [exact H720 | intros E; apply H720; lia].
  - intros url quality now s Hlen.
    unfold exec. rewrite create_download_task_eq.
    destruct (Nat.leb_spec MAX_QUEUE_SIZE (List.length (queue s))) as [H|_]; [lia|].
    cbv zeta. cbn [fst snd dr_task_id].
    eexists. split; [reflexivity|].
    assert (Hnew : PyDict.get (uuid_supply s)
                     (tasks (exec (enqueue_new_task url quality now) s)) =
                   Some (new_task (uuid_supply s) url quality now)).
    { unfold exec. rewrite enqueue_new_task_eq. cbn.
      rewrite get_set, Nat.eqb_refl. reflexivity. }
    exists (new_task (uuid_supply s) url quality now).
    split; [|reflexivity].
    destruct (processing_task_id s); [exact Hnew|].
    destruct (next_frame (exec (enqueue_new_task url quality now) s)) as (Ht & _).
    rewrite Ht. exact Hnew.
Qed.

Lemma quality_label_is_capped_witness :
  let trace := [Submit sample_url 1080 0; Start 0 None;
                Finish 0 (Fetched {| info_title := Some "x";
                                     info_duration := Some 61%Z |}
                                  [("x.mp4", 2048%Z)]) 5] in
  exists t v, PyDict.get 0 (tasks (run trace initial_state)) = Some t /\
              t_quality t = 1080%Z /\
              t_video_info t = Some v /\ vi_quality v = "720p".
Proof.
  cbv zeta.
  assert (E : exists t,
            PyDict.get 0
              (tasks (run [Submit sample_url 1080 0; Start 0 None;
                           Finish 0 (Fetched {| info_title := Some "x";
                                                info_duration := Some 61%Z |}
                                             [("x.mp4", 2048%Z)]) 5]
                          initial_state)) = Some t /\
            t_status t = Completed /\ t_quality t = 1080%Z)
    by (vm_compute; eexists; repeat split).
  destruct E as (t & Hg & Hs & Hq).
  destruct (quality_label_is_capped _ 0 t Hg Hs)
    as (_ & (v & Hv & _ & _ & H1080) & _).
  exists t, v. auto.
Defined.

(* ================================================================== *)
(** * C4 *)
(* ================================================================== *)



(* ================================================================== *)
(** * C7 *)
(* ================================================================== *)




(* ================================================================== *)
(** * The store invariant is kept *)
(* ================================================================== *)

Lemma store_ok_ext s s' :
  tasks s' = tasks s -> download_dir s' = download_dir s ->
  uuid_supply s' = uuid_supply s -> store_ok s -> store_ok s'.
Proof.
  intros Ht Hd Hu [H1 H2]. constructor; rewrite ?Ht, ?Hd, ?Hu; assumption.
Qed.

Lemma store_ok_initial : store_ok initial_state.
Proof. constructor; cbn; intros; [discriminate | contradiction]. Qed.

Lemma store_ok_update s id (f : task -> task) :
  store_ok s ->
  (forall t, PyDict.get id (tasks s) = Some t ->
     record_shape id (f t) /\ t_status (f t) <> Queued) ->
  store_ok (with_tasks (PyDict.update id f (tasks s)) s).
Proof.
  intros [H1 H2] Hf. constructor; cbn.
  - intros k t. rewrite get_update.
    destruct (Nat.eqb_spec id k) as [<-|Hne]; [|apply H1].
    destruct (PyDict.get id (tasks s)) as [t0|] eqn:E; cbn; [|discriminate].
    intros Ht. inversion Ht; subst. apply Hf. reflexivity.
  - intros d Hd. destruct (H2 d Hd) as (Hlt & t & Hg & Hs).
    split; [exact Hlt|]. rewrite get_update.
    destruct (Nat.eqb_spec id d) as [<-|Hne].
    + rewrite Hg. cbn. eexists. split; [reflexivity|]. apply Hf, Hg.
    + eauto.
Qed.

Lemma store_ok_mkdir s id :
  store_ok s -> id < uuid_supply s ->
  (exists t, PyDict.get id (tasks s) = Some t /\ t_status t <> Queued) ->
  store_ok (with_download_dir
              (if mem id (download_dir s) then download_dir s
               else download_dir s ++ [id]) s).
Proof.
  intros [H1 H2] Hlt Hrec. constructor; cbn; [exact H1|].
  intros d Hd. destruct (mem id (download_dir s)); [apply H2, Hd|].
  apply in_app_iff in Hd. destruct Hd as [Hd|[<-|[]]]; [apply H2, Hd | auto].
Qed.

Lemma shape_failed_early id t message :
  record_shape id t -> t_status t = Queued ->
  record_shape id (mark_failed message (mark_started t)) /\
  t_status (mark_failed message (mark_started t)) <> Queued.
Proof.
  unfold record_shape. intros [Hid H] Hs. rewrite Hs in H.
  destruct H as (_ & _ & Hf & Hv & _). cbn.
  split; [|discriminate]. split; [exact Hid|].
  split; [auto|]. split; [exact Hf|]. split; [exact Hv|]. eauto.
Qed.

Lemma shape_failed_mkdir id t p message :
  record_shape id t -> t_status t = Queued ->
  record_shape id (mark_failed message (mark_resolved p t)) /\
  t_status (mark_failed message (mark_resolved p t)) <> Queued.
Proof.
  unfold record_shape. intros [Hid H] Hs. rewrite Hs in H.
  destruct H as (_ & _ & Hf & Hv & _). cbn.
  split; [|discriminate]. split; [exact Hid|].
  split; [auto|]. split; [exact Hf|]. split; [exact Hv|]. eauto.
Qed.

Lemma shape_parked id t :
  record_shape id t -> t_status t = Queued ->
  detect_platform (t_url t) <> unknown ->
  record_shape id (mark_parked (detect_platform (t_url t)) t) /\
  t_status (mark_parked (detect_platform (t_url t)) t) <> Queued.
Proof.
  unfold record_shape. intros [Hid H] Hs Hp. rewrite Hs in H.
  destruct H as (_ & _ & Hf & Hv & He). cbn.
  split; [|discriminate]. split; [exact Hid|]. auto 10.
Qed.

Lemma shape_failed_late id t message :
  record_shape id t -> t_status t = Processing ->
  record_shape id (mark_failed message t) /\
  t_status (mark_failed message t) <> Queued.
Proof.
  unfold record_shape. intros [Hid H] Hs. rewrite Hs in H.
  destruct H as (Hp & _ & _ & Hf & Hv & _). cbn.
  split; [|discriminate]. split; [exact Hid|].
  split; [auto|]. split; [exact Hf|]. split; [exact Hv|]. eauto.
Qed.

Lemma shape_completed id t v (files : list (string * Z)) now :
  record_shape id t -> t_status t = Processing ->
  vi_size v = match files with
              | (_, file_size) :: _ => format_size file_size
              | [] => "Уточняется"
              end ->
  let path := match files with (f, _) :: _ => Some f | [] => None end in
  record_shape id (mark_completed v path now t) /\
  t_status (mark_completed v path now t) <> Queued.
Proof.
  intros [Hid H] Hs Hsz. cbv zeta. unfold record_shape. rewrite Hs in H.
  destruct H as (_ & Hpl & Hne & Hf & _ & He).
  split; [|cbn; discriminate].
  destruct files as [|[f sz] files]; cbn.
  - split; [exact Hid|]. split; [reflexivity|]. split; [exact Hpl|].
    split; [exact Hne|]. split; [exact He|].
    exists v. split; [reflexivity|]. left. auto.
  - split; [exact Hid|]. split; [reflexivity|]. split; [exact Hpl|].
    split; [exact Hne|]. split; [exact He|].
    exists v. split; [reflexivity|]. right.
    exists f, sz. split; [reflexivity | exact Hsz].
Qed.

Lemma store_ok_finally s :
  store_ok s -> store_ok (exec download_video_finally s).
Proof.
  intros H. destruct (finally_frame s) as (Ht & _ & Hd & Hu).
  exact (store_ok_ext _ _ Ht Hd Hu H).
Qed.

Lemma store_ok_next s :
  store_ok s -> store_ok (exec process_next_in_queue s).
Proof.
  intros H. destruct (next_frame s) as (Ht & _ & _ & Hd & Hu).
  exact (store_ok_ext _ _ Ht Hd Hu H).
Qed.

Lemma store_ok_first_step c mkdir_failure s :
  store_ok s -> co_task_id c < uuid_supply s ->
  (forall t, PyDict.get (co_task_id c) (tasks s) = Some t ->
     t_status t = Queued /\ t_quality t = co_quality c /\ t_url t = co_url c) ->
  store_ok (download_video_first_step c mkdir_failure s).
Proof.
  intros Hs Hlt Hrec.
  destruct (PyDict.get (co_task_id c) (tasks s)) as [t|] eqn:Hg.
  2:{ rewrite (first_step_gone c _ _ Hg). apply store_ok_finally, Hs. }
  destruct (Hrec t eq_refl) as (Hq & _ & Hurl).
  pose proof (so_records s Hs _ _ Hg) as Hshape.
  destruct (detect_platform (co_url c)) eqn:Hp.
  4:{ rewrite (first_step_unknown c _ _ _ Hg Hp). apply store_ok_finally.
      apply (store_ok_ext
               (with_tasks (PyDict.update (co_task_id c)
                  (fun t => mark_failed unsupported_platform (mark_started t))
                  (tasks s)) s)); try reflexivity.
      apply store_ok_update; [exact Hs|].
      intros t0 Ht0. rewrite Hg in Ht0. inversion Ht0; subst t0.
      apply shape_failed_early; assumption. }
  all: assert (Hne : detect_platform (co_url c) <> unknown) by congruence.
  all: destruct mkdir_failure as [message|].
  all: try (rewrite (first_step_mkdir_failed c _ _ _ Hg Hne);
            apply store_ok_finally;
            apply (store_ok_ext
                     (with_tasks (PyDict.update (co_task_id c)
                        (fun t => mark_failed message
                                    (mark_resolved (detect_platform (co_url c)) t))
                        (tasks s)) s)); try reflexivity;
            apply store_ok_update; [exact Hs|];
            intros t0 Ht0; rewrite Hg in Ht0; inversion Ht0; subst t0;
            apply shape_failed_mkdir; assumption).
  all: rewrite (first_step_parked c _ _ Hg Hne).
  all: assert (Hupd : store_ok
                 (with_tasks (PyDict.update (co_task_id c)
                    (mark_parked (detect_platform (co_url c))) (tasks s)) s))
         by (apply store_ok_update; [exact Hs|];
             intros t0 Ht0; rewrite Hg in Ht0; inversion Ht0; subst t0;
             rewrite <- Hurl in *; apply shape_parked; assumption).
  all: match goal with
       | |- store_ok (with_awaiting_executor ?a (with_download_dir ?d
                        (with_processing_task_id ?p ?x))) =>
           apply (store_ok_ext (with_download_dir d x)); try reflexivity;
           apply (store_ok_mkdir x (co_task_id c) Hupd Hlt)
       end.
  all: cbn; rewrite (get_update_same _ _ _ _ Hg); eexists;
       (split; [reflexivity | cbn; discriminate]).
Qed.

Lemma store_ok_resume c result now s :
  store_ok s ->
  (forall t, PyDict.get (co_task_id c) (tasks s) = Some t ->
     t_status t = Processing /\ t_quality t = co_quality c) ->
  store_ok (download_video_resume c result now s).
Proof.
  intros Hs Hrec.
  destruct (PyDict.get (co_task_id c) (tasks s)) as [t|] eqn:Hg.
  2:{ rewrite (resume_gone c _ _ _ Hg). apply store_ok_finally, Hs. }
  destruct (Hrec t eq_refl) as (Hq & _).
  pose proof (so_records s Hs _ _ Hg) as Hshape.
  destruct result as [i files|message].
  - rewrite (resume_fetched c _ _ _ _ _ Hg). apply store_ok_finally.
    apply store_ok_update; [exact Hs|].
    intros t0 Ht0. rewrite Hg in Ht0. inversion Ht0; subst t0.
    apply shape_completed; [assumption | assumption | reflexivity].
  - rewrite (resume_failed c _ _ _ _ Hg). apply store_ok_finally.
    apply store_ok_update; [exact Hs|].
    intros t0 Ht0. rewrite Hg in Ht0. inversion Ht0; subst t0.
    apply shape_failed_late; assumption.
Qed.

Lemma record_shape_new id url quality now :
  record_shape id (new_task id url quality now).
Proof. unfold record_shape. cbn. auto 10. Qed.

Lemma store_ok_submit url quality now s :
  store_ok s -> store_ok (exec (create_download_task url quality now) s).
Proof.
  intros Hs. unfold exec at 1. rewrite create_download_task_eq.
  destruct (Nat.leb MAX_QUEUE_SIZE (List.length (queue s))); [exact Hs|].
  cbn [snd].
  assert (H1 : store_ok (exec (enqueue_new_task url quality now) s)).
  { unfold exec. rewrite enqueue_new_task_eq. cbn [snd].
    destruct Hs as [Hr Hd]. constructor; cbn.
    - intros k t. rewrite get_set.
      destruct (Nat.eqb_spec (uuid_supply s) k) as [<-|Hne]; [|apply Hr].
      intros E. inversion E. apply record_shape_new.
    - intros d Hin. destruct (Hd d Hin) as (Hlt & t & Hg & Hst).
      split; [lia|]. rewrite get_set.
      destruct (Nat.eqb_spec (uuid_supply s) d); [lia | eauto]. }
  destruct (processing_task_id s); [exact H1 | apply store_ok_next, H1].
Qed.

(** The outcome of [cancel_task], whatever the file system does. *)
Lemma cancel_task_cases id raises s :
  (PyDict.get id (tasks s) = None /\
   cancel_task id raises s =
     (Raises (HTTPException 404 "Задача не найдена"), s)) \/
  (exists t, PyDict.get id (tasks s) = Some t /\
     In id (download_dir s) /\ raises = true /\
     cancel_task id raises s =
       (Raises (Exception "rmtree"),
        with_queue (remove_first id (queue s)) s)) \/
  (exists t, PyDict.get id (tasks s) = Some t /\
     (raises = true -> ~ In id (download_dir s)) /\
     cancel_task id raises s =
       (Returns "Задача отменена",
        with_tasks (PyDict.del id (tasks s))
          (with_download_dir
             (filter (fun d => negb (Nat.eqb d id)) (download_dir s))
             (with_queue (remove_first id (queue s)) s)))).
Proof.
  destruct (PyDict.get id (tasks s)) as [t|] eqn:Hg.
  2:{ left. split; [reflexivity | apply cancel_task_gone, Hg]. }
  right. destruct (mem id (download_dir s) && raises) eqn:E.
  - left. apply andb_true_iff in E. destruct E as [Hd ->].
    apply mem_In in Hd. exists t.
    split; [reflexivity|]. split; [exact Hd|]. split; [reflexivity|].
    exact (cancel_task_refused _ _ _ Hg Hd).
  - right. exists t. split; [reflexivity|].
    assert (Hr : raises = true -> ~ In id (download_dir s)).
    { intros ->. rewrite andb_true_r in E. apply mem_not_In, E. }
    split; [exact Hr|]. exact (cancel_task_done id raises s t Hg Hr).
Qed.

Lemma store_ok_cancel id raises s :
  store_ok s -> store_ok (exec (cancel_task id raises) s).
Proof.
  intros Hs. unfold exec.
  destruct (cancel_task_cases id raises s)
    as [[_ ->]|[(t & _ & _ & _ & ->)|(t & Hg & _ & ->)]]; cbn [snd].
  - exact Hs.
  - apply (store_ok_ext s); auto.
  - destruct Hs as [Hr Hd]. constructor; cbn.
    + intros k t0. rewrite get_del.
      destruct (Nat.eqb_spec id k); [discriminate | apply Hr].
    + intros d Hin. apply filter_In in Hin. destruct Hin as [Hin Hne].
      destruct (Nat.eqb_spec d id) as [->|Hne']; [discriminate|].
      destruct (Hd d Hin) as (Hlt & t0 & Hg0 & Hst).
      split; [exact Hlt|]. rewrite get_del.
      destruct (Nat.eqb_spec id d); [congruence | eauto].
Qed.

(** The scan, read off its outcome. *)
Lemma cleanup_scan_returned now raises items :
  forall acc s ids s',
    cleanup_scan now raises items acc s = (Returns ids, s') ->
    ids = acc ++ expired_ids now items /\
    same_but_dirs s s' /\
    (forall d, In d (download_dir s') <->
               In d (download_dir s) /\ ~ In d (expired_ids now items)).
Proof.
  induction items as [|[id t] items IH]; intros acc s ids s' H.
  - cbn in H. inversion H; subst. rewrite app_nil_r.
    split; [reflexivity|]. split; [apply same_but_dirs_refl | cbn; tauto].
  - rewrite cleanup_scan_cons in H. rewrite expired_ids_cons.
    destruct (expired now t); [|apply IH, H].
    unfold bind in H. rewrite rmtree_outcome in H.
    destruct (mem id (download_dir s) && raises id); [discriminate|].
    destruct (rmtree_removes id s) as [Hf Hd].
    destruct (IH _ _ _ _ H) as (Hids & Hf' & Hd').
    split; [rewrite Hids, <- app_assoc; reflexivity|].
    split; [exact (same_but_dirs_trans _ _ _ Hf Hf')|].
    intros d. rewrite Hd', Hd. cbn [In]. intuition congruence.
Qed.

Lemma cleanup_scan_raised now raises items :
  forall acc s e s',
    cleanup_scan now raises items acc s = (Raises e, s') ->
    same_but_dirs s s' /\
    (forall d, In d (download_dir s') -> In d (download_dir s)) /\
    (forall d, In d (download_dir s) -> ~ In d (expired_ids now items) ->
               In d (download_dir s')).
Proof.
  induction items as [|[id t] items IH]; intros acc s e s' H.
  - cbn in H. discriminate.
  - rewrite cleanup_scan_cons in H. rewrite expired_ids_cons.
    destruct (expired now t); [|apply IH in H; exact H].
    unfold bind in H. rewrite rmtree_outcome in H.
    destruct (mem id (download_dir s) && raises id).
    + inversion H; subst. split; [apply same_but_dirs_refl | auto].
    + destruct (rmtree_removes id s) as [Hf Hd].
      destruct (IH _ _ _ _ H) as (Hf' & Hsub & Hkeep).
      split; [exact (same_but_dirs_trans _ _ _ Hf Hf')|]. split.
      * intros d Hin. apply Hsub, Hd in Hin. tauto.
      * intros d Hin Hnot. cbn [In] in Hnot. apply Hkeep; [|tauto].
        apply Hd. split; [exact Hin | intros ->; tauto].
Qed.

(** One cleanup cycle, read off the outcome of its scan. *)
Lemma cleanup_cycle_cases now raises s :
  let s' := exec (cleanup_cycle now raises) s in
  queue s' = queue s /\ created_tasks s' = created_tasks s /\
  awaiting_executor s' = awaiting_executor s /\
  uuid_supply s' = uuid_supply s /\
  processing_task_id s' = processing_task_id s /\
  (forall d, In d (download_dir s') -> In d (download_dir s)) /\
  (forall d, In d (download_dir s) ->
             ~ In d (expired_ids now (tasks s)) -> In d (download_dir s')) /\
  ((tasks s' = tasks s) \/
   ((forall k, PyDict.get k (tasks s') =
               if mem k (expired_ids now (tasks s)) then None
               else PyDict.get k (tasks s)) /\
    (forall d, In d (download_dir s') -> ~ In d (expired_ids now (tasks s))))).
Proof.
  cbv zeta.
  destruct (cleanup_scan now raises (tasks s) [] s) as [[ids|e] s1] eqn:E.
  - rewrite (cleanup_cycle_after_scan _ _ _ _ _ E).
    destruct (cleanup_scan_returned _ _ _ _ _ _ _ E)
      as (Hids & (Ht & Hq & Hp & Hc & Ha & Hu) & Hd).
    cbn [app] in Hids. subst ids.
    destruct (delete_tasks_spec (expired_ids now (tasks s)) s1) as (_ & Hdd & Hg).
    destruct (delete_tasks_frame (expired_ids now (tasks s)) s1)
      as (F1 & F2 & F3 & F4 & F5).
    rewrite F1, F2, F3, F4, F5, Hdd.
    repeat (split; [congruence|]).
    split; [intros d Hin; apply Hd in Hin; tauto|].
    split; [intros d Hin Hnot; apply Hd; tauto|].
    right. split.
    + intros k. rewrite Hg, Ht. reflexivity.
    + intros d Hin. apply Hd in Hin. tauto.
  - rewrite (cleanup_cycle_after_raise _ _ _ _ _ E).
    destruct (cleanup_scan_raised _ _ _ _ _ _ _ E)
      as ((Ht & Hq & Hp & Hc & Ha & Hu) & Hsub & Hkeep).
    repeat (split; [congruence|]).
    split; [exact Hsub|]. split; [exact Hkeep|]. left. exact Ht.
Qed.

Lemma store_ok_cleanup now raises s :
  store_ok s -> store_ok (exec (cleanup_cycle now raises) s).
Proof.
  intros [Hr Hd].
  destruct (cleanup_cycle_cases now raises s)
    as (_ & _ & _ & Hu & _ & Hsub & _ & Hcase).
  constructor; rewrite ?Hu.
  - intros k t Hg. destruct Hcase as [Ht|[Hget _]].
    + rewrite Ht in Hg. eauto.
    + rewrite Hget in Hg.
      destruct (mem k (expired_ids now (tasks s))); [discriminate | eauto].
  - intros d Hin. destruct (Hd d (Hsub d Hin)) as (Hlt & t & Hg & Hst).
    split; [exact Hlt|]. destruct Hcase as [Ht|[Hget Hnot]].
    + rewrite Ht. eauto.
    + rewrite Hget. apply Hnot, mem_not_In in Hin. rewrite Hin. eauto.
Qed.

Lemma store_ok_step e s :
  consistent s -> store_ok s -> store_ok (step e s).
Proof.
  intros Hc Hs. destruct e as [url quality now|id mkdir_failure|id result now
                               |id raises|now raises]; cbn [step].
  - apply store_ok_submit, Hs.
  - destruct (take id (created_tasks s)) as [[c rest]|] eqn:E; [|exact Hs].
    destruct (consistent_take_created s id c rest E Hc)
      as (Hid & _ & _ & Hlt & Hrec). subst id.
    apply store_ok_first_step; [|exact Hlt | exact Hrec].
    apply (store_ok_ext s); auto.
  - destruct (take id (awaiting_executor s)) as [[c rest]|] eqn:E; [|exact Hs].
    destruct (consistent_take_awaiting s id c rest E Hc)
      as (Hid & _ & _ & Hrec). subst id.
    apply store_ok_resume; [|exact Hrec].
    apply (store_ok_ext s); auto.
  - apply store_ok_cancel, Hs.
  - apply store_ok_cleanup, Hs.
Qed.

Lemma store_ok_run trace :
  forall s, consistent s -> store_ok s -> store_ok (run trace s).
Proof.
  induction trace as [|e trace IH]; intros s Hc Hs; [exact Hs|].
  cbn. apply IH; [apply consistent_step, Hc | apply store_ok_step; assumption].
Qed.

Lemma reachable_store_ok s : reachable s -> store_ok s.
Proof.
  intros [trace ->].
  apply store_ok_run; [apply consistent_initial | apply store_ok_initial].
Qed.

(* ================================================================== *)
(** * The flow invariant is kept *)
(* ================================================================== *)

Lemma sorted_remove (a b : list nat) (x : nat) :
  StronglySorted lt (a ++ x :: b) -> StronglySorted lt (a ++ b).
Proof.
  induction a as [|y a IH]; cbn; intros H.
  - inversion H; assumption.
  - inversion H as [|? ? Hs Hf]; subst. constructor; [auto|].
    rewrite Forall_app in *. destruct Hf as [Hf1 Hf2].
    inversion Hf2; auto.
Qed.

Lemma sorted_snoc (l : list nat) (n : nat) :
  StronglySorted lt l -> (forall y, In y l -> y < n) ->
  StronglySorted lt (l ++ [n]).
Proof.
  induction l as [|y l IH]; cbn; intros Hs Hlt.
  - repeat constructor.
  - inversion Hs as [|? ? Hs' Hf]; subst. constructor; [auto|].
    rewrite Forall_app. split; [exact Hf|]. repeat constructor. auto.
Qed.

Lemma remove_first_split x l :
  In x l -> exists a b, l = a ++ x :: b /\ remove_first x l = a ++ b.
Proof.
  induction l as [|y l IH]; cbn; [tauto|]. intros H.
  destruct (Nat.eqb_spec y x) as [->|Hne].
  - exists [], l. split; reflexivity.
  - destruct H as [H|H]; [congruence|].
    destruct (IH H) as (a & b & -> & ->).
    exists (y :: a), b. split; reflexivity.
Qed.

Lemma sorted_remove_first (a q : list nat) (x : nat) :
  StronglySorted lt (a ++ q) -> StronglySorted lt (a ++ remove_first x q).
Proof.
  intros H. destruct (in_dec Nat.eq_dec x q) as [Hin|Hnot].
  - destruct (remove_first_split x q Hin) as (q1 & q2 & -> & ->).
    rewrite app_assoc in *. exact (sorted_remove _ _ _ H).
  - rewrite remove_first_absent by exact Hnot. exact H.
Qed.

Lemma remove_first_length x l :
  List.length (remove_first x l) <= List.length l.
Proof.
  induction l as [|y l IH]; cbn; [lia|].
  destruct (Nat.eqb y x); cbn; lia.
Qed.

Lemma flow_ok_initial : flow_ok initial_state.
Proof.
  constructor; cbn.
  - unfold MAX_QUEUE_SIZE. lia.
  - constructor.
  - intros id H. discriminate H.
  - intros H. contradiction.
Qed.

Lemma flow_ok_ext s s' :
  queue s' = queue s -> processing_task_id s' = processing_task_id s ->
  created_tasks s' = created_tasks s ->
  awaiting_executor s' = awaiting_executor s ->
  flow_ok s -> flow_ok s'.
Proof.
  intros Hq Hp Hc Ha [H1 H2 H3 H4].
  constructor; rewrite ?Hq, ?Hp, ?Hc, ?Ha; assumption.
Qed.

(** [process_next_in_queue] with a head that can be started. *)
Lemma flow_ok_next x :
  (forall head rest, queue x = head :: rest ->
     exists t, PyDict.get head (tasks x) = Some t /\ t_status t = Queued) ->
  List.length (queue x) <= MAX_QUEUE_SIZE ->
  StronglySorted lt (map co_task_id (created_tasks x) ++ queue x) ->
  (forall id, processing_task_id x = Some id ->
     In id (map co_task_id (awaiting_executor x))) ->
  (processing_task_id x = None \/
   (queue x <> [] -> created_tasks x <> [] \/ awaiting_executor x <> [])) ->
  flow_ok (exec process_next_in_queue x).
Proof.
  intros Hhead Hb Ho Hf Hl. unfold exec.
  destruct (processing_task_id x) as [p|] eqn:Hp.
  { rewrite (next_busy _ _ Hp). cbn [snd].
    constructor;
      [exact Hb | exact Ho | intros id E; apply Hf; congruence
      | destruct Hl as [Hl|Hl]; [discriminate | exact Hl]]. }
  destruct (queue x) as [|head rest] eqn:Hq.
  { rewrite (next_empty _ Hq). cbn [snd].
    constructor; rewrite ?Hq, ?Hp;
      [exact Hb | exact Ho | intros id E; discriminate
      | intros H; contradiction]. }
  destruct (Hhead head rest eq_refl) as (t & Hg & Hs).
  rewrite (next_starts _ _ _ _ Hp Hq Hg Hs). cbn [snd].
  constructor; cbn.
  - cbn in Hb. lia.
  - rewrite map_app, <- app_assoc. exact Ho.
  - intros id H. rewrite Hp in H. discriminate H.
  - intros _. left. intros H. apply app_eq_nil in H. destruct H as [_ H].
    discriminate H.
Qed.

Lemma flow_ok_submit url quality now s :
  consistent s -> flow_ok s ->
  flow_ok (exec (create_download_task url quality now) s).
Proof.
  intros Hc Hs. unfold exec at 1. rewrite create_download_task_eq.
  destruct (Nat.leb_spec MAX_QUEUE_SIZE (List.length (queue s))) as [_|Hroom];
    [exact Hs|].
  cbn [snd].
  pose proof (consistent_enqueue url quality now s Hc) as Hc1.
  destruct Hs as [H1 H2 H3 H4].
  assert (Hq1 : queue (exec (enqueue_new_task url quality now) s) =
                queue s ++ [uuid_supply s])
    by (unfold exec; rewrite enqueue_new_task_eq; reflexivity).
  assert (Hp1 : processing_task_id (exec (enqueue_new_task url quality now) s) =
                processing_task_id s)
    by (unfold exec; rewrite enqueue_new_task_eq; reflexivity).
  assert (Hcr1 : created_tasks (exec (enqueue_new_task url quality now) s) =
                 created_tasks s)
    by (unfold exec; rewrite enqueue_new_task_eq; reflexivity).
  assert (Ha1 : awaiting_executor (exec (enqueue_new_task url quality now) s) =
                awaiting_executor s)
    by (unfold exec; rewrite enqueue_new_task_eq; reflexivity).
  assert (Hb1 : List.length (queue (exec (enqueue_new_task url quality now) s))
                <= MAX_QUEUE_SIZE)
    by (rewrite Hq1, length_app; cbn; lia).
  assert (Ho1 : StronglySorted lt
                  (map co_task_id
                     (created_tasks (exec (enqueue_new_task url quality now) s))
                   ++ queue (exec (enqueue_new_task url quality now) s))).
  { rewrite Hq1, Hcr1, app_assoc. apply sorted_snoc; [exact H2|].
    intros y Hy. apply (inv_fresh s Hc). unfold pending_ids.
    rewrite !in_app_iff in *. tauto. }
  assert (Hf1 : forall id,
            processing_task_id (exec (enqueue_new_task url quality now) s) =
              Some id ->
            In id (map co_task_id
                     (awaiting_executor
                        (exec (enqueue_new_task url quality now) s)))).
  { rewrite Hp1, Ha1. exact H3. }
  destruct (processing_task_id s) as [p|] eqn:Hp.
  - constructor; auto. intros _. right. rewrite Ha1.
    specialize (H3 p eq_refl). destruct (awaiting_executor s); [contradiction|].
    discriminate.
  - apply flow_ok_next; auto.
    intros head rest Hh. apply (inv_queue _ Hc1). rewrite Hh. left. reflexivity.
Qed.

(** The [finally] clause of a coroutine that is in no list any more. *)
Lemma flow_ok_finally x :
  (forall head rest, queue x = head :: rest ->
     exists t, PyDict.get head (tasks x) = Some t /\ t_status t = Queued) ->
  List.length (queue x) <= MAX_QUEUE_SIZE ->
  StronglySorted lt (map co_task_id (created_tasks x) ++ queue x) ->
  flow_ok (exec download_video_finally x).
Proof.
  intros Hhead Hb Ho. unfold download_video_finally, exec, bind, modify.
  apply (flow_ok_next (with_processing_task_id None x)); cbn; auto.
  intros id H. discriminate H.
Qed.

Lemma flow_ok_first_step c mkdir_failure s :
  consistent s -> ~ In (co_task_id c) (pending_ids s) ->
  List.length (queue s) <= MAX_QUEUE_SIZE ->
  StronglySorted lt (map co_task_id (created_tasks s) ++ queue s) ->
  flow_ok (download_video_first_step c mkdir_failure s).
Proof.
  intros Hc Hnot Hb Ho.
  assert (Hhead : forall f head rest, queue s = head :: rest ->
            exists t, PyDict.get head
                        (PyDict.update (co_task_id c) f (tasks s)) = Some t /\
                      t_status t = Queued).
  { intros f head rest Hq.
    assert (Hin : In head (queue s)) by (rewrite Hq; left; reflexivity).
    rewrite get_update_other; [apply (inv_queue s Hc), Hin|].
    intros E. apply Hnot. unfold pending_ids. rewrite E.
    apply in_or_app. left. exact Hin. }
  destruct (PyDict.get (co_task_id c) (tasks s)) as [t|] eqn:Hg.
  2:{ rewrite (first_step_gone c _ _ Hg). apply flow_ok_finally; auto.
      intros head rest Hq. apply (inv_queue s Hc). rewrite Hq. left. reflexivity. }
  destruct (detect_platform (co_url c)) eqn:Hp.
  4:{ rewrite (first_step_unknown c _ _ _ Hg Hp).
      apply flow_ok_finally; cbn;
        [intros head rest Hq; exact (Hhead _ head rest Hq) | exact Hb | exact Ho]. }
  all: assert (Hne : detect_platform (co_url c) <> unknown) by congruence.
  all: destruct mkdir_failure as [message|].
  all: try (rewrite (first_step_mkdir_failed c _ _ _ Hg Hne);
            apply flow_ok_finally; cbn;
        [intros head rest Hq; exact (Hhead _ head rest Hq) | exact Hb | exact Ho]).
  all: rewrite (first_step_parked c _ _ Hg Hne).
  all: constructor; cbn; auto.
  all: try (intros id E; inversion E; subst; rewrite map_app;
            apply in_or_app; right; left; reflexivity).
  all: intros _; right; intros E; apply app_eq_nil in E;
       destruct E as [_ E]; discriminate E.
Qed.

Lemma flow_ok_resume c result now s :
  consistent s -> ~ In (co_task_id c) (pending_ids s) ->
  List.length (queue s) <= MAX_QUEUE_SIZE ->
  StronglySorted lt (map co_task_id (created_tasks s) ++ queue s) ->
  flow_ok (download_video_resume c result now s).
Proof.
  intros Hc Hnot Hb Ho.
  assert (Hhead : forall f head rest, queue s = head :: rest ->
            exists t, PyDict.get head
                        (PyDict.update (co_task_id c) f (tasks s)) = Some t /\
                      t_status t = Queued).
  { intros f head rest Hq.
    assert (Hin : In head (queue s)) by (rewrite Hq; left; reflexivity).
    rewrite get_update_other; [apply (inv_queue s Hc), Hin|].
    intros E. apply Hnot. unfold pending_ids. rewrite E.
    apply in_or_app. left. exact Hin. }
  destruct (PyDict.get (co_task_id c) (tasks s)) as [t|] eqn:Hg.
  2:{ rewrite (resume_gone c _ _ _ Hg). apply flow_ok_finally; auto.
      intros head rest Hq. apply (inv_queue s Hc). rewrite Hq. left. reflexivity. }
  destruct result as [i files|message].
  - rewrite (resume_fetched c _ _ _ _ _ Hg).
    apply flow_ok_finally; cbn;
        [intros head rest Hq; exact (Hhead _ head rest Hq) | exact Hb | exact Ho].
  - rewrite (resume_failed c _ _ _ _ Hg).
    apply flow_ok_finally; cbn;
        [intros head rest Hq; exact (Hhead _ head rest Hq) | exact Hb | exact Ho].
Qed.

Lemma flow_ok_unqueue id s :
  flow_ok s -> flow_ok (with_queue (remove_first id (queue s)) s).
Proof.
  intros [H1 H2 H3 H4]. constructor; cbn.
  - pose proof (remove_first_length id (queue s)). lia.
  - apply sorted_remove_first, H2.
  - exact H3.
  - intros H. apply H4. intros E. rewrite E in H. apply H. reflexivity.
Qed.

Lemma flow_ok_cancel id raises s :
  flow_ok s -> flow_ok (exec (cancel_task id raises) s).
Proof.
  intros Hs. unfold exec.
  destruct (cancel_task_cases id raises s)
    as [[_ ->]|[(t & _ & _ & _ & ->)|(t & _ & _ & ->)]]; cbn [snd].
  - exact Hs.
  - apply flow_ok_unqueue, Hs.
  - apply (flow_ok_ext (with_queue (remove_first id (queue s)) s));
      try reflexivity.
    apply flow_ok_unqueue, Hs.
Qed.

Lemma flow_ok_cleanup now raises s :
  flow_ok s -> flow_ok (exec (cleanup_cycle now raises) s).
Proof.
  intros Hs.
  destruct (cleanup_cycle_cases now raises s) as (Hq & Hc & Ha & _ & Hp & _).
  exact (flow_ok_ext _ _ Hq Hp Hc Ha Hs).
Qed.

Lemma flow_ok_step e s :
  consistent s -> flow_ok s -> flow_ok (step e s).
Proof.
  intros Hc Hs. destruct e as [url quality now|id mkdir_failure|id result now
                               |id raises|now raises]; cbn [step].
  - apply flow_ok_submit; assumption.
  - destruct (take id (created_tasks s)) as [[c rest]|] eqn:E; [|exact Hs].
    destruct (consistent_take_created s id c rest E Hc)
      as (Hid & Hc0 & Hnot & _). subst id.
    destruct (take_split _ _ _ _ E) as (_ & l1 & l2 & Hl & ->).
    destruct Hs as [H1 H2 H3 H4].
    apply flow_ok_first_step; [exact Hc0 | exact Hnot | exact H1 |].
    cbn. rewrite Hl in H2. rewrite map_app in *. cbn [map] in H2.
    rewrite <- app_assoc in *. cbn [app] in H2.
    exact (sorted_remove _ _ _ H2).
  - destruct (take id (awaiting_executor s)) as [[c rest]|] eqn:E; [|exact Hs].
    destruct (consistent_take_awaiting s id c rest E Hc)
      as (Hid & Hc0 & Hnot & _). subst id.
    destruct Hs as [H1 H2 H3 H4].
    apply flow_ok_resume; [exact Hc0 | exact Hnot | exact H1 | exact H2].
  - apply flow_ok_cancel, Hs.
  - apply flow_ok_cleanup, Hs.
Qed.

Lemma flow_ok_run trace :
  forall s, consistent s -> flow_ok s -> flow_ok (run trace s).
Proof.
  induction trace as [|e trace IH]; intros s Hc Hs; [exact Hs|].
  cbn. apply IH; [apply consistent_step, Hc | apply flow_ok_step; assumption].
Qed.

Lemma reachable_flow_ok s : reachable s -> flow_ok s.
Proof.
  intros [trace ->].
  apply flow_ok_run; [apply consistent_initial | apply flow_ok_initial].
Qed.

(* ================================================================== *)
(** * Further properties of the scheduler *)
(* ================================================================== *)

Lemma queue_within_store s :
  consistent s -> List.length (queue s) <= List.length (tasks s).
Proof.
  intros Hc.
  assert (Hnd : NoDup (queue s)).
  { pose proof (inv_ids s Hc) as H. unfold pending_ids in H.
    exact (NoDup_app_remove_r _ _ H). }
  assert (Hincl : incl (queue s) (PyDict.keys (tasks s))).
  { intros k Hk. destruct (inv_queue s Hc k Hk) as (t & Hg & _).
    apply In_keys_get. eauto. }
  pose proof (NoDup_incl_length Hnd Hincl) as H.
  unfold PyDict.keys in H. rewrite length_map in H. exact H.
Qed.

(** X1.  In every reachable state GET /api/queue answers without
    changing anything, and the queue it shows holds at most
    [MAX_QUEUE_SIZE], that is 5, identifiers and never more identifiers
    than there are tasks in the store. *)
Theorem queue_status_within_capacity (s : state) :
  reachable s ->
  exists r,
    get_queue_status s = (Returns r, s) /\
    qs_queue r = queue s /\
    qs_queue_size r = List.length (qs_queue r) /\
    qs_max_queue_size r = 5 /\
    qs_queue_size r <= qs_max_queue_size r /\
    qs_queue_size r <= qs_total_tasks r.
Proof.
  intros Hr. eexists. split; [reflexivity|]. cbn.
  split; [reflexivity|]. split; [reflexivity|]. split; [reflexivity|].
  split.
  - exact (fo_bound s (reachable_flow_ok s Hr)).
  - exact (queue_within_store s (reachable_consistent s Hr)).
Qed.

Lemma queue_status_within_capacity_witness :
  exists r,
    get_queue_status (run [Submit sample_url 720 0; Submit sample_url 720 1]
                          initial_state) =
      (Returns r, run [Submit sample_url 720 0; Submit sample_url 720 1]
                      initial_state) /\
    qs_queue_size r <= 5.
Proof.
  destruct (queue_status_within_capacity
              (run [Submit sample_url 720 0; Submit sample_url 720 1]
                   initial_state))
    as (r & Hr & _ & _ & Hmax & Hle & _).
  - eexists. reflexivity.
  - exists r. split; [exact Hr|]. rewrite <- Hmax. exact Hle.
Defined.

(** X2.  In every reachable state the queue has no identifier twice and
    every identifier in it resolves to a record with status 'queued'.
    So the test [task and task['status'] == 'queued'] of
    [process_next_in_queue] never fails there: with no task being
    processed the call pops the head and creates its coroutine, with the
    url and quality of its record. *)
Theorem queue_never_stale (s : state) (head : task_id)
    (rest : list task_id) :
  reachable s -> queue s = head :: rest ->
  NoDup (queue s) /\
  (forall id, In id (queue s) ->
     exists t, PyDict.get id (tasks s) = Some t /\ t_status t = Queued) /\
  (processing_task_id s = None ->
   exists t,
     PyDict.get head (tasks s) = Some t /\
     exec process_next_in_queue s =
       with_created_tasks
         (created_tasks s ++
            [{| co_task_id := head; co_url := t_url t;
                co_quality := t_quality t |}])
         (with_queue rest s)).
Proof.
  intros Hr Hq. pose proof (reachable_consistent s Hr) as Hc.
  split.
  { pose proof (inv_ids s Hc) as H. unfold pending_ids in H.
    exact (NoDup_app_remove_r _ _ H). }
  split; [exact (inv_queue s Hc)|].
  intros Hp.
  destruct (inv_queue s Hc head) as (t & Hg & Hs);
    [rewrite Hq; left; reflexivity|].
  exists t. split; [exact Hg|].
  unfold exec. rewrite (next_starts _ _ _ _ Hp Hq Hg Hs). reflexivity.
Qed.

Lemma queue_never_stale_witness :
  let s := run [Submit sample_url 720 0; Start 0 None;
                Submit sample_url 480 1] initial_state in
  NoDup (queue s) /\
  exists t, PyDict.get 1 (tasks s) = Some t /\ t_status t = Queued.
Proof.
  cbv zeta.
  set (s := run [Submit sample_url 720 0; Start 0 None;
                 Submit sample_url 480 1] initial_state).
  assert (Hq : queue s = [1]) by (vm_compute; reflexivity).
  destruct (queue_never_stale s 1 [] (ex_intro _ _ eq_refl) Hq)
    as (Hnd & Hall & _).
  split; [exact Hnd|]. apply Hall. rewrite Hq. left. reflexivity.
Defined.

Lemma sorted_app_lt (a b : list nat) :
  StronglySorted lt (a ++ b) ->
  forall x y, In x a -> In y b -> x < y.
Proof.
  induction a as [|z a IH]; cbn; intros H x y Hx Hy; [contradiction|].
  inversion H as [|? ? Hs Hf]; subst.
  destruct Hx as [<-|Hx]; [|eauto].
  rewrite Forall_forall in Hf. apply Hf, in_or_app. right. exact Hy.
Qed.

(** X3.  Identifiers are issued in increasing order, so a smaller
    identifier is an earlier submission.  In every reachable state the
    coroutines that are created and not yet started, followed by the
    queue, are in strictly increasing order: every created coroutine is
    older than every queued task, and the head of the queue, the task
    that [process_next_in_queue] takes, is older than all that wait
    behind it. *)
Theorem waiting_tasks_in_submission_order (s : state) :
  reachable s ->
  StronglySorted lt (map co_task_id (created_tasks s) ++ queue s) /\
  (forall c id, In c (created_tasks s) -> In id (queue s) ->
                co_task_id c < id) /\
  (forall head rest, queue s = head :: rest ->
                     forall id, In id rest -> head < id) /\
  (forall id, In id (map co_task_id (created_tasks s) ++ queue s) ->
              id < uuid_supply s).
Proof.
  intros Hr. pose proof (fo_order s (reachable_flow_ok s Hr)) as Ho.
  split; [exact Ho|]. split; [|split].
  - intros c id Hc Hid. apply (sorted_app_lt _ _ Ho); [|exact Hid].
    apply in_map, Hc.
  - intros head rest Hq id Hid. rewrite Hq in Ho.
    apply (sorted_app_lt (map co_task_id (created_tasks s) ++ [head]) rest).
    + rewrite <- app_assoc. exact Ho.
    + apply in_or_app. right. left. reflexivity.
    + exact Hid.
  - intros id Hid. apply (inv_fresh s (reachable_consistent s Hr)).
    unfold pending_ids. rewrite !in_app_iff in *. tauto.
Qed.

Lemma waiting_tasks_in_submission_order_witness :
  let s := run [Submit sample_url 720 0; Start 0 None;
                Submit sample_url 480 1; Submit sample_url 360 2]
               initial_state in
  queue s = [1; 2] /\ forall id, In id [2] -> 1 < id.
Proof.
  cbv zeta.
  set (s := run [Submit sample_url 720 0; Start 0 None;
                 Submit sample_url 480 1; Submit sample_url 360 2]
                initial_state).
  assert (Hq : queue s = [1; 2]) by (vm_compute; reflexivity).
  destruct (waiting_tasks_in_submission_order s (ex_intro _ _ eq_refl))
    as (_ & _ & Hhead & _).
  split; [exact Hq | exact (Hhead 1 [2] Hq)].
Defined.

(** X4.  In every reachable state, when [processing_task_id] names a
    task, a coroutine of that task is suspended in the executor, the one
    whose [finally] clause will clear the flag; and when the queue is
    not empty, some coroutine is created or suspended, so that a later
    [finally] clause will call [process_next_in_queue]: a waiting task
    is never left without anything that will get to it. *)
Theorem queue_is_never_stranded (s : state) :
  reachable s ->
  (forall id, processing_task_id s = Some id ->
     exists c, In c (awaiting_executor s) /\ co_task_id c = id) /\
  (queue s <> [] -> created_tasks s <> [] \/ awaiting_executor s <> []).
Proof.
  intros Hr. pose proof (reachable_flow_ok s Hr) as [_ _ Hf Hl].
  split; [|exact Hl].
  intros id Hp. apply Hf, in_map_iff in Hp. destruct Hp as (c & Hc & Hin).
  eauto.
Qed.

Lemma queue_is_never_stranded_witness :
  let s := run [Submit sample_url 720 0; Start 0 None;
                Submit sample_url 480 1] initial_state in
  processing_task_id s = Some 0 /\
  exists c, In c (awaiting_executor s) /\ co_task_id c = 0.
Proof.
  cbv zeta.
  set (s := run [Submit sample_url 720 0; Start 0 None;
                 Submit sample_url 480 1] initial_state).
  assert (Hp : processing_task_id s = Some 0) by (vm_compute; reflexivity).
  destruct (queue_is_never_stranded s (ex_intro _ _ eq_refl)) as [Hf _].
  split; [exact Hp | exact (Hf 0 Hp)].
Defined.

(** X5.  What a record of a reachable state looks like, by status.  A
    queued task has progress 0 and no platform, file, video info, error
    or completion time.  A processing task has progress 30 and its
    platform, which is the classification of its URL and is not unknown;
    the values 10 and 20 are overwritten within the first step of
    [download_video] and never seen between steps.  A completed task has
    progress 100, its platform, no error, a completion time and a video
    info whose size is the placeholder when no file path was recorded and
    the formatted size of the file otherwise.  A failed task has an error
    message and no file path, video info or completion time. *)
Theorem records_by_status (s : state) (id : task_id) (t : task) :
  reachable s -> PyDict.get id (tasks s) = Some t ->
  t_task_id t = id /\
  (t_status t = Queued ->
     t_progress t = 0%Z /\ t_platform t = None /\ t_file_path t = None /\
     t_video_info t = None /\ t_error t = None /\ t_completed_at t = None) /\
  (t_status t = Processing ->
     t_progress t = 30%Z /\
     t_platform t = Some (detect_platform (t_url t)) /\
     detect_platform (t_url t) <> unknown /\
     t_file_path t = None /\ t_video_info t = None /\ t_error t = None /\
     t_completed_at t = None) /\
  (t_status t = Completed ->
     t_progress t = 100%Z /\
     t_platform t = Some (detect_platform (t_url t)) /\
     detect_platform (t_url t) <> unknown /\
     t_error t = None /\ t_completed_at t <> None /\
     exists v, t_video_info t = Some v /\
       ((t_file_path t = None /\ vi_size v = "Уточняется") \/
        (exists path size, t_file_path t = Some path /\
                           vi_size v = format_size size))) /\
  (t_status t = Error ->
     t_file_path t = None /\ t_video_info t = None /\
     t_completed_at t = None /\
     exists message, t_error t = Some message).
Proof.
  intros Hr Hg.
  pose proof (so_records s (reachable_store_ok s Hr) id t Hg) as [Hid Hsh].
  pose proof (inv_records s (reachable_consistent s Hr) id t Hg) as Hok.
  assert (Hnone : t_status t <> Completed -> t_completed_at t = None)
    by (apply record_ok_not_completed, Hok).
  split; [exact Hid|].
  split; [|split; [|split]]; intros Hs; rewrite Hs in Hsh.
  - destruct Hsh as (H1 & H2 & H3 & H4 & H5).
    repeat (split; [assumption|]). apply Hnone. congruence.
  - destruct Hsh as (H1 & H2 & H3 & H4 & H5 & H6).
    repeat (split; [assumption|]). apply Hnone. congruence.
  - destruct Hsh as (H1 & H2 & H3 & H4 & H5).
    repeat (split; [assumption|]). split; [|exact H5].
    apply (proj1 Hok). exact Hs.
  - destruct Hsh as (_ & H2 & H3 & H4).
    repeat (split; [assumption|]). split; [|exact H4].
    apply Hnone. congruence.
Qed.

Lemma records_by_status_witness :
  let s := run [Submit sample_url 720 0; Start 0 None] initial_state in
  exists t, PyDict.get 0 (tasks s) = Some t /\ t_progress t = 30%Z.
Proof.
  cbv zeta.
  set (s := run [Submit sample_url 720 0; Start 0 None] initial_state).
  assert (E : exists t, PyDict.get 0 (tasks s) = Some t /\
                        t_status t = Processing)
    by (vm_compute; eexists; split; reflexivity).
  destruct E as (t & Hg & Hs).
  destruct (records_by_status s 0 t (ex_intro _ _ eq_refl) Hg)
    as (_ & _ & Hp & _).
  exists t. split; [exact Hg | exact (proj1 (Hp Hs))].
Defined.

(** X6.  GET /api/status/{id} never changes the state.  For an unknown
    identifier it raises 404.  For a task of a reachable state it answers
    with the status and progress of the record; an 'error' key is there
    exactly for a failed task and then holds the stored message, never
    the fallback text; a 'video_info' key is there exactly for a
    completed task and then holds the stored video info, never the empty
    dict; and a task that is not queued gets no position. *)
Theorem status_response_by_status (s : state) (id : task_id) :
  reachable s ->
  snd (get_task_status id s) = s /\
  (PyDict.get id (tasks s) = None ->
     exists detail,
       fst (get_task_status id s) = Raises (HTTPException 404 detail)) /\
  (forall t, PyDict.get id (tasks s) = Some t ->
     exists r,
       fst (get_task_status id s) = Returns r /\
       sr_task_id r = id /\ sr_status r = t_status t /\
       sr_progress r = t_progress t /\
       (t_status t = Error ->
          exists message, t_error t = Some message /\
                          sr_error r = Some message) /\
       (t_status t <> Error -> sr_error r = None) /\
       (t_status t = Completed ->
          exists v, t_video_info t = Some v /\
                    sr_video_info r = Some (Some v)) /\
       (t_status t <> Completed -> sr_video_info r = None) /\
       (t_status t <> Queued -> sr_queue_position r = None)).
Proof.
  intros Hr. unfold get_task_status.
  destruct (PyDict.get id (tasks s)) as [t|] eqn:Hg; cbn [fst snd].
  2:{ split; [reflexivity|]. split; [eauto | discriminate]. }
  split; [reflexivity|]. split; [discriminate|].
  intros t0 E. inversion E; subst t0.
  pose proof (so_records s (reachable_store_ok s Hr) id t Hg) as [_ Hsh].
  eexists. split; [reflexivity|]. cbn.
  split; [reflexivity|]. split; [reflexivity|]. split; [reflexivity|].
  split.
  { intros Hs. rewrite Hs in Hsh. destruct Hsh as (_ & _ & _ & m & Hm).
    exists m. rewrite Hs, Hm. auto. }
  split.
  { intros Hs. destruct (t_status t); try reflexivity. contradiction. }
  split.
  { intros Hs. rewrite Hs in Hsh.
    destruct Hsh as (_ & _ & _ & _ & v & Hv & _).
    exists v. rewrite Hs, Hv. auto. }
  split.
  { intros Hs. destruct (t_status t); try reflexivity. contradiction. }
  intros Hs. destruct (t_status t); try reflexivity. contradiction.
Qed.

Lemma status_response_by_status_witness :
  let s := run [Submit "ftp://example.org/a" 720 0; Start 0 None]
               initial_state in
  exists r, fst (get_task_status 0 s) = Returns r /\
            sr_error r = Some unsupported_platform.
Proof.
  cbv zeta.
  set (s := run [Submit "ftp://example.org/a" 720 0; Start 0 None]
                initial_state).
  assert (E : exists t, PyDict.get 0 (tasks s) = Some t /\
                        t_status t = Error /\
                        t_error t = Some unsupported_platform)
    by (vm_compute; eexists; repeat split).
  destruct E as (t & Hg & Hs & He).
  destruct (status_response_by_status s 0 (ex_intro _ _ eq_refl))
    as (_ & _ & H).
  destruct (H t Hg) as (r & Hr & _ & _ & _ & Herr & _).
  destruct (Herr Hs) as (m & Hm & Hrm).
  exists r. split; [exact Hr|]. rewrite Hrm, <- Hm. exact He.
Defined.

(** X7.  In every reachable state each task directory that the server
    has made and not removed belongs to a record of the store, and that
    record is not queued any more: a directory is made by the first step
    of [download_video] only, and [cancel_task] and the cleanup remove
    the directory before they remove the record.  (What yt-dlp itself
    writes below [downloads] is not part of the state.) *)
Theorem directories_have_records (s : state) (d : task_id) :
  reachable s -> In d (download_dir s) ->
  exists t, PyDict.get d (tasks s) = Some t /\ t_status t <> Queued.
Proof.
  intros Hr Hd. exact (proj2 (so_dirs s (reachable_store_ok s Hr) d Hd)).
Qed.

Lemma directories_have_records_witness :
  let s := run [Submit sample_url 720 0; Start 0 None] initial_state in
  In 0 (download_dir s) /\
  exists t, PyDict.get 0 (tasks s) = Some t /\ t_status t <> Queued.
Proof.
  cbv zeta.
  set (s := run [Submit sample_url 720 0; Start 0 None] initial_state).
  assert (Hd : In 0 (download_dir s)) by (vm_compute; auto).
  split; [exact Hd|].
  exact (directories_have_records s 0 (ex_intro _ _ eq_refl) Hd).
Defined.

(** X8.  One cleanup cycle, at whatever time and whatever the file
    system refuses, leaves alone every task of a reachable state that is
    not completed: its record is the same after the cycle and its
    directory is there exactly if it was there before. *)
Theorem cleanup_spares_unfinished (s : state) (id : task_id) (t : task)
    (now : Z) (rmtree_raises : task_id -> bool) :
  reachable s -> PyDict.get id (tasks s) = Some t ->
  t_status t <> Completed ->
  let s' := exec (cleanup_cycle now rmtree_raises) s in
  PyDict.get id (tasks s') = Some t /\
  (In id (download_dir s') <-> In id (download_dir s)) /\
  queue s' = queue s /\ processing_task_id s' = processing_task_id s /\
  created_tasks s' = created_tasks s /\
  awaiting_executor s' = awaiting_executor s.
Proof.
  intros Hr Hg Hs. cbv zeta.
  pose proof (reachable_consistent s Hr) as Hc.
  assert (Hnot : ~ In id (expired_ids now (tasks s))).
  { intros H. apply expired_ids_In in H. destruct H as (t' & Hin & He).
    pose proof (In_get _ _ _ (inv_keys s Hc) Hin) as Hg'.
    rewrite Hg in Hg'. inversion Hg'; subst t'.
    pose proof (record_ok_not_completed t (inv_records s Hc id t Hg) Hs) as Hn.
    unfold expired in He. rewrite Hn in He. discriminate He. }
  destruct (cleanup_cycle_cases now rmtree_raises s)
    as (Hq & Hcr & Ha & _ & Hp & Hsub & Hkeep & Hcase).
  split.
  - destruct Hcase as [Ht|[Hget _]]; [rewrite Ht; exact Hg|].
    rewrite Hget. apply mem_not_In in Hnot. rewrite Hnot. exact Hg.
  - split; [split; [apply Hsub | intros H; apply Hkeep; assumption]|].
    auto.
Qed.

Lemma cleanup_spares_unfinished_witness :
  let s := run [Submit sample_url 720 0; Start 0 None] initial_state in
  exists t,
    PyDict.get 0 (tasks (exec (cleanup_cycle three_hours (fun _ => true)) s)) =
      Some t /\ t_status t = Processing.
Proof.
  cbv zeta.
  set (s := run [Submit sample_url 720 0; Start 0 None] initial_state).
  assert (E : exists t, PyDict.get 0 (tasks s) = Some t /\
                        t_status t = Processing)
    by (vm_compute; eexists; split; reflexivity).
  destruct E as (t & Hg & Hs).
  assert (Hne : t_status t <> Completed) by (rewrite Hs; discriminate).
  destruct (cleanup_spares_unfinished s 0 t three_hours (fun _ => true)
              (ex_intro _ _ eq_refl) Hg Hne) as [H _].
  exists t. split; [exact H | exact Hs].
Defined.

Lemma delete_tasks_In ids :
  forall s kv,
    In kv (tasks (exec (delete_tasks ids) s)) ->
    In kv (tasks s) /\ ~ In (fst kv) ids.
Proof.
  induction ids as [|id ids IH]; intros s kv H; [cbn in *; tauto|].
  cbn [delete_tasks] in H. unfold exec, bind, modify in H. cbn in H.
  apply (IH (with_tasks (PyDict.del id (tasks s)) s)) in H.
  destruct H as [H Hnot]. cbn in H. unfold PyDict.del in H.
  apply filter_In in H. destruct H as [Hin Hne].
  split; [exact Hin|]. cbn [In]. intros [E|E]; [|tauto].
  subst id. rewrite Nat.eqb_refl in Hne. discriminate Hne.
Qed.

Lemma cleanup_scan_nothing now raises items :
  forall acc s,
    (forall kv, In kv items -> expired now (snd kv) = false) ->
    cleanup_scan now raises items acc s = (Returns acc, s).
Proof.
  induction items as [|[id t] items IH]; intros acc s H; [reflexivity|].
  rewrite cleanup_scan_cons.
  pose proof (H (id, t) (or_introl eq_refl)) as He. cbn [snd] in He.
  rewrite He.
  apply IH. intros kv Hkv. apply H. right. exact Hkv.
Qed.

(** X9.  A cleanup cycle in which the file system refuses nothing leaves
    no task that a cycle at the same time would select: a second cycle at
    that time changes nothing, whatever the file system would refuse
    then. *)
Theorem cleanup_twice_is_cleanup_once (now : Z)
    (rmtree_raises again : task_id -> bool) (s : state) :
  (forall id t, In (id, t) (tasks s) -> expired now t = true ->
                In id (download_dir s) -> rmtree_raises id = false) ->
  let s' := exec (cleanup_cycle now rmtree_raises) s in
  (forall id t, In (id, t) (tasks s') -> expired now t = false) /\
  exec (cleanup_cycle now again) s' = s'.
Proof.
  intros Hok. cbv zeta.
  destruct (cleanup_scan_completes now rmtree_raises (tasks s) [] s Hok)
    as (s1 & Hs1 & (Ht & _) & _).
  rewrite (cleanup_cycle_after_scan _ _ _ _ _ Hs1). cbn [app].
  assert (Hnone : forall kv,
            In kv (tasks (exec (delete_tasks (expired_ids now (tasks s))) s1)) ->
            expired now (snd kv) = false).
  { intros [k t] Hin. apply delete_tasks_In in Hin. destruct Hin as [Hin Hnot].
    rewrite Ht in Hin. cbn [fst snd] in *.
    destruct (expired now t) eqn:E; [|reflexivity].
    exfalso. apply Hnot, expired_ids_In. eauto. }
  split; [intros id t Hin; exact (Hnone (id, t) Hin)|].
  apply (cleanup_cycle_after_scan _ _ _ [] _).
  apply cleanup_scan_nothing, Hnone.
Qed.

Lemma cleanup_twice_is_cleanup_once_witness :
  let s' := exec (cleanup_cycle three_hours (fun _ => false))
                 two_expired_state in
  tasks s' = [] /\
  exec (cleanup_cycle three_hours (fun _ => true)) s' = s'.
Proof.
  cbv zeta.
  destruct (cleanup_twice_is_cleanup_once three_hours (fun _ => false)
              (fun _ => true) two_expired_state (fun _ _ _ _ _ => eq_refl))
    as [_ H].
  split; [reflexivity | exact H].
Defined.



(** X11.  A coroutine of [download_video] whose task has been deleted in
    the meantime, when it runs its first step or is resumed with any
    result of the fetch, does nothing but its [finally] clause: no record
    comes back, no directory is made, no call goes to the executor,
    [processing_task_id] is cleared and [process_next_in_queue] is
    run. *)
Theorem deleted_task_coroutine_only_advances (c : coroutine) (s : state)
    (mkdir_failure : option string) (result : fetch_result) (now : Z) :
  PyDict.get (co_task_id c) (tasks s) = None ->
  let after := exec process_next_in_queue (with_processing_task_id None s) in
  download_video_first_step c mkdir_failure s = after /\
  download_video_resume c result now s = after /\
  tasks after = tasks s /\ download_dir after = download_dir s /\
  awaiting_executor after = awaiting_executor s /\
  processing_task_id after = None.
Proof.
  intros Hg. cbv zeta.
  rewrite (first_step_gone c _ _ Hg), (resume_gone c _ _ _ Hg).
  split; [reflexivity|]. split; [reflexivity|].
  destruct (next_frame (with_processing_task_id None s))
    as (Ht & Hp & Ha & Hd & _).
  rewrite Ht, Hp, Ha, Hd. auto.
Qed.

Lemma deleted_task_coroutine_only_advances_witness :
  let s := step (Cancel 0 false)
             (run [Submit sample_url 720 0; Start 0 None;
                   Submit sample_url 480 1] initial_state) in
  let c := {| co_task_id := 0; co_url := sample_url; co_quality := 720 |} in
  tasks (download_video_resume c (FetchFailed "late") 9 s) = tasks s.
Proof.
  cbv zeta.
  set (s := step (Cancel 0 false)
              (run [Submit sample_url 720 0; Start 0 None;
                    Submit sample_url 480 1] initial_state)).
  assert (Hg : PyDict.get 0 (tasks s) = None) by (vm_compute; reflexivity).
  destruct (deleted_task_coroutine_only_advances
              {| co_task_id := 0; co_url := sample_url; co_quality := 720 |}
              s None (FetchFailed "late") 9 Hg) as (_ & Hres & Ht & _).
  rewrite Hres. exact Ht.
Defined.

Lemma index_app_last x l : ~ In x l -> index x (l ++ [x]) = List.length l.
Proof.
  induction l as [|y l IH]; cbn; intros H.
  - rewrite Nat.eqb_refl. reflexivity.
  - destruct (Nat.eqb_spec y x) as [->|Hne]; [tauto|].
    rewrite IH by tauto. reflexivity.
Qed.

(** X12.  When a request is accepted in a reachable state while
    [processing_task_id] names a task, the new task stays last in the
    queue, and the [queue_position] that the POST answers is the one that
    GET /api/status reports for it right after: the length of the queue
    with the new task in it. *)
Theorem submit_position_is_status_position (url : string)
    (quality now : Z) (s : state) (busy : task_id) :
  reachable s -> processing_task_id s = Some busy ->
  List.length (queue s) < MAX_QUEUE_SIZE ->
  exists r,
    fst (create_download_task url quality now s) = Returns r /\
    let s' := exec (create_download_task url quality now) s in
    queue s' = queue s ++ [dr_task_id r] /\
    dr_queue_position r = List.length (queue s') /\
    queue_position (dr_task_id r) s' = Some (dr_queue_position r).
Proof.
  intros Hr Hp Hroom. pose proof (reachable_consistent s Hr) as Hc.
  unfold exec. rewrite create_download_task_eq.
  destruct (Nat.leb_spec MAX_QUEUE_SIZE (List.length (queue s))); [lia|].
  cbv zeta. rewrite Hp. cbn [fst snd].
  eexists. split; [reflexivity|]. cbn [dr_task_id dr_queue_position].
  unfold exec. rewrite enqueue_new_task_eq. cbn [snd].
  assert (Hnot : ~ In (uuid_supply s) (queue s)).
  { intros Hinq.
    assert (Hin : In (uuid_supply s) (pending_ids s))
      by (unfold pending_ids; apply in_or_app; auto).
    apply (inv_fresh s Hc) in Hin. lia. }
  split; [reflexivity|].
  split; [cbn [queue with_queue with_tasks with_uuid_supply];
          rewrite length_app, Nat.add_1_r; reflexivity|].
  rewrite (queue_position_queued _ _ (new_task (uuid_supply s) url quality now)).
  - cbn [queue with_queue with_tasks with_uuid_supply].
    rewrite Nat.add_1_r. do 2 f_equal. exact (index_app_last _ _ Hnot).
  - cbn. rewrite get_set, Nat.eqb_refl. reflexivity.
  - reflexivity.
  - cbn. apply in_or_app. right. left. reflexivity.
Qed.

Lemma submit_position_is_status_position_witness :
  let s := run [Submit sample_url 720 0; Start 0 None] initial_state in
  exists r,
    fst (create_download_task sample_url 480 1 s) = Returns r /\
    queue_position (dr_task_id r)
      (exec (create_download_task sample_url 480 1) s) =
    Some (dr_queue_position r).
Proof.
  cbv zeta.
  set (s := run [Submit sample_url 720 0; Start 0 None] initial_state).
  assert (Hp : processing_task_id s = Some 0) by (vm_compute; reflexivity).
  assert (Hl : List.length (queue s) < MAX_QUEUE_SIZE)
    by (vm_compute; lia).
  destruct (submit_position_is_status_position sample_url 480 1 s 0
              (ex_intro _ _ eq_refl) Hp Hl) as (r & Hr & H).
  cbv zeta in H. exists r. split; [exact Hr | exact (proj2 (proj2 H))].
Defined.

(* ================================================================== *)
(** * Records only move forward *)
(* ================================================================== *)

Lemma evolves_refl t : evolves t t.
Proof. unfold evolves. repeat split; auto; lia. Qed.

Lemma evolves_trans t1 t2 t3 : evolves t1 t2 -> evolves t2 t3 -> evolves t1 t3.
Proof.
  unfold evolves.
  intros (A1 & A2 & A3 & A4 & A5 & A6 & A7) (B1 & B2 & B3 & B4 & B5 & B6 & B7).
  repeat split; try congruence; try lia.
  intros H. rewrite (A7 H) in *. apply B7. exact H.
Qed.

Lemma evolves_start t (f : task -> task) :
  t_status t = Queued -> t_progress t = 0%Z ->
  t_task_id (f t) = t_task_id t -> t_url (f t) = t_url t ->
  t_quality (f t) = t_quality t -> t_created_at (f t) = t_created_at t ->
  (0 <= t_progress (f t))%Z ->
  evolves t (f t).
Proof.
  intros Hs Hp H1 H2 H3 H4 H5. unfold evolves. rewrite Hs, Hp. cbn.
  repeat split; auto; try lia; try discriminate.
Qed.

Lemma evolves_finish t (f : task -> task) :
  t_status t = Processing -> t_progress t = 30%Z ->
  t_task_id (f t) = t_task_id t -> t_url (f t) = t_url t ->
  t_quality (f t) = t_quality t -> t_created_at (f t) = t_created_at t ->
  status_rank (t_status (f t)) = 2 -> (30 <= t_progress (f t))%Z ->
  evolves t (f t).
Proof.
  intros Hs Hp H1 H2 H3 H4 H5 H6. unfold evolves. rewrite Hs, Hp, H5. cbn.
  repeat split; auto; try lia; try discriminate.
Qed.

Lemma record_change_update s x id (f : task -> task) :
  tasks x = PyDict.update (co_task_id id) f (tasks s) ->
  (forall t, PyDict.get (co_task_id id) (tasks s) = Some t -> evolves t (f t)) ->
  forall k, record_change s x k.
Proof.
  intros Ht Hf k. unfold record_change. rewrite Ht, get_update.
  destruct (Nat.eqb_spec (co_task_id id) k) as [<-|Hne]; [|auto].
  destruct (PyDict.get (co_task_id id) (tasks s)) as [t|] eqn:E; cbn; [|auto].
  right. right. left. exists t, (f t). auto.
Qed.

Lemma record_change_first_step c mkdir_failure s :
  (forall t, PyDict.get (co_task_id c) (tasks s) = Some t ->
     t_status t = Queued /\ t_progress t = 0%Z) ->
  forall k, record_change s (download_video_first_step c mkdir_failure s) k.
Proof.
  intros Hrec.
  destruct (PyDict.get (co_task_id c) (tasks s)) as [t|] eqn:Hg.
  2:{ intros k. left. rewrite (first_step_gone c _ _ Hg).
      destruct (finally_frame s) as (Ht & _). rewrite Ht. reflexivity. }
  assert (Hev : forall f,
            (forall t0, t_task_id (f t0) = t_task_id t0) ->
            (forall t0, t_url (f t0) = t_url t0) ->
            (forall t0, t_quality (f t0) = t_quality t0) ->
            (forall t0, t_created_at (f t0) = t_created_at t0) ->
            (forall t0, (0 <= t_progress (f t0))%Z) ->
            forall t0, PyDict.get (co_task_id c) (tasks s) = Some t0 ->
                       evolves t0 (f t0)).
  { intros f F1 F2 F3 F4 F5 t0 Ht0. rewrite Hg in Ht0.
    destruct (Hrec t0 Ht0) as [Hs Hp].
    apply evolves_start; auto. }
  destruct (detect_platform (co_url c)) eqn:Hp.
  4:{ apply (record_change_update s _ c
               (fun t => mark_failed unsupported_platform (mark_started t))).
      - rewrite (first_step_unknown c _ _ _ Hg Hp).
        match goal with
        | |- context [exec download_video_finally ?x] =>
            destruct (finally_frame x) as (Ht & _); rewrite Ht
        end. reflexivity.
      - apply Hev; intros; cbn; auto; lia. }
  all: assert (Hne : detect_platform (co_url c) <> unknown) by congruence.
  all: destruct mkdir_failure as [message|].
  all: try (apply (record_change_update s _ c
                     (fun t => mark_failed message
                                 (mark_resolved (detect_platform (co_url c)) t)));
            [ rewrite (first_step_mkdir_failed c _ _ _ Hg Hne);
              match goal with
              | |- context [exec download_video_finally ?x] =>
                  destruct (finally_frame x) as (Ht & _); rewrite Ht
              end; rewrite Hp; reflexivity
            | rewrite Hp; apply Hev; intros; cbn; auto; lia ]).
  all: apply (record_change_update s _ c
                (mark_parked (detect_platform (co_url c))));
       [ rewrite (first_step_parked c _ _ Hg Hne); reflexivity
       | apply Hev; intros; cbn; auto; lia ].
Qed.

Lemma record_change_resume c result now s :
  (forall t, PyDict.get (co_task_id c) (tasks s) = Some t ->
     t_status t = Processing /\ t_progress t = 30%Z) ->
  forall k, record_change s (download_video_resume c result now s) k.
Proof.
  intros Hrec.
  destruct (PyDict.get (co_task_id c) (tasks s)) as [t|] eqn:Hg.
  2:{ intros k. left. rewrite (resume_gone c _ _ _ Hg).
      destruct (finally_frame s) as (Ht & _). rewrite Ht. reflexivity. }
  destruct result as [i files|message].
  - rewrite (resume_fetched c _ _ _ _ _ Hg).
    match goal with
    | |- context [PyDict.update _ ?f _] =>
        apply (record_change_update s _ c f)
    end.
    + match goal with
      | |- context [exec download_video_finally ?x] =>
          destruct (finally_frame x) as (Ht & _); rewrite Ht
      end. reflexivity.
    + intros t0 Ht0. rewrite Hg in Ht0. destruct (Hrec t0 Ht0) as [Hs Hp].
      apply evolves_finish; auto; try (destruct files as [|[f sz] fs]; reflexivity).
      destruct files as [|[f sz] fs]; cbn; lia.
  - rewrite (resume_failed c _ _ _ _ Hg).
    apply (record_change_update s _ c (mark_failed message)).
    + match goal with
      | |- context [exec download_video_finally ?x] =>
          destruct (finally_frame x) as (Ht & _); rewrite Ht
      end. reflexivity.
    + intros t0 Ht0. rewrite Hg in Ht0. destruct (Hrec t0 Ht0) as [Hs Hp].
      apply evolves_finish; auto. cbn. lia.
Qed.

Lemma record_change_step e s :
  consistent s -> store_ok s -> forall k, record_change s (step e s) k.
Proof.
  intros Hc Hs k.
  destruct e as [url quality now|id mkdir_failure|id result now
                 |id raises|now raises]; cbn [step].
  - unfold exec. rewrite create_download_task_eq.
    destruct (Nat.leb MAX_QUEUE_SIZE (List.length (queue s)));
      [left; reflexivity|].
    cbn [snd].
    assert (Ht : tasks (match processing_task_id s with
                        | Some _ => exec (enqueue_new_task url quality now) s
                        | None => exec process_next_in_queue
                                    (exec (enqueue_new_task url quality now) s)
                        end) =
                 PyDict.set (uuid_supply s)
                   (new_task (uuid_supply s) url quality now) (tasks s)).
    { destruct (processing_task_id s).
      - unfold exec. rewrite enqueue_new_task_eq. reflexivity.
      - destruct (next_frame (exec (enqueue_new_task url quality now) s))
          as (Hn & _). rewrite Hn.
        unfold exec. rewrite enqueue_new_task_eq. reflexivity. }
    unfold record_change. unfold exec in Ht. unfold exec. rewrite Ht, get_set.
    destruct (Nat.eqb_spec (uuid_supply s) k) as [<-|Hne]; [|auto].
    right. left. split; [reflexivity|].
    apply get_None_keys. intros Hin. apply (inv_store_fresh s Hc) in Hin. lia.
  - destruct (take id (created_tasks s)) as [[c rest]|] eqn:E;
      [|left; reflexivity].
    destruct (consistent_take_created s id c rest E Hc)
      as (Hid & _ & _ & _ & Hrec). subst id.
    apply (record_change_first_step c mkdir_failure (with_created_tasks rest s)).
    intros t Ht. cbn in Ht. destruct (Hrec t Ht) as (Hq & _).
    split; [exact Hq|].
    pose proof (so_records s Hs _ _ Ht) as [_ Hsh]. rewrite Hq in Hsh.
    exact (proj1 Hsh).
  - destruct (take id (awaiting_executor s)) as [[c rest]|] eqn:E;
      [|left; reflexivity].
    destruct (consistent_take_awaiting s id c rest E Hc)
      as (Hid & _ & _ & Hrec). subst id.
    apply (record_change_resume c result now (with_awaiting_executor rest s)).
    intros t Ht. cbn in Ht. destruct (Hrec t Ht) as (Hq & _).
    split; [exact Hq|].
    pose proof (so_records s Hs _ _ Ht) as [_ Hsh]. rewrite Hq in Hsh.
    exact (proj1 Hsh).
  - unfold exec, record_change.
    destruct (cancel_task_cases id raises s)
      as [[_ ->]|[(t & _ & _ & _ & ->)|(t & _ & _ & ->)]]; cbn [snd];
      [left; reflexivity | left; reflexivity|].
    cbn. rewrite get_del. destruct (Nat.eqb id k); auto.
  - unfold record_change.
    destruct (cleanup_cycle_cases now raises s)
      as (_ & _ & _ & _ & _ & _ & _ & [Ht|[Hget _]]).
    + left. rewrite Ht. reflexivity.
    + rewrite Hget. destruct (mem k (expired_ids now (tasks s))); auto.
Qed.

Lemma uuid_supply_step e s : uuid_supply s <= uuid_supply (step e s).
Proof.
  destruct e as [url quality now|id mkdir_failure|id result now
                 |id raises|now raises]; cbn [step].
  - unfold exec. rewrite create_download_task_eq.
    destruct (Nat.leb MAX_QUEUE_SIZE (List.length (queue s))); [cbn; lia|].
    cbn [snd]. destruct (processing_task_id s).
    + unfold exec. rewrite enqueue_new_task_eq. cbn. lia.
    + destruct (next_frame (exec (enqueue_new_task url quality now) s))
        as (_ & _ & _ & _ & Hu). rewrite Hu.
      unfold exec. rewrite enqueue_new_task_eq. cbn. lia.
  - destruct (take id (created_tasks s)) as [[c rest]|]; [|lia].
    unfold download_video_first_step.
    destruct (PyDict.get (co_task_id c) (tasks (with_created_tasks rest s)))
      as [t|] eqn:Hg.
    + rewrite (before_await_present c _ _ _ Hg). cbv zeta.
      destruct (platform_eqb (detect_platform (co_url c)) unknown);
        [|destruct mkdir_failure].
      all: try (rewrite exec_try_finally;
                match goal with
                | |- context [exec download_video_finally ?x] =>
                    destruct (finally_frame x) as (_ & _ & _ & Hu); rewrite Hu
                end;
                unfold exec;
                erewrite except_present
                  by (cbn; apply get_update_same; exact Hg);
                cbn; lia).
      cbn. lia.
    + rewrite (before_await_gone c _ _ Hg), exec_try_finally.
      match goal with
      | |- context [exec download_video_finally ?x] =>
          destruct (finally_frame x) as (_ & _ & _ & Hu); rewrite Hu
      end.
      unfold exec. rewrite (except_gone c _ _ Hg). cbn. lia.
  - destruct (take id (awaiting_executor s)) as [[c rest]|]; [|lia].
    destruct (PyDict.get (co_task_id c) (tasks (with_awaiting_executor rest s)))
      as [t|] eqn:Hg.
    + destruct result as [i files|message].
      * rewrite (resume_fetched c _ _ _ _ _ Hg).
        match goal with
        | |- context [exec download_video_finally ?x] =>
            destruct (finally_frame x) as (_ & _ & _ & Hu); rewrite Hu
        end. cbn. lia.
      * rewrite (resume_failed c _ _ _ _ Hg).
        match goal with
        | |- context [exec download_video_finally ?x] =>
            destruct (finally_frame x) as (_ & _ & _ & Hu); rewrite Hu
        end. cbn. lia.
    + rewrite (resume_gone c _ _ _ Hg).
      match goal with
      | |- context [exec download_video_finally ?x] =>
          destruct (finally_frame x) as (_ & _ & _ & Hu); rewrite Hu
      end. cbn. lia.
  - unfold exec.
    destruct (cancel_task_cases id raises s)
      as [[_ ->]|[(t & _ & _ & _ & ->)|(t & _ & _ & ->)]]; cbn; lia.
  - destruct (cleanup_cycle_cases now raises s) as (_ & _ & _ & Hu & _).
    rewrite Hu. lia.
Qed.

Lemma deleted_stays_deleted trace :
  forall s id,
    consistent s -> store_ok s -> id < uuid_supply s ->
    PyDict.get id (tasks s) = None ->
    PyDict.get id (tasks (run trace s)) = None.
Proof.
  induction trace as [|e trace IH]; intros s id Hc Hs Hlt Hg; [exact Hg|].
  cbn. apply IH.
  - apply consistent_step, Hc.
  - apply store_ok_step; assumption.
  - pose proof (uuid_supply_step e s). lia.
  - destruct (record_change_step e s Hc Hs id)
      as [E|[[E _]|[(t & t' & E & _)|E]]]; try congruence; lia.
Qed.

Lemma records_evolve trace :
  forall s id t t',
    consistent s -> store_ok s ->
    PyDict.get id (tasks s) = Some t ->
    PyDict.get id (tasks (run trace s)) = Some t' ->
    evolves t t'.
Proof.
  induction trace as [|e trace IH]; intros s id t t' Hc Hs Hg Hg'.
  - cbn in Hg'. rewrite Hg in Hg'. inversion Hg'. apply evolves_refl.
  - change (run (e :: trace) s) with (run trace (step e s)) in Hg'.
    assert (Hlt : id < uuid_supply s).
    { apply (inv_store_fresh s Hc), In_keys_get. eauto. }
    pose proof (consistent_step e s Hc) as Hc1.
    pose proof (store_ok_step e s Hc Hs) as Hs1.
    destruct (PyDict.get id (tasks (step e s))) as [t1|] eqn:E1.
    + apply (evolves_trans t t1 t'); [|exact (IH _ _ _ _ Hc1 Hs1 E1 Hg')].
      destruct (record_change_step e s Hc Hs id)
        as [E|[[E _]|[(u & u' & Eu & Eu' & Hev)|E]]]; try congruence; try lia.
      rewrite E1, Hg in E. inversion E. apply evolves_refl.
    + rewrite (deleted_stays_deleted trace (step e s) id Hc1 Hs1) in Hg';
        [discriminate | | exact E1].
      pose proof (uuid_supply_step e s). lia.
Qed.

(** X13.  From a reachable state on, the record of a task only moves
    forward.  Its identifier, url, requested quality and creation time
    never change; its status never goes back (queued, then processing,
    then completed or error); its progress never decreases; and once the
    task is completed or failed its record never changes again, until it
    is deleted. *)
Theorem records_only_move_forward (s : state) (trace : list event)
    (id : task_id) (t t' : task) :
  reachable s ->
  PyDict.get id (tasks s) = Some t ->
  PyDict.get id (tasks (run trace s)) = Some t' ->
  t_task_id t' = t_task_id t /\ t_url t' = t_url t /\
  t_quality t' = t_quality t /\ t_created_at t' = t_created_at t /\
  status_rank (t_status t) <= status_rank (t_status t') /\
  (t_progress t <= t_progress t')%Z /\
  (t_status t = Completed \/ t_status t = Error -> t' = t).
Proof.
  intros Hr Hg Hg'.
  pose proof (records_evolve trace s id t t' (reachable_consistent s Hr)
                (reachable_store_ok s Hr) Hg Hg')
    as (H1 & H2 & H3 & H4 & H5 & H6 & H7).
  repeat (split; [assumption|]).
  intros [E|E]; apply H7; rewrite E; reflexivity.
Qed.

Lemma records_only_move_forward_witness :
  let s := run [Submit sample_url 1080 0] initial_state in
  let trace := [Start 0 None; Finish 0 (FetchFailed "network") 7] in
  exists t t',
    PyDict.get 0 (tasks s) = Some t /\
    PyDict.get 0 (tasks (run trace s)) = Some t' /\
    t_quality t' = t_quality t /\ (t_progress t <= t_progress t')%Z.
Proof.
  cbv zeta.
  set (s := run [Submit sample_url 1080 0] initial_state).
  assert (E : exists t, PyDict.get 0 (tasks s) = Some t)
    by (vm_compute; eexists; reflexivity).
  assert (E' : exists t',
            PyDict.get 0
              (tasks (run [Start 0 None; Finish 0 (FetchFailed "network") 7] s))
            = Some t')
    by (vm_compute; eexists; reflexivity).
  destruct E as (t & Hg). destruct E' as (t' & Hg').
  destruct (records_only_move_forward s _ 0 t t' (ex_intro _ _ eq_refl) Hg Hg')
    as (_ & _ & Hq & _ & _ & Hp & _).
  exists t, t'. auto.
Defined.

(** X14.  An identifier that has been issued and is not in the store of
    a reachable state never comes back: whatever happens afterwards, no
    record is stored under it again.  A deleted task stays deleted, and
    [uuid4] never hands out its identifier a second time. *)
Theorem deleted_task_never_returns (s : state) (trace : list event)
    (id : task_id) :
  reachable s -> id < uuid_supply s ->
  PyDict.get id (tasks s) = None ->
  PyDict.get id (tasks (run trace s)) = None /\
  ~ In id (queue (run trace s)).
Proof.
  intros Hr Hlt Hg.
  pose proof (deleted_stays_deleted trace s id (reachable_consistent s Hr)
                (reachable_store_ok s Hr) Hlt Hg) as Hnone.
  split; [exact Hnone|].
  intros Hin.
  pose proof (consistent_run trace s (reachable_consistent s Hr)) as Hc.
  destruct (inv_queue _ Hc id Hin) as (t & Ht & _). congruence.
Qed.

Lemma deleted_task_never_returns_witness :
  let s := run [Submit sample_url 720 0; Cancel 0 false] initial_state in
  PyDict.get 0 (tasks (run [Start 0 None; Submit sample_url 720 1] s)) = None.
Proof.
  cbv zeta.
  set (s := run [Submit sample_url 720 0; Cancel 0 false] initial_state).
  assert (Hlt : 0 < uuid_supply s) by (vm_compute; lia).
  assert (Hg : PyDict.get 0 (tasks s) = None) by (vm_compute; reflexivity).
  exact (proj1 (deleted_task_never_returns s
                  [Start 0 None; Submit sample_url 720 1] 0
                  (ex_intro _ _ eq_refl) Hlt Hg)).
Defined.

(* ================================================================== *)
(** * No unfinished task is lost *)
(* ================================================================== *)

Lemma held_mono s s' id t :
  (In id (queue s) \/ In id (map co_task_id (created_tasks s)) ->
   In id (queue s') \/ In id (map co_task_id (created_tasks s'))) ->
  (In id (map co_task_id (awaiting_executor s)) ->
   In id (map co_task_id (awaiting_executor s'))) ->
  held s id t -> held s' id t.
Proof.
  intros Hq Ha. unfold held. destruct (t_status t); auto.
Qed.

Lemma tracked_initial : tracked initial_state.
Proof. intros id t H. discriminate H. Qed.

Lemma tracked_next x : tracked x -> tracked (exec process_next_in_queue x).
Proof.
  intros Ht. unfold exec.
  destruct (processing_task_id x) as [p|] eqn:Hp.
  { rewrite (next_busy _ _ Hp). exact Ht. }
  destruct (queue x) as [|head rest] eqn:Hq.
  { rewrite (next_empty _ Hq). exact Ht. }
  destruct (PyDict.get head (tasks x)) as [t|] eqn:Hg.
  - destruct (status_eqb (t_status t) Queued) eqn:Hs.
    + assert (Hs' : t_status t = Queued)
        by (destruct (t_status t); try discriminate; reflexivity).
      rewrite (next_starts _ _ _ _ Hp Hq Hg Hs'). cbn [snd].
      intros id u Hu. cbn in Hu.
      apply (held_mono x); [| auto | exact (Ht id u Hu)].
      cbn. rewrite Hq, map_app, in_app_iff. cbn. tauto.
    + rewrite (next_drops _ _ _ Hp Hq)
        by (intros u Hu E; rewrite Hg in Hu; inversion Hu; subst u;
            rewrite E in Hs; discriminate Hs).
      cbn [snd]. intros id u Hu. cbn in Hu.
      pose proof (Ht id u Hu) as H. unfold held in *. cbn.
      destruct (t_status u) eqn:Eu; auto.
      rewrite Hq in H. destruct H as [[<-|H]|H]; auto.
      rewrite Hg in Hu. inversion Hu; subst u. rewrite Eu in Hs.
      discriminate Hs.
  - rewrite (next_drops _ _ _ Hp Hq)
      by (intros u Hu; rewrite Hg in Hu; discriminate Hu).
    cbn [snd]. intros id u Hu. cbn in Hu.
    pose proof (Ht id u Hu) as H. unfold held in *. cbn.
    destruct (t_status u) eqn:Eu; auto.
    rewrite Hq in H. destruct H as [[<-|H]|H]; auto.
    rewrite Hg in Hu. discriminate Hu.
Qed.

Lemma tracked_finally x :
  tracked x -> tracked (exec download_video_finally x).
Proof.
  intros Ht. unfold download_video_finally, exec, bind, modify.
  apply (tracked_next (with_processing_task_id None x)). exact Ht.
Qed.

(** A record that has reached a final status needs no holder. *)
Lemma tracked_settle k (f : task -> task) s :
  (forall t, t_status (f t) = Error \/ t_status (f t) = Completed) ->
  tracked_but k s ->
  tracked (with_tasks (PyDict.update k f (tasks s)) s).
Proof.
  intros Hf Ht id u Hu. cbn in Hu. rewrite get_update in Hu.
  destruct (Nat.eqb_spec k id) as [<-|Hne].
  - destruct (PyDict.get k (tasks s)) as [t|]; [|discriminate Hu].
    cbn in Hu. inversion Hu; subst u. unfold held.
    destruct (Hf t) as [-> | ->]; exact I.
  - apply (held_mono s); [auto | auto |].
    apply Ht; [congruence | exact Hu].
Qed.

Lemma tracked_but_gone k s :
  PyDict.get k (tasks s) = None -> tracked_but k s -> tracked s.
Proof.
  intros Hg Ht id t Hi. apply Ht; [|exact Hi]. intros ->. congruence.
Qed.

Lemma tracked_first_step c mkdir_failure s :
  tracked_but (co_task_id c) s ->
  tracked (download_video_first_step c mkdir_failure s).
Proof.
  intros Ht.
  destruct (PyDict.get (co_task_id c) (tasks s)) as [t|] eqn:Hg.
  2:{ rewrite (first_step_gone c _ _ Hg).
      apply tracked_finally, (tracked_but_gone _ _ Hg Ht). }
  destruct (detect_platform (co_url c)) eqn:Hp.
  4:{ rewrite (first_step_unknown c _ _ _ Hg Hp).
      apply tracked_finally.
      apply (tracked_settle (co_task_id c)
               (fun t => mark_failed unsupported_platform (mark_started t))
               (with_processing_task_id (Some (co_task_id c)) s));
        [intros u; left; reflexivity | exact Ht]. }
  all: assert (Hne : detect_platform (co_url c) <> unknown) by congruence.
  all: destruct mkdir_failure as [message|].
  all: try (rewrite (first_step_mkdir_failed c _ _ _ Hg Hne);
            apply tracked_finally;
            apply (tracked_settle (co_task_id c)
                     (fun t => mark_failed message
                                 (mark_resolved (detect_platform (co_url c)) t))
                     (with_processing_task_id (Some (co_task_id c)) s));
            [intros u; left; reflexivity | exact Ht]).
  all: rewrite (first_step_parked c _ _ Hg Hne).
  all: intros id u Hu; cbn in Hu; rewrite get_update in Hu.
  all: destruct (Nat.eqb_spec (co_task_id c) id) as [<-|Hn];
       [ rewrite Hg in Hu; cbn in Hu; inversion Hu; subst u;
         unfold held; cbn; rewrite map_app, in_app_iff; cbn; auto
       | apply (held_mono s);
         [ auto
         | intros Hy; cbn; rewrite map_app, in_app_iff; auto
         | apply Ht; [congruence | exact Hu] ] ].
Qed.

Lemma tracked_resume c result now s :
  tracked_but (co_task_id c) s ->
  tracked (download_video_resume c result now s).
Proof.
  intros Ht.
  destruct (PyDict.get (co_task_id c) (tasks s)) as [t|] eqn:Hg.
  2:{ rewrite (resume_gone c _ _ _ Hg).
      apply tracked_finally, (tracked_but_gone _ _ Hg Ht). }
  destruct result as [i files|message].
  - rewrite (resume_fetched c _ _ _ _ _ Hg).
    apply tracked_finally, tracked_settle; [|exact Ht].
    intros u. right. reflexivity.
  - rewrite (resume_failed c _ _ _ _ Hg).
    apply tracked_finally, tracked_settle; [|exact Ht].
    intros u. left. reflexivity.
Qed.

Lemma tracked_take_created s c l1 l2 :
  created_tasks s = l1 ++ c :: l2 ->
  tracked s -> tracked_but (co_task_id c) (with_created_tasks (l1 ++ l2) s).
Proof.
  intros Hl Ht id t Hne Hg. cbn in Hg.
  apply (held_mono s); [| auto | exact (Ht id t Hg)].
  cbn. rewrite Hl, !map_app, !in_app_iff. cbn.
  intros [H|[H|[H|H]]]; auto. congruence.
Qed.

Lemma tracked_take_awaiting s c l1 l2 :
  awaiting_executor s = l1 ++ c :: l2 ->
  tracked s -> tracked_but (co_task_id c) (with_awaiting_executor (l1 ++ l2) s).
Proof.
  intros Hl Ht id t Hne Hg. cbn in Hg.
  apply (held_mono s); [auto | | exact (Ht id t Hg)].
  cbn. rewrite Hl, !map_app, !in_app_iff. cbn.
  intros [H|[H|H]]; auto. congruence.
Qed.

Lemma tracked_submit url quality now s :
  consistent s -> tracked s ->
  tracked (exec (create_download_task url quality now) s).
Proof.
  intros Hc Ht. unfold exec at 1. rewrite create_download_task_eq.
  destruct (Nat.leb MAX_QUEUE_SIZE (List.length (queue s))); [exact Ht|].
  cbn [snd].
  assert (H1 : tracked (exec (enqueue_new_task url quality now) s)).
  { unfold exec. rewrite enqueue_new_task_eq. cbn [snd].
    intros id t Hg. cbn in Hg. rewrite get_set in Hg.
    destruct (Nat.eqb_spec (uuid_supply s) id) as [<-|Hne].
    - inversion Hg; subst t. unfold held. cbn. left.
      apply in_or_app. right. left. reflexivity.
    - apply (held_mono s); [| auto | exact (Ht id t Hg)].
      cbn. rewrite in_app_iff. tauto. }
  destruct (processing_task_id s); [exact H1 | apply tracked_next, H1].
Qed.

Lemma tracked_cancel id raises s :
  store_ok s -> tracked s -> tracked (exec (cancel_task id raises) s).
Proof.
  intros Hs Ht. unfold exec.
  destruct (cancel_task_cases id raises s)
    as [[_ ->]|[(t & Hg & Hd & _ & ->)|(t & Hg & _ & ->)]]; cbn [snd].
  - exact Ht.
  - (* the deletion of the files failed: the task has a directory, so it
       is not queued, and the queue has lost nothing *)
    destruct (so_dirs s Hs id Hd) as (_ & t' & Hg' & Hq).
    intros k u Hu. cbn in Hu. pose proof (Ht k u Hu) as H.
    unfold held in *. cbn. destruct (t_status u) eqn:Eu; auto.
    destruct H as [H|H]; auto. left.
    apply remove_first_In_other; [|exact H].
    intros ->. rewrite Hg' in Hu. inversion Hu; subst u. contradiction.
  - intros k u Hu. cbn in Hu. rewrite get_del in Hu.
    destruct (Nat.eqb_spec id k) as [|Hne]; [discriminate Hu|].
    pose proof (Ht k u Hu) as H.
    unfold held in *. cbn. destruct (t_status u) eqn:Eu; auto.
    destruct H as [H|H]; auto. left.
    apply remove_first_In_other; [congruence | exact H].
Qed.

Lemma tracked_cleanup now raises s :
  tracked s -> tracked (exec (cleanup_cycle now raises) s).
Proof.
  intros Ht.
  destruct (cleanup_cycle_cases now raises s)
    as (Hq & Hc & Ha & _ & _ & _ & _ & Hcase).
  intros id t Hg.
  assert (Hg0 : PyDict.get id (tasks s) = Some t).
  { destruct Hcase as [E|[E _]]; [rewrite E in Hg; exact Hg|].
    rewrite E in Hg. destruct (mem id (expired_ids now (tasks s)));
      [discriminate Hg | exact Hg]. }
  apply (held_mono s); [| | exact (Ht id t Hg0)].
  - rewrite Hq, Hc. auto.
  - rewrite Ha. auto.
Qed.

Lemma tracked_step e s :
  consistent s -> store_ok s -> tracked s -> tracked (step e s).
Proof.
  intros Hc Hs Ht.
  destruct e as [url quality now|id mkdir_failure|id result now
                 |id raises|now raises]; cbn [step].
  - apply tracked_submit; assumption.
  - destruct (take id (created_tasks s)) as [[c rest]|] eqn:E; [|exact Ht].
    destruct (take_split _ _ _ _ E) as (_ & l1 & l2 & Hl & ->).
    apply tracked_first_step.
    apply tracked_take_created; [exact Hl | exact Ht].
  - destruct (take id (awaiting_executor s)) as [[c rest]|] eqn:E; [|exact Ht].
    destruct (take_split _ _ _ _ E) as (_ & l1 & l2 & Hl & ->).
    apply tracked_resume.
    apply tracked_take_awaiting; [exact Hl | exact Ht].
  - apply tracked_cancel; assumption.
  - apply tracked_cleanup, Ht.
Qed.

Lemma tracked_run trace :
  forall s, consistent s -> store_ok s -> tracked s -> tracked (run trace s).
Proof.
  induction trace as [|e trace IH]; intros s Hc Hs Ht; [exact Ht|].
  cbn. apply IH;
    [ apply consistent_step, Hc | apply store_ok_step; assumption
    | apply tracked_step; assumption ].
Qed.

Lemma reachable_tracked s : reachable s -> tracked s.
Proof.
  intros [trace ->].
  apply tracked_run;
    [apply consistent_initial | apply store_ok_initial | apply tracked_initial].
Qed.

(* ================================================================== *)
(** * Every accepted task gets finished *)
(* ================================================================== *)

Lemma backlog_next x :
  backlog (exec process_next_in_queue x) <= backlog x.
Proof.
  unfold exec.
  destruct (processing_task_id x) as [p|] eqn:Hp.
  { rewrite (next_busy _ _ Hp). cbn [snd]. lia. }
  destruct (queue x) as [|head rest] eqn:Hq.
  { rewrite (next_empty _ Hq). cbn [snd]. lia. }
  destruct (PyDict.get head (tasks x)) as [t|] eqn:Hg.
  - destruct (status_eqb (t_status t) Queued) eqn:Hs.
    + assert (Hs' : t_status t = Queued)
        by (destruct (t_status t); try discriminate; reflexivity).
      rewrite (next_starts _ _ _ _ Hp Hq Hg Hs'). cbn [snd].
      unfold backlog. cbn. rewrite Hq, length_app. cbn. lia.
    + rewrite (next_drops _ _ _ Hp Hq)
        by (intros u Hu E; rewrite Hg in Hu; inversion Hu; subst u;
            rewrite E in Hs; discriminate Hs).
      cbn [snd]. unfold backlog. cbn. rewrite Hq. cbn. lia.
  - rewrite (next_drops _ _ _ Hp Hq)
      by (intros u Hu; rewrite Hg in Hu; discriminate Hu).
    cbn [snd]. unfold backlog. cbn. rewrite Hq. cbn. lia.
Qed.

Lemma backlog_finally x :
  backlog (exec download_video_finally x) <= backlog x.
Proof.
  unfold download_video_finally, exec, bind, modify.
  exact (backlog_next (with_processing_task_id None x)).
Qed.

Lemma backlog_first_step c mkdir_failure s :
  backlog (download_video_first_step c mkdir_failure s) <= S (backlog s).
Proof.
  destruct (PyDict.get (co_task_id c) (tasks s)) as [t|] eqn:Hg.
  2:{ rewrite (first_step_gone c _ _ Hg).
      pose proof (backlog_finally s). lia. }
  destruct (detect_platform (co_url c)) eqn:Hp.
  4:{ rewrite (first_step_unknown c _ _ _ Hg Hp).
      match goal with
      | |- backlog (exec download_video_finally ?x) <= _ =>
          pose proof (backlog_finally x) as H; unfold backlog in *; cbn in *; lia
      end. }
  all: assert (Hne : detect_platform (co_url c) <> unknown) by congruence.
  all: destruct mkdir_failure as [message|].
  all: try (rewrite (first_step_mkdir_failed c _ _ _ Hg Hne);
            match goal with
            | |- backlog (exec download_video_finally ?x) <= _ =>
                pose proof (backlog_finally x) as H;
                unfold backlog in *; cbn in *; lia
            end).
  all: rewrite (first_step_parked c _ _ Hg Hne).
  all: unfold backlog; cbn; rewrite length_app; cbn; lia.
Qed.

Lemma backlog_resume c result now s :
  backlog (download_video_resume c result now s) <= backlog s.
Proof.
  destruct (PyDict.get (co_task_id c) (tasks s)) as [t|] eqn:Hg.
  2:{ rewrite (resume_gone c _ _ _ Hg). apply backlog_finally. }
  destruct result as [i files|message].
  - rewrite (resume_fetched c _ _ _ _ _ Hg).
    match goal with
    | |- backlog (exec download_video_finally ?x) <= _ =>
        exact (backlog_finally x)
    end.
  - rewrite (resume_failed c _ _ _ _ Hg).
    match goal with
    | |- backlog (exec download_video_finally ?x) <= _ =>
        exact (backlog_finally x)
    end.
Qed.

Lemma take_In id l :
  In id (map co_task_id l) -> exists c rest, take id l = Some (c, rest).
Proof.
  induction l as [|c l IH]; cbn; [contradiction|].
  intros H. destruct (Nat.eqb_spec (co_task_id c) id) as [E|Hne]; [eauto|].
  destruct H as [H|H]; [contradiction|].
  destruct (IH H) as (c' & rest & ->). eauto.
Qed.

Lemma take_length id l c rest :
  take id l = Some (c, rest) -> List.length l = S (List.length rest).
Proof.
  intros H. destruct (take_split _ _ _ _ H) as (_ & l1 & l2 & -> & ->).
  rewrite !length_app. cbn. lia.
Qed.

Lemma backlog_start id mkdir_failure s :
  In id (map co_task_id (created_tasks s)) ->
  backlog (step (Start id mkdir_failure) s) < backlog s.
Proof.
  intros H. cbn [step]. destruct (take_In _ _ H) as (c & rest & E).
  rewrite E. pose proof (take_length _ _ _ _ E) as Hl.
  pose proof (backlog_first_step c mkdir_failure (with_created_tasks rest s))
    as Hb.
  unfold backlog in *. cbn in Hb. lia.
Qed.

Lemma backlog_finish id result now s :
  In id (map co_task_id (awaiting_executor s)) ->
  backlog (step (Finish id result now) s) < backlog s.
Proof.
  intros H. cbn [step]. destruct (take_In _ _ H) as (c & rest & E).
  rewrite E. pose proof (take_length _ _ _ _ E) as Hl.
  pose proof (backlog_resume c result now (with_awaiting_executor rest s))
    as Hb.
  unfold backlog in *. cbn in Hb. lia.
Qed.




Lemma idle_without_coroutines s :
  flow_ok s -> tracked s ->
  created_tasks s = [] -> awaiting_executor s = [] -> idle s.
Proof.
  intros Hf Ht Hc Ha.
  assert (Hq : queue s = []).
  { destruct (queue s) as [|h q] eqn:E; [reflexivity|].
    destruct (fo_live s Hf) as [H|H]; rewrite ?E; try discriminate;
      contradiction. }
  split; [exact Hq|]. split; [exact Hc|]. split; [exact Ha|]. split.
  - destruct (processing_task_id s) as [p|] eqn:Hp; [|reflexivity].
    pose proof (fo_flag s Hf p Hp) as H. rewrite Ha in H. contradiction.
  - intros id t Hg. pose proof (Ht id t Hg) as H. unfold held in H.
    rewrite Hq, Hc, Ha in H. destruct (t_status t); auto.
    + destruct H as [[]|[]].
    + destruct H.
Qed.

Lemma keys_first_step c mkdir_failure s :
  PyDict.keys (tasks (download_video_first_step c mkdir_failure s)) =
  PyDict.keys (tasks s).
Proof.
  destruct (PyDict.get (co_task_id c) (tasks s)) as [t|] eqn:Hg.
  2:{ rewrite (first_step_gone c _ _ Hg).
      destruct (finally_frame s) as (E & _). rewrite E. reflexivity. }
  destruct (detect_platform (co_url c)) eqn:Hp.
  4:{ rewrite (first_step_unknown c _ _ _ Hg Hp).
      match goal with
      | |- context [exec download_video_finally ?x] =>
          destruct (finally_frame x) as (E & _); rewrite E
      end. cbn. apply keys_update. }
  all: assert (Hne : detect_platform (co_url c) <> unknown) by congruence.
  all: destruct mkdir_failure as [message|].
  all: try (rewrite (first_step_mkdir_failed c _ _ _ Hg Hne);
            match goal with
            | |- context [exec download_video_finally ?x] =>
                destruct (finally_frame x) as (E & _); rewrite E
            end; cbn; apply keys_update).
  all: rewrite (first_step_parked c _ _ Hg Hne); cbn; apply keys_update.
Qed.

Lemma keys_resume c result now s :
  PyDict.keys (tasks (download_video_resume c result now s)) =
  PyDict.keys (tasks s).
Proof.
  destruct (PyDict.get (co_task_id c) (tasks s)) as [t|] eqn:Hg.
  2:{ rewrite (resume_gone c _ _ _ Hg).
      destruct (finally_frame s) as (E & _). rewrite E. reflexivity. }
  destruct result as [i files|message].
  - rewrite (resume_fetched c _ _ _ _ _ Hg).
    match goal with
    | |- context [exec download_video_finally ?x] =>
        destruct (finally_frame x) as (E & _); rewrite E
    end. cbn. apply keys_update.
  - rewrite (resume_failed c _ _ _ _ Hg).
    match goal with
    | |- context [exec download_video_finally ?x] =>
        destruct (finally_frame x) as (E & _); rewrite E
    end. cbn. apply keys_update.
Qed.

Lemma loop_event_step mkdir_failure result now s e :
  loop_event mkdir_failure result now s = Some e ->
  backlog (step e s) < backlog s /\
  PyDict.keys (tasks (step e s)) = PyDict.keys (tasks s).
Proof.
  unfold loop_event. intros H.
  destruct (created_tasks s) as [|c l] eqn:Ec.
  - destruct (awaiting_executor s) as [|c l] eqn:Ea; [discriminate H|].
    inversion H; subst e. split.
    + apply backlog_finish. rewrite Ea. left. reflexivity.
    + cbn [step]. rewrite Ea. cbn [take]. rewrite Nat.eqb_refl.
      rewrite keys_resume. reflexivity.
  - inversion H; subst e. split.
    + apply backlog_start. rewrite Ec. left. reflexivity.
    + cbn [step]. rewrite Ec. cbn [take]. rewrite Nat.eqb_refl.
      rewrite keys_first_step. reflexivity.
Qed.

Lemma drain_idle mkdir_failure result now fuel :
  forall s,
    consistent s -> store_ok s -> flow_ok s -> tracked s ->
    backlog s <= fuel ->
    idle (drain fuel mkdir_failure result now s) /\
    PyDict.keys (tasks (drain fuel mkdir_failure result now s)) =
    PyDict.keys (tasks s) /\
    exists trace, drain fuel mkdir_failure result now s = run trace s.
Proof.
  induction fuel as [|fuel IH]; intros s Hc Hs Hf Ht Hb.
  - cbn [drain]. split; [|split; [reflexivity | exists []; reflexivity]].
    unfold backlog in Hb.
    apply idle_without_coroutines; auto.
    + destruct (created_tasks s); [reflexivity | cbn in Hb; lia].
    + destruct (awaiting_executor s); [reflexivity | cbn in Hb; lia].
  - cbn [drain].
    destruct (loop_event mkdir_failure result now s) as [e|] eqn:He.
    + destruct (loop_event_step _ _ _ _ _ He) as (Hlt & Hk).
      destruct (IH (step e s)) as (Hi & Hk' & trace & Htr).
      * apply consistent_step, Hc.
      * apply store_ok_step; assumption.
      * apply flow_ok_step; assumption.
      * apply tracked_step; assumption.
      * lia.
      * split; [exact Hi|]. split; [congruence|].
        exists (e :: trace). exact Htr.
    + split; [|split; [reflexivity | exists []; reflexivity]].
      unfold loop_event in He.
      apply idle_without_coroutines; auto.
      * destruct (created_tasks s); [reflexivity | discriminate He].
      * destruct (created_tasks s); [|discriminate He].
        destruct (awaiting_executor s); [reflexivity | discriminate He].
Qed.

(** X15.  No unfinished task is lost.  In every reachable state a task
    with status 'queued' is in the queue or has a created coroutine that
    has not started yet, and a task with status 'processing' has a
    coroutine suspended in the executor.  This holds although a cancel
    whose [rmtree] fails has already removed the identifier from the
    queue: only a task that is past 'queued' has a directory. *)
Theorem no_unfinished_task_is_lost (s : state) (id : task_id) (t : task) :
  reachable s -> PyDict.get id (tasks s) = Some t ->
  (t_status t = Queued ->
     In id (queue s) \/
     exists c, In c (created_tasks s) /\ co_task_id c = id /\
               co_url c = t_url t /\ co_quality c = t_quality t) /\
  (t_status t = Processing ->
     exists c, In c (awaiting_executor s) /\ co_task_id c = id /\
               co_quality c = t_quality t).
Proof.
  intros Hr Hg.
  pose proof (reachable_tracked s Hr id t Hg) as H.
  pose proof (reachable_consistent s Hr) as Hc.
  unfold held in H. split; intros Hs; rewrite Hs in H.
  - destruct H as [H|H]; [left; exact H|]. right.
    apply in_map_iff in H. destruct H as (c & Hid & Hin).
    exists c. split; [exact Hin|]. split; [exact Hid|].
    rewrite <- Hid in Hg.
    destruct (inv_created s Hc c t Hin Hg) as (_ & Hq & Hu). auto.
  - apply in_map_iff in H. destruct H as (c & Hid & Hin).
    exists c. split; [exact Hin|]. split; [exact Hid|].
    rewrite <- Hid in Hg.
    destruct (inv_awaiting s Hc c t Hin Hg) as (_ & Hq). auto.
Qed.

Lemma no_unfinished_task_is_lost_witness :
  let s := run [Submit sample_url 720 0; Start 0 None;
                Submit sample_url 720 1] initial_state in
  In 1 (queue s) \/
  exists c, In c (created_tasks s) /\ co_task_id c = 1 /\
            co_url c = sample_url /\ co_quality c = 720%Z.
Proof.
  cbv zeta.
  set (s := run [Submit sample_url 720 0; Start 0 None;
                 Submit sample_url 720 1] initial_state).
  assert (Hg : PyDict.get 1 (tasks s) = Some (new_task 1 sample_url 720 1))
    by (vm_compute; reflexivity).
  exact (proj1 (no_unfinished_task_is_lost s 1 _ (ex_intro _ _ eq_refl) Hg)
           eq_refl).
Defined.



(** X17.  Every accepted task gets finished.  From any reachable state,
    if no request, cancel or cleanup comes in and the event loop keeps
    running the coroutines, the created ones first, then after at most
    [backlog s] coroutine steps, whatever the file system, the fetches
    and the clock answer, the server is idle: the queue is empty, no
    coroutine is left, [processing_task_id] is clear, and every task
    that was in the store is still there and is completed or failed. *)
Theorem every_accepted_task_gets_finished (s : state)
    (mkdir_failure : task_id -> option string)
    (result : task_id -> fetch_result) (now : task_id -> Z) :
  reachable s ->
  let s' := drain (backlog s) mkdir_failure result now s in
  reachable s' /\ idle s' /\
  forall id, PyDict.get id (tasks s) <> None ->
    exists t, PyDict.get id (tasks s') = Some t /\
              (t_status t = Completed \/ t_status t = Error).
Proof.
  intros Hr. cbv zeta.
  destruct (drain_idle mkdir_failure result now (backlog s) s
              (reachable_consistent s Hr) (reachable_store_ok s Hr)
              (reachable_flow_ok s Hr) (reachable_tracked s Hr) (le_n _))
    as (Hi & Hk & trace & Htr).
  split; [|split; [exact Hi|]].
  - destruct Hr as [trace0 ->]. exists (trace0 ++ trace).
    rewrite Htr. unfold run. rewrite fold_left_app. reflexivity.
  - intros id Hg.
    destruct (PyDict.get id (tasks (drain (backlog s) mkdir_failure result
                                      now s))) as [t|] eqn:E.
    + exists t. split; [reflexivity|].
      destruct Hi as (_ & _ & _ & _ & Hfin). exact (Hfin id t E).
    + exfalso. apply Hg. apply get_None_keys. rewrite <- Hk.
      apply get_None_keys. exact E.
Qed.

Lemma every_accepted_task_gets_finished_witness :
  let s := run [Submit sample_url 720 0; Submit sample_url 720 1;
                Start 0 None; Submit "ftp://example.org/a" 480 2]
               initial_state in
  idle (drain (backlog s) (fun _ => None) (fun _ => FetchFailed "network")
          (fun _ => 7%Z) s).
Proof.
  cbv zeta.
  exact (proj1 (proj2
           (every_accepted_task_gets_finished
              (run [Submit sample_url 720 0; Submit sample_url 720 1;
                    Start 0 None; Submit "ftp://example.org/a" 480 2]
                   initial_state)
              (fun _ => None) (fun _ => FetchFailed "network")
              (fun _ => 7%Z) (ex_intro _ _ eq_refl)))).
Defined.

Local Open Scope string_scope.

(* ================================================================== *)
(** * download_file *)
(* ================================================================== *)

Lemma format_size_loop_unit (units : list string) :
  forall q, exists x u, format_size_loop units q = format_1f x ++ " " ++ u.
Proof.
  induction units as [|unit units IH]; intros q; cbn [format_size_loop].
  - exists q, "ТБ". reflexivity.
  - destruct (Qcompare q 1024); try apply IH.
    exists q, unit. reflexivity.
Qed.

Lemma format_size_not_placeholder (n : Z) : format_size n <> "Уточняется".
Proof.
  intros H.
  assert (Hc : contains " " (format_size n) = true).
  { destruct (format_size_loop_unit ["Б"; "КБ"; "МБ"; "ГБ"] (inject_Z n))
      as (x & u & E).
    apply contains_app. exists (format_1f x), u. exact E. }
  rewrite H in Hc. vm_compute in Hc. discriminate Hc.
Qed.

(** X18.  GET /api/download/{task_id} in a reachable state.  It never
    changes the state.  An unknown id gets 404; a task that is queued,
    processing or failed gets 400 with its status in the message; a
    completed task whose reported size is still the placeholder has no
    file recorded and gets 404; any other completed task has a recorded
    path and is served exactly when that path is non-empty and exists. *)
Theorem download_file_outcomes (s : state) (id : task_id)
    (path_exists : string -> bool) :
  reachable s ->
  snd (download_file id path_exists s) = s /\
  match PyDict.get id (tasks s) with
  | None =>
      fst (download_file id path_exists s) =
      Raises (HTTPException 404 "Задача не найдена")
  | Some t =>
      match t_status t with
      | Completed =>
          exists v, t_video_info t = Some v /\
            ((vi_size v = "Уточняется" /\
              fst (download_file id path_exists s) =
              Raises (HTTPException 404 "Файл не найден")) \/
             (vi_size v <> "Уточняется" /\
              exists path, t_file_path t = Some path /\
                fst (download_file id path_exists s) =
                if String.eqb path "" || negb (path_exists path)
                then Raises (HTTPException 404 "Файл не найден")
                else Returns {| fr_path := path;
                                fr_filename := basename path;
                                fr_media_type := "application/octet-stream" |}))
      | st =>
          fst (download_file id path_exists s) =
          Raises (HTTPException 400
                    ("Видео еще не готово. Статус: " ++ status_name st))
      end
  end.
Proof.
  intros Hr. split.
  - unfold download_file.
    destruct (PyDict.get id (tasks s)) as [t|]; [|reflexivity].
    destruct (negb (status_eqb (t_status t) Completed)); [reflexivity|].
    destruct (t_file_path t) as [p|]; [|reflexivity].
    destruct (String.eqb p "" || negb (path_exists p)); reflexivity.
  - unfold download_file.
    destruct (PyDict.get id (tasks s)) as [t|] eqn:Hg; [|reflexivity].
    pose proof (so_records s (reachable_store_ok s Hr) id t Hg) as [_ Hsh].
    destruct (t_status t) eqn:Hst; cbn [status_eqb negb fst];
      try reflexivity.
    destruct Hsh as (_ & _ & _ & _ & v & Hv & [[Hf Hsz]|(p & size & Hf & Hsz)]).
    + exists v. split; [exact Hv|]. left. split; [exact Hsz|].
      rewrite Hf. reflexivity.
    + exists v. split; [exact Hv|]. right. split.
      * rewrite Hsz. apply format_size_not_placeholder.
      * exists p. split; [exact Hf|]. rewrite Hf.
        destruct (String.eqb p "" || negb (path_exists p)); reflexivity.
Qed.

Lemma download_file_outcomes_witness :
  snd (download_file 0 (fun _ => true)
         (run [Submit sample_url 720 0] initial_state)) =
  run [Submit sample_url 720 0] initial_state.
Proof.
  exact (proj1 (download_file_outcomes
                  (run [Submit sample_url 720 0] initial_state) 0
                  (fun _ => true) (ex_intro _ _ eq_refl))).
Defined.

(* ================================================================== *)
(** * The file name of a download *)
(* ================================================================== *)

Lemma contains_slash_cons (c : ascii) (rest : string) :
  contains "/" (String c rest) = is_slash c || contains "/" rest.
Proof.
  cbn [contains prefix]. unfold is_slash.
  destruct (ascii_dec "/" c) as [<-|Hne].
  - rewrite Ascii.eqb_refl. destruct rest; reflexivity.
  - destruct (Ascii.eqb_spec c "/"%char); [congruence|reflexivity].
Qed.

Lemma basename_splits (path : string) :
  exists dir,
    path = dir ++ basename path /\
    contains "/" (basename path) = false /\
    (dir = "" \/ exists d, dir = d ++ "/").
Proof.
  induction path as [|c rest IH]; cbn [basename].
  - exists "". split; [reflexivity|]. split; [reflexivity|]. left. reflexivity.
  - destruct (contains "/" rest) eqn:Hc.
    + destruct IH as (dir & Hp & Hb & Hd).
      exists (String c dir). split; [cbn; congruence|]. split; [exact Hb|].
      right. destruct Hd as [->|(d & ->)].
      * destruct rest as [|c' rest']; [discriminate Hc|].
        (* the directory part is empty although the rest has a slash *)
        exfalso. cbn [append] in Hp. rewrite <- Hp in Hb. congruence.
      * exists (String c d). reflexivity.
    + destruct (is_slash c) eqn:Hs.
      * exists "/". unfold is_slash in Hs. apply Ascii.eqb_eq in Hs. subst c.
        split; [reflexivity|]. split; [exact Hc|].
        right. exists "". reflexivity.
      * exists "". split; [reflexivity|]. split.
        -- rewrite contains_slash_cons, Hs, Hc. reflexivity.
        -- left. reflexivity.
Qed.

(** X19.  When GET /api/download/{task_id} serves a file, the task is
    completed, the path served is the one recorded with the task, it is
    not empty and it exists; the file name offered is what follows the
    last slash of that path: the path is a directory part, empty or
    ending in a slash, followed by the name, and the name holds no
    slash. *)
Theorem download_file_serves_recorded_file (s : state) (id : task_id)
    (path_exists : string -> bool) (r : file_response) :
  fst (download_file id path_exists s) = Returns r ->
  (exists t, PyDict.get id (tasks s) = Some t /\ t_status t = Completed /\
             t_file_path t = Some (fr_path r)) /\
  fr_path r <> "" /\ path_exists (fr_path r) = true /\
  contains "/" (fr_filename r) = false /\
  exists dir, fr_path r = dir ++ fr_filename r /\
              (dir = "" \/ exists d, dir = d ++ "/").
Proof.
  unfold download_file.
  destruct (PyDict.get id (tasks s)) as [t|] eqn:Hg; [|discriminate].
  destruct (t_status t) eqn:Hst; cbn [status_eqb negb fst]; try discriminate.
  destruct (t_file_path t) as [p|] eqn:Hf; [|discriminate].
  destruct (String.eqb p "") eqn:He; [discriminate|].
  destruct (path_exists p) eqn:Hx; [|discriminate].
  cbn. intros H. inversion H; subst r; cbn.
  split; [exists t; auto|].
  split; [intros ->; discriminate He|].
  split; [exact Hx|].
  destruct (basename_splits p) as (dir & Hp & Hb & Hd).
  split; [exact Hb|]. exists dir. auto.
Qed.

(* ================================================================== *)
(** * get_ydl_opts *)
(* ================================================================== *)

(** X20.  The options built for yt-dlp.  Whatever the platform, the
    format selector limits the height to the smaller of the requested
    quality and 720, the output template is the given path and the base
    switches are as set at the start: no platform's options override
    them.  A user agent is set for every platform but an unknown one, a
    referer for YouTube only, and HTTP headers for VK and Instagram
    only. *)
Theorem ydl_opts_by_platform (quality : Z) (output_path : string)
    (p : platform) :
  let opts := get_ydl_opts quality output_path p in
  (exists height, (height <= 720)%Z /\ (height <= quality)%Z /\
     (height = quality \/ height = 720%Z) /\
     opt_get "format" opts = Some (PStr (format_selector height))) /\
  opt_get "outtmpl" opts = Some (PStr output_path) /\
  opt_get "quiet" opts = Some (PBool false) /\
  opt_get "no_warnings" opts = Some (PBool false) /\
  opt_get "extract_flat" opts = Some (PBool false) /\
  opt_get "nocheckcertificate" opts = Some (PBool true) /\
  (opt_get "user_agent" opts = None <-> p = unknown) /\
  (opt_get "referer" opts <> None <-> p = youtube) /\
  (opt_get "http_headers" opts <> None <-> p = vk \/ p = instagram).
Proof.
  cbv zeta. split.
  - exists (Z.min quality MAX_QUALITY). unfold MAX_QUALITY.
    split; [lia|]. split; [lia|]. split; [lia|].
    destruct p; reflexivity.
  - destruct p; cbn; intuition (try discriminate; try congruence).
Qed.

Lemma download_file_serves_recorded_file_witness :
  let s := run [Submit sample_url 720 0; Start 0 None;
                Finish 0 (Fetched {| info_title := Some "x";
                                     info_duration := Some 61%Z |}
                                  [("downloads/0/x.mp4", 2048%Z)]) 5]
               initial_state in
  exists r, fst (download_file 0 (fun _ => true) s) = Returns r /\
            contains "/" (fr_filename r) = false.
Proof.
  cbv zeta.
  set (s := run [Submit sample_url 720 0; Start 0 None;
                 Finish 0 (Fetched {| info_title := Some "x";
                                      info_duration := Some 61%Z |}
                                   [("downloads/0/x.mp4", 2048%Z)]) 5]
                initial_state).
  assert (E : exists r, fst (download_file 0 (fun _ => true) s) = Returns r)
    by (vm_compute; eexists; reflexivity).
  destruct E as (r & Hr). exists r. split; [exact Hr|].
  exact (proj1 (proj2 (proj2 (proj2
           (download_file_serves_recorded_file s 0 _ r Hr))))).
Defined.
